(** * podcast-matchmaker: the recommendation pipeline, embedded and verified

    The JavaScript sources embedded here are
    - [utils/text-processing.js]  (preprocessText, filterTokens, extractTopics,
      extractKeywords, generateMatchReason),
    - [utils/similarity.js]       (generateEmbedding, calculateCosineSimilarity,
      calculateTopicSimilarity, createWeightedText, WEIGHTS),
    - [utils/search-util.js]      (generateDiverseQueries and its helpers),
    - [services/recommendations]  (getCandidatePodcasts, rankCandidates,
      generateRecommendations, standardizeFavorites),
    - [routes/recommendation.routes.js] (the handler of POST /),
    - [routes/podcast.routes.js]  (the order of the routes),
    - [server.js], [utils/env-validator.js], [utils/api-client.js] (what
      loading the server comes to),
    - the pages [SearchPage], [RecommendationsPage], [FavoritesPage]
      (normalizePodcastData and the list of favorites).

    JavaScript numbers are IEEE 754 binary64 values: they are Rocq's primitive
    floats, so every arithmetic step below rounds exactly as the program does.
    Strings are sequences of code units below 256.  What the program takes
    from outside (the stop-word list, the tokenizer and the TF-IDF of
    [natural], the embedding provider, the catalog, the environment) is a
    parameter of the functions that use it.

    The file has the definitions first (runtime, data model, the sources,
    scenarios, the specification's wording, the vocabulary of the proofs)
    and then the facts: the order of binary64 numbers, the sign of a
    difference, text normalisation, candidate collection, sorting, ranking,
    similarity, query generation; then counters and keywords, the route and
    the pages, the operations that do not round, the mean of the combined
    scores and the reported pairing, and the embedding cache. *)

From Stdlib Require Import ZArith NArith Arith List String Ascii Bool Lia Sorted.
From Stdlib Require Import Permutation DecimalString.
From Stdlib Require Import Floats Uint63.
Import ListNotations.

Set Warnings "-inexact-float,-abstract-large-number".
Local Open Scope bool_scope.
Local Open Scope list_scope.

(* ===================================================================== *)
(** * The JavaScript runtime: strings *)
(* ===================================================================== *)

Module JsString.

Definition code (c : ascii) : nat := nat_of_ascii c.

Definition between (lo hi : nat) (c : ascii) : bool :=
  (lo <=? code c) && (code c <=? hi).

Definition isDigit (c : ascii) : bool := between 48 57 c.
Definition isUpper (c : ascii) : bool := between 65 90 c.
Definition isLower (c : ascii) : bool := between 97 122 c.

(** [\w] : [A-Za-z0-9_]. *)
Definition isWordChar (c : ascii) : bool :=
  isUpper c || isLower c || isDigit c || (code c =? 95).

(** [\s], and the characters [trim] strips: TAB, LF, VT, FF, CR, SP, NBSP. *)
Definition isWhiteSpace (c : ascii) : bool :=
  between 9 13 c || (code c =? 32) || (code c =? 160).

(** [String.prototype.toLowerCase], one code unit at a time. *)
Definition toLowerCaseChar (c : ascii) : ascii :=
  if isUpper c || (between 192 222 c && negb (code c =? 215))
  then ascii_of_nat (code c + 32)
  else c.

Fixpoint toLowerCase (s : string) : string :=
  match s with
  | EmptyString => EmptyString
  | String c r => String (toLowerCaseChar c) (toLowerCase r)
  end.

Fixpoint contains (x : ascii) (s : string) : bool :=
  match s with
  | EmptyString => false
  | String c r => Ascii.eqb c x || contains x r
  end.

Fixpoint trimStart (s : string) : string :=
  match s with
  | EmptyString => EmptyString
  | String c r => if isWhiteSpace c then trimStart r else s
  end.

Fixpoint trimEnd (s : string) : string :=
  match s with
  | EmptyString => EmptyString
  | String c r =>
      match trimEnd r with
      | EmptyString => if isWhiteSpace c then EmptyString else String c EmptyString
      | r' => String c r'
      end
  end.

Definition trim (s : string) : string := trimEnd (trimStart s).

Definition isEmpty (s : string) : bool :=
  match s with EmptyString => true | _ => false end.

(** [s.split(sep)] for a one-character separator. *)
Fixpoint split (sep : ascii) (s : string) : list string :=
  match s with
  | EmptyString => [EmptyString]
  | String c r =>
      if Ascii.eqb c sep then EmptyString :: split sep r
      else match split sep r with
           | w :: ws => String c w :: ws
           | [] => [String c EmptyString]
           end
  end.

(** [s.split(/\s+/)]: [inRun] records that the previous character was
    white space, so that a run of white space separates only once. *)
Fixpoint splitRuns (inRun : bool) (s : string) : list string :=
  match s with
  | EmptyString => [EmptyString]
  | String c r =>
      if isWhiteSpace c
      then (if inRun then splitRuns true r else EmptyString :: splitRuns true r)
      else match splitRuns false r with
           | w :: ws => String c w :: ws
           | [] => [String c EmptyString]
           end
  end.

Definition splitWhiteSpace (s : string) : list string := splitRuns false s.

(** [arr.join(sep)]. *)
Definition join (sep : string) (l : list string) : string := String.concat sep l.

Definition includes (x : string) (l : list string) : bool :=
  existsb (String.eqb x) l.

(** ** [isNaN(token)] on a string: [ToNumber] follows the grammar
    StringNumericLiteral of ECMAScript. *)

Definition isHexDigit (c : ascii) : bool :=
  isDigit c || between 65 70 c || between 97 102 c.
Definition isOctalDigit (c : ascii) : bool := between 48 55 c.
Definition isBinaryDigit (c : ascii) : bool := between 48 49 c.

Fixpoint allChars (p : ascii -> bool) (s : string) : bool :=
  match s with
  | EmptyString => true
  | String c r => p c && allChars p r
  end.

Fixpoint skipDigits (s : string) : string :=
  match s with
  | EmptyString => EmptyString
  | String c r => if isDigit c then skipDigits r else s
  end.

Definition startsWithDigit (s : string) : bool :=
  match s with
  | String c _ => isDigit c
  | EmptyString => false
  end.

Definition stripSign (s : string) : string :=
  match s with
  | String c r => if (code c =? 43) || (code c =? 45) then r else s
  | EmptyString => s
  end.

(** What may follow the mantissa: nothing, or [e]/[E], a sign, digits. *)
Definition exponentPart (s : string) : bool :=
  match s with
  | EmptyString => true
  | String c r =>
      ((code c =? 101) || (code c =? 69))
      && startsWithDigit (stripSign r)
      && isEmpty (skipDigits (stripSign r))
  end.

Definition isDecimalLiteral (s : string) : bool :=
  match skipDigits s with
  | String "."%char r =>
      (startsWithDigit s || startsWithDigit r) && exponentPart (skipDigits r)
  | rest => startsWithDigit s && exponentPart rest
  end.

Definition isNonDecimalLiteral (s : string) : bool :=
  match s with
  | String "0"%char (String c r) =>
      negb (isEmpty r)
      && (  (((code c =? 120) || (code c =? 88)) && allChars isHexDigit r)
         || (((code c =? 111) || (code c =? 79)) && allChars isOctalDigit r)
         || (((code c =? 98) || (code c =? 66)) && allChars isBinaryDigit r))
  | _ => false
  end.

(** [ToNumber(s)] is a number (not NaN). *)
Definition isNumeric (s : string) : bool :=
  let t := trim s in
  isEmpty t
  || isNonDecimalLiteral t
  || String.eqb (stripSign t) "Infinity"
  || isDecimalLiteral (stripSign t).

Definition isNaN (s : string) : bool := negb (isNumeric s).

End JsString.

(* ===================================================================== *)
(** * The JavaScript runtime: numbers, arrays, plain objects *)
(* ===================================================================== *)

Module Js.

(** A value that is tested for truth: [x || y]. *)
Definition orElse (x : option string) (y : option string) : option string :=
  match x with
  | Some (String _ _) => x
  | _ => y
  end.

(** [x || ''] *)
Definition orEmpty (x : option string) : string :=
  match x with
  | Some s => s
  | None => EmptyString
  end.

Definition isNaNf (x : float) : bool := negb (PrimFloat.eqb x x).

(** [Math.min(a, b)]: NaN if either is NaN, and -0 is below +0. *)
Definition Math_min (a b : float) : float :=
  if PrimFloat.ltb a b then a
  else if PrimFloat.ltb b a then b
  else if isNaNf a then a
  else if isNaNf b then b
  else match PrimFloat.classify a with
       | NZero => a
       | _ => b
       end.

(** [Array.prototype.sort(comparefn)].  The sort is stable; an element moves
    behind the one after it exactly when [comparefn] of the two is positive
    (a NaN result counts as 0).  For a consistent [comparefn] every
    conforming engine returns this array.  A [comparefn] that answers NaN
    for some pairs only (a NaN score, a counter entry that holds a text) is
    not consistent: the language then leaves the order to the engine, and
    this array is the order that insertion from the right gives, which
    need not be the one a given engine returns. *)
Fixpoint sortInsert {A : Type} (comparefn : A -> A -> float) (x : A) (l : list A)
  : list A :=
  match l with
  | [] => [x]
  | y :: r =>
      if PrimFloat.ltb 0 (comparefn x y) then y :: sortInsert comparefn x r
      else x :: l
  end.

Definition Array_sort {A : Type} (comparefn : A -> A -> float) (l : list A) : list A :=
  fold_right (sortInsert comparefn) [] l.

(** [arr.slice(0, n)] *)
Definition slice0 {A : Type} (n : nat) (l : list A) : list A := firstn n l.

(** [[...new Set(arr)]]: first occurrences, in order. *)
Fixpoint uniqueBy {A : Type} (eqb : A -> A -> bool) (seen : list A) (l : list A)
  : list A :=
  match l with
  | [] => []
  | x :: r =>
      if existsb (eqb x) seen then uniqueBy eqb seen r
      else x :: uniqueBy eqb (x :: seen) r
  end.

(** ** A plain object [{}] used as a counter.

    A property holds a number, or the text that results when [+ 1] is
    applied to something that is not a number: a name inherited from
    [Object.prototype] reads as a function, which is truthy, so
    [(o[k] || 0) + 1] concatenates. *)
Inductive propval :=
| Num (x : float)
| Text.

Definition toNumber (v : propval) : float :=
  match v with
  | Num x => x
  | Text => PrimFloat.nan
  end.

(** Own properties, in the order they were created. *)
Definition object := list (string * propval).

Definition inheritedNames : list string :=
  [ "constructor"; "toString"; "valueOf"; "hasOwnProperty"; "isPrototypeOf";
    "propertyIsEnumerable"; "toLocaleString"; "__defineGetter__";
    "__defineSetter__"; "__lookupGetter__"; "__lookupSetter__" ]%string.

Fixpoint getOwn (k : string) (o : object) : option propval :=
  match o with
  | [] => None
  | (k', v) :: r => if String.eqb k k' then Some v else getOwn k r
  end.

Fixpoint setOwn (k : string) (v : propval) (o : object) : object :=
  match o with
  | [] => [(k, v)]
  | (k', v') :: r =>
      if String.eqb k k' then (k', v) :: r else (k', v') :: setOwn k v r
  end.

(** [(x || 0) + 1] *)
Definition orZeroPlusOne (v : option propval) : propval :=
  match v with
  | None => Num (0 + 1)
  | Some (Num x) =>
      Num ((if PrimFloat.eqb x 0 || isNaNf x then 0 else x) + 1)
  | Some Text => Text
  end.

(** [o[k] = (o[k] || 0) + 1].  Assigning a primitive to [__proto__] is
    ignored and creates no property. *)
Definition bump (o : object) (k : string) : object :=
  if String.eqb k "__proto__" then o
  else match getOwn k o with
       | Some v => setOwn k (orZeroPlusOne (Some v)) o
       | None =>
           if JsString.includes k inheritedNames then setOwn k Text o
           else setOwn k (orZeroPlusOne None) o
       end.

(** An array index: a canonical decimal numeral below 2^32 - 1. *)
Fixpoint digitsValue (acc : N) (s : string) : N :=
  match s with
  | EmptyString => acc
  | String c r => digitsValue (acc * 10 + N.of_nat (JsString.code c - 48)) r
  end.

Definition arrayIndex (k : string) : option N :=
  match k with
  | EmptyString => None
  | String c r =>
      if JsString.allChars JsString.isDigit k
         && (negb (JsString.code c =? 48) || JsString.isEmpty r)
         && (String.length k <=? 10)
         && (digitsValue 0 k <=? 4294967294)%N
      then Some (digitsValue 0 k)
      else None
  end.

Fixpoint insertIndexed {V : Type} (i : N) (kv : string * V)
  (l : list (N * (string * V))) : list (N * (string * V)) :=
  match l with
  | [] => [(i, kv)]
  | (j, kv') :: r =>
      if (i <=? j)%N then (i, kv) :: l else (j, kv') :: insertIndexed i kv r
  end.

(** [Object.entries(o)]: array-index keys first, ascending, then the other
    keys in creation order. *)
Definition Object_entries (o : object) : list (string * propval) :=
  let indexed :=
    fold_right
      (fun kv acc =>
         match arrayIndex (fst kv) with
         | Some i => insertIndexed i kv acc
         | None => acc
         end) [] o in
  map snd indexed
  ++ filter (fun kv => match arrayIndex (fst kv) with
                       | Some _ => false
                       | None => true
                       end) o.

(** ** Whole numbers and their text

    [Math.round(x)] is NaN, an infinity or a whole number; a zero of either
    sign is the whole number 0, which is how it prints. *)
Inductive rounded :=
| NotANumber
| Infinite (negative : bool)
| Whole (z : Z).

(** [Math.round(x)]: the whole number nearest to [x], the greater one of
    two that are equally near. *)
Definition Math_round (x : float) : rounded :=
  match Prim2SF x with
  | S754_nan => NotANumber
  | S754_infinity s => Infinite s
  | S754_zero _ => Whole 0
  | S754_finite s m e =>
      let n := if s then Zneg m else Zpos m in
      if (0 <=? e)%Z then Whole (n * 2 ^ e)
      else Whole ((2 * n + 2 ^ (- e)) / 2 ^ (1 - e))
  end.

Definition decimal (z : Z) : string := NilZero.string_of_uint (N.to_uint (Z.to_N z)).

(** Whether the whole number [x], rounded to binary64, is the binary64
    number [a]; [a] is at least 2^53, so that its neighbours are whole. *)
Definition roundsTo (a x : Z) : bool :=
  let e := (Z.log2 a - 52)%Z in
  let m := (a / 2 ^ e)%Z in
  let above := (2 ^ e)%Z in
  let below := (if m =? 2 ^ 52 then 2 ^ (e - 1) else 2 ^ e)%Z in
  let d := (2 * (x - a))%Z in
  if Z.even m then (- below <=? d)%Z && (d <=? above)%Z
  else (- below <? d)%Z && (d <? above)%Z.

(** The whole number of fewest significant digits that rounds to [a], the
    nearest to [a] if there are several, the even one of two equally near;
    [k] digits are tried first and [digits] is the number of digits of [a]. *)
Fixpoint shortestFrom (fuel : nat) (k : Z) (digits : Z) (a : Z) : Z :=
  match fuel with
  | O => a
  | S fuel' =>
      let scale := (10 ^ (digits - k))%Z in
      let lo := (a / scale * scale)%Z in
      let hi := (lo + scale)%Z in
      match roundsTo a lo, roundsTo a hi with
      | true, true =>
          if (a - lo <? hi - a)%Z then lo
          else if (hi - a <? a - lo)%Z then hi
          else if Z.even (a / scale) then lo else hi
      | true, false => lo
      | false, true => hi
      | false, false => shortestFrom fuel' (k + 1)%Z digits a
      end
  end.

Fixpoint withoutTrailingZeros (s : string) : string :=
  match s with
  | EmptyString => EmptyString
  | String c r =>
      match withoutTrailingZeros r with
      | EmptyString => if Ascii.eqb c "0" then EmptyString else String c EmptyString
      | r' => String c r'
      end
  end.

(** The text of a whole number above 0 that is a binary64 number: its
    digits when it is below 2^53, else the fewest digits that read back as
    the same number, followed by zeros up to 21 digits in all and written
    with an exponent beyond. *)
Definition wholeText (a : Z) : string :=
  let x :=
    if (a <? 2 ^ 53)%Z then a
    else let digits := Z.of_nat (String.length (decimal a)) in
         shortestFrom (Z.to_nat digits) 1 digits a in
  let text := decimal x in
  if (String.length text <=? 21)%nat then text
  else
    match text with
    | EmptyString => EmptyString
    | String first rest =>
        let exponent := decimal (Z.of_nat (String.length rest)) in
        match withoutTrailingZeros rest with
        | EmptyString =>
            String first (String.append "e+" exponent)
        | fraction =>
            String first
              (String.append "." (String.append fraction (String.append "e+" exponent)))
        end
    end.

(** [String(x)], as a template literal applies it, for a value of
    [Math.round]. *)
Definition Number_toString (x : rounded) : string :=
  match x with
  | NotANumber => "NaN"
  | Infinite false => "Infinity"
  | Infinite true => "-Infinity"
  | Whole Z0 => "0"
  | Whole (Zpos p) => wholeText (Zpos p)
  | Whole (Zneg p) => String "-" (wholeText (Zpos p))
  end.

End Js.

(* ===================================================================== *)
(** * Data model *)
(* ===================================================================== *)

(** A podcast as the catalog delivers it: an object whose [id] is a text,
    whose text fields are texts and whose [genre_ids] is an array of whole
    numbers.  A field that is absent ([undefined]) is [None].  This is the
    data the functions below are embedded for; a request body can hold
    other values in these places (a number as [genre_ids], an object as
    [publisher]), and what the program does with those is not modelled. *)
Record Podcast := {
  id : string;
  title : option string;
  title_original : option string;
  description : option string;
  description_original : option string;
  publisher : option string;
  publisher_original : option string;
  genre_ids : option (list Z)
}.

(** [{term, score}] *)
Record Topic := { term : string; score : float }.

(* ===================================================================== *)
(** * utils/text-processing.js *)
(* ===================================================================== *)

Module TextProcessing.

Import JsString.

Definition commonWords : list string :=
  [ "the"; "and"; "a"; "an"; "in"; "on"; "at"; "to"; "for"; "of"; "is"; "are";
    "was"; "were"; "this"; "that"; "these"; "those"; "it"; "they"; "we"; "you";
    "he"; "she"; "his"; "her"; "them"; "their"; "our"; "your"; "its"; "has";
    "have"; "had"; "been"; "would"; "could"; "should"; "will"; "can"; "may";
    "might"; "with"; "from"; "by"; "about"; "all"; "but"; "not"; "what"; "when";
    "where"; "who"; "how"; "why"; "which"; "podcast"; "show"; "episode";
    "episodes"; "season"; "seasons"; "listen"; "listening"; "host"; "hosts";
    "guest"; "guests"; "talk"; "talks" ]%string.

(** [.replace(/<[^>]*>/g, ' ')].  A match starts at a [<] that has a [>]
    somewhere after it and runs to the first such [>]; [inTag] is true
    while the scan is inside a match. *)
Fixpoint replaceTags (inTag : bool) (s : string) : string :=
  match s with
  | EmptyString => EmptyString
  | String c r =>
      if inTag then
        if Ascii.eqb c ">" then String " " (replaceTags false r)
        else replaceTags true r
      else if Ascii.eqb c "<" && contains ">" r then replaceTags true r
      else String c (replaceTags false r)
  end.

(** [.replace(/[^\w\s]/g, ' ')] *)
Fixpoint replaceSpecial (s : string) : string :=
  match s with
  | EmptyString => EmptyString
  | String c r =>
      String (if isWordChar c || isWhiteSpace c then c else " "%char)
             (replaceSpecial r)
  end.

(** [.replace(/\s+/g, ' ')]: [inRun] is true after a white-space character. *)
Fixpoint collapseSpaces (inRun : bool) (s : string) : string :=
  match s with
  | EmptyString => EmptyString
  | String c r =>
      if isWhiteSpace c
      then (if inRun then collapseSpaces true r
            else String " " (collapseSpaces true r))
      else String c (collapseSpaces false r)
  end.

Definition preprocessText (text : string) : string :=
  if isEmpty text then EmptyString
  else trim (collapseSpaces false
               (replaceSpecial (replaceTags false (toLowerCase text)))).

Section Libraries.

(** The word list of the [stopword] package. *)
Variable stopwords : list string.

(** Modelled from the spec: [stopword.removeStopwords], which "removes a
    standard stop-word list" and keeps the order of the other tokens. *)
Definition removeStopwords (tokens : list string) : list string :=
  filter (fun t => negb (includes (toLowerCase t) stopwords)) tokens.

Definition filterTokens (tokens : list string) : list string :=
  match tokens with
  | [] => []
  | _ =>
      filter (fun token =>
                (3 <? String.length token)
                && negb (includes token commonWords)
                && isNaN token)
             (removeStopwords tokens)
  end.

(** [natural]'s [WordTokenizer.tokenize] and, for a document holding the
    one text given, [TfIdf.listTerms(0)] as (term, tfidf) pairs. *)
Variable tokenize : string -> list string.
Variable listTerms : string -> list (string * float).

Definition extractTopics (text : string) (numTopics : nat) : list Topic :=
  if isEmpty (trim text) then []
  else
    let processed := preprocessText text in
    let tokens := tokenize processed in
    let significantTokens := filterTokens tokens in
    let topics :=
      map (fun item => {| term := fst item; score := snd item |})
          (filter (fun item => 2 <? String.length (fst item))
                  (listTerms (join " " significantTokens))) in
    Js.slice0 numTopics topics.

Definition extractKeywords (text : string) (limit : nat) : list string :=
  if isEmpty text then []
  else
    let processed := preprocessText text in
    let words := split " " processed in
    let filteredWords := filterTokens words in
    let wordFreq := fold_left Js.bump filteredWords [] in
    map fst
        (Js.slice0 limit
           (Js.Array_sort
              (fun a b => PrimFloat.sub (Js.toNumber (snd b)) (Js.toNumber (snd a)))
              (Js.Object_entries wordFreq))).

(** [podcast.genre_ids || []] *)
Definition genresOf (podcast : Podcast) : list Z :=
  match genre_ids podcast with
  | Some g => g
  | None => []
  end.

(** The double quotation mark. *)
Definition quote : string := String "034" EmptyString.

(** [generateMatchReason(candidate, mostSimilarPodcast, matchScore,
    topicSimilarity)].  [new Set(...)] iterates over [genre_ids], which is
    an array here; for a value that cannot be iterated it throws. *)
Definition generateMatchReason (candidate mostSimilarPodcast : Podcast)
  (matchScore topicSimilarity : float) : string :=
  match title mostSimilarPodcast with
  | None | Some EmptyString =>
      String.concat EmptyString
        [ "Match score: "%string;
          Js.Number_toString (Js.Math_round (PrimFloat.mul matchScore 100));
          "%. This podcast matches your listening preferences."%string ]
  | Some mostSimilarTitle =>
      let candidateGenres := Js.uniqueBy Z.eqb [] (genresOf candidate) in
      let favoriteGenres := genresOf mostSimilarPodcast in
      let commonGenres :=
        filter (fun g => existsb (Z.eqb g) favoriteGenres) candidateGenres in
      let candidateKeywords :=
        extractKeywords (Js.orEmpty (description candidate)) 10 in
      let favoriteKeywords :=
        extractKeywords (Js.orEmpty (description mostSimilarPodcast)) 10 in
      let commonKeywords :=
        filter (fun k => includes k favoriteKeywords) candidateKeywords in
      String.concat EmptyString
        [ "Similar to "%string; quote; mostSimilarTitle; quote; ". "%string;
          match commonGenres with
          | [] => EmptyString
          | _ => "Shares the same genre. "%string
          end;
          match commonKeywords with
          | [] => EmptyString
          | _ =>
              String.concat EmptyString
                [ "Discusses similar topics like "%string;
                  join ", "%string (Js.slice0 3 commonKeywords); ". "%string ]
          end;
          if PrimFloat.ltb 0.4 topicSimilarity
          then "Strong thematic similarity in content. "%string
          else if PrimFloat.ltb 0.2 topicSimilarity
          then "Some thematic overlap in content. "%string
          else EmptyString;
          if PrimFloat.ltb 0.85 matchScore
          then "Very strong content match."%string
          else if PrimFloat.ltb 0.7 matchScore
          then "Strong content match."%string
          else if PrimFloat.ltb 0.5 matchScore
          then "Moderate content similarity."%string
          else "Some content similarities."%string ]
  end.

End Libraries.

End TextProcessing.

(* ===================================================================== *)
(** * utils/similarity.js *)
(* ===================================================================== *)

Module Similarity.

Local Open Scope float_scope.

Definition TITLE : float := 2.0.
Definition DESCRIPTION : float := 3.0.
Definition PUBLISHER : float := 0.5.
Definition TOPIC_MATCH : float := 1.5.

(** [new Array(n).fill(0)] *)
Definition zeroVector (n : nat) : list float := repeat 0 n.

(** The process-wide [embeddingCache]: a [Map] from text prefix to vector. *)
Definition cache := list (string * list float).

Fixpoint cacheGet (k : string) (c : cache) : option (list float) :=
  match c with
  | [] => None
  | (k', v) :: r => if String.eqb k k' then Some v else cacheGet k r
  end.

Definition cacheSet (k : string) (v : list float) (c : cache) : cache :=
  (k, v) :: c.

Section Provider.

(** The answer of [hf.featureExtraction] for an input text: [Some v] when
    it answers with the array [v], [None] when the call fails or answers
    with something that is not an array. *)
Variable featureExtraction : string -> option (list float).

(** [generateEmbedding(text)], reading the cache [c].  The result is the
    vector and, when the provider was asked and answered, the entry to
    write to the cache. *)
Definition generateEmbedding (c : cache) (text : string)
  : list float * option (string * list float) :=
  if JsString.isEmpty text then (zeroVector 384, None)
  else
    let cacheKey := String.substring 0 100 text in
    match cacheGet cacheKey c with
    | Some v => (v, None)
    | None =>
        match featureExtraction (String.substring 0 8000 text) with
        | Some (x :: v) => (x :: v, Some (cacheKey, x :: v))
        | _ => (zeroVector 384, None)
        end
    end.

(** [await Promise.all(texts.map(async t => ... await generateEmbedding(t)))]:
    every call looks the cache up before any answer arrives, and the
    answers are written afterwards.  This is the round in which the
    answers arrive in the order of the calls and nothing else writes to the
    cache meanwhile; [CacheRound] below has the other orders and the
    writes of other requests. *)
Definition generateEmbeddings (c : cache) (texts : list string)
  : list (list float) * cache :=
  let results := map (generateEmbedding c) texts in
  (map fst results,
   fold_left (fun acc r => match snd r with
                           | Some (k, v) => cacheSet k v acc
                           | None => acc
                           end) results c).

End Provider.

(** [vec.reduce((sum, a, i) => sum + a * vec2[i], 0)] for two arrays of
    the same length. *)
Definition dotProduct (vec1 vec2 : list float) : float :=
  fold_left (fun sum p => sum + fst p * snd p) (combine vec1 vec2) 0.

Definition sumSquares (vec : list float) : float :=
  fold_left (fun sum a => sum + a * a) vec 0.

Definition calculateCosineSimilarity (vec1 vec2 : list float) : float :=
  if (List.length vec1 =? 0)%nat || (List.length vec2 =? 0)%nat
     || negb (List.length vec1 =? List.length vec2)%nat
  then 0
  else
    let dotProduct := dotProduct vec1 vec2 in
    let magnitudeA := PrimFloat.sqrt (sumSquares vec1) in
    let magnitudeB := PrimFloat.sqrt (sumSquares vec2) in
    if (magnitudeA =? 0) || (magnitudeB =? 0) then 0
    else dotProduct / (magnitudeA * magnitudeB).

(** [new Map(topics.map(t => [t.term, t.score]))]: a term keeps the place of
    its first entry and the score of its last. *)
Fixpoint mapSet (k : string) (v : float) (m : list (string * float))
  : list (string * float) :=
  match m with
  | [] => [(k, v)]
  | (k', v') :: r =>
      if String.eqb k k' then (k', v) :: r else (k', v') :: mapSet k v r
  end.

Definition topicMap (topics : list Topic) : list (string * float) :=
  fold_left (fun m t => mapSet (term t) (score t) m) topics [].

Fixpoint mapGet (k : string) (m : list (string * float)) : option float :=
  match m with
  | [] => None
  | (k', v) :: r => if String.eqb k k' then Some v else mapGet k r
  end.

(** The [for (const [term, scoreA] of topicMapA.entries())] loop: the state
    is [(matchScore, totalPossibleScore)]. *)
Definition topicStep (topicMapB : list (string * float))
  (st : float * float) (entry : string * float) : float * float :=
  let '(matchScore, totalPossibleScore) := st in
  let totalPossibleScore := totalPossibleScore + snd entry in
  match mapGet (fst entry) topicMapB with
  | Some scoreB => (matchScore + Js.Math_min (snd entry) scoreB, totalPossibleScore)
  | None => (matchScore, totalPossibleScore)
  end.

Definition calculateTopicSimilarity (topicsA topicsB : list Topic) : float :=
  match topicsA, topicsB with
  | [], _ | _, [] => 0
  | _, _ =>
      let topicMapA := topicMap topicsA in
      let topicMapB := topicMap topicsB in
      let '(matchScore, totalPossibleScore) :=
        fold_left (topicStep topicMapB) topicMapA (0, 0) in
      if 0 <? totalPossibleScore then matchScore / totalPossibleScore else 0
  end.

(** [`${title} ${title} ${description} ${description} ${description} ${publisher}`] *)
Definition createWeightedText (podcast : Podcast) : string :=
  let title := Js.orEmpty (Js.orElse (title podcast) (title_original podcast)) in
  let description :=
    Js.orEmpty (Js.orElse (description podcast) (description_original podcast)) in
  let publisher :=
    Js.orEmpty (Js.orElse (publisher podcast) (publisher_original podcast)) in
  JsString.join " " [title; title; description; description; description; publisher].

End Similarity.

(* ===================================================================== *)
(** * utils/search-util.js *)
(* ===================================================================== *)

Module SearchUtil.

Import JsString.

(** The parameters of one catalog search. *)
Record Query := {
  q : string;
  type : string;
  sort_by_date : nat;
  page_size : nat;
  only_in : string;
  safe_mode : nat
}.

Definition mkQuery (text : string) : Query :=
  {| q := text; type := "podcast"; sort_by_date := 0; page_size := 20;
     only_in := "description"; safe_mode := 0 |}.

(** [JSON.stringify(a) === JSON.stringify(b)] *)
Definition sameQuery (a b : Query) : bool :=
  String.eqb (q a) (q b) && String.eqb (type a) (type b)
  && (sort_by_date a =? sort_by_date b) && (page_size a =? page_size b)
  && String.eqb (only_in a) (only_in b) && (safe_mode a =? safe_mode b).

Definition removeDuplicateQueries (queries : list Query) : list Query :=
  Js.uniqueBy sameQuery [] queries.

(** [p.description || p.description_original || ''] *)
Definition descriptionOf (p : Podcast) : string :=
  Js.orEmpty (Js.orElse (description p) (description_original p)).

(** [podcasts.map(p => p.publisher || p.publisher_original).filter(Boolean)] *)
Definition publishersOf (podcasts : list Podcast) : list string :=
  flat_map (fun p => match Js.orElse (publisher p) (publisher_original p) with
                     | Some (String c r) => [String c r]
                     | _ => []
                     end) podcasts.

Section Libraries.

Variable stopwords : list string.
Variable tokenize : string -> list string.
Variable listTerms : string -> list (string * float).

Definition extractThemesFromPodcasts (podcasts : list Podcast) : list string :=
  let allTopics :=
    flat_map (fun podcast =>
                map term
                    (TextProcessing.extractTopics stopwords tokenize listTerms
                       (descriptionOf podcast) 10))
             podcasts in
  let topicFrequency := fold_left Js.bump allTopics [] in
  map fst
      (Js.slice0 3
         (Js.Array_sort
            (fun a b => PrimFloat.sub (Js.toNumber (snd b)) (Js.toNumber (snd a)))
            (filter (fun e => PrimFloat.ltb 1 (Js.toNumber (snd e)))
                    (Js.Object_entries topicFrequency)))).

(** The words of the favorites' publisher names, lowercased: the set
    [publishersToFilter]. *)
Definition publishersToFilter (podcasts : list Podcast) : list string :=
  flat_map (fun p => splitWhiteSpace (toLowerCase p)) (publishersOf podcasts).

(** STRATEGY 2: the keywords that survive the filter. *)
Definition keywordsOf (podcasts : list Podcast) : list string :=
  let descriptionTexts := join " " (map descriptionOf podcasts) in
  filter (fun kw =>
            negb (isEmpty kw) && (3 <? String.length kw)
            && negb (includes (toLowerCase kw) (publishersToFilter podcasts)))
         (TextProcessing.extractKeywords stopwords descriptionTexts 10).

Definition generateDiverseQueries (podcasts : list Podcast) : list Query :=
  match podcasts with
  | [] => []
  | _ =>
      let themes := extractThemesFromPodcasts podcasts in
      let keywords := keywordsOf podcasts in
      let allQueries :=
        (match themes with
         | theme0 :: _ => [mkQuery theme0]
         | [] => []
         end)
        ++ (match keywords with
            | keyword0 :: _ => [mkQuery keyword0]
            | [] => []
            end)
        ++ (match themes with
            | _ :: theme1 :: _ => [mkQuery theme1]
            | _ => []
            end) in
      removeDuplicateQueries allQueries
  end.

End Libraries.

End SearchUtil.

(* ===================================================================== *)
(** * services/recommendations *)
(* ===================================================================== *)

(** [{favoriteId, favoritePodcast, semanticScore, topicScore, score}] *)
Module Item.
Record t := {
  favoriteId : string;
  favoritePodcast : Podcast;
  semanticScore : float;
  topicScore : float;
  score : float
}.
End Item.

(** What [rankCandidates] returns for one candidate. *)
Module Ranked.
Record t := {
  podcast : Podcast;
  similarityScore : float;
  mostSimilarPodcastId : string;
  mostSimilarPodcast : Podcast;
  semanticScore : float;
  topicScore : float;
  matchScore : float
}.
End Ranked.

(** What [generateRecommendations] emits for one candidate. *)
Module Recommendation.
Record t := {
  podcast : Podcast;
  similarity_score : float;
  semantic_score : float;
  topic_score : float;
  reason : string;
  most_similar_to : string
}.
End Recommendation.

(** How an [async] function ends. *)
Inductive completion (A : Type) : Type :=
| Returned (a : A)
| Thrown.
Arguments Returned {A} a.
Arguments Thrown {A}.

Module Recommendations.

Local Open Scope float_scope.

(** [{podcast, embedding, topics}] *)
Record FavoriteEmbedding := {
  podcast : Podcast;
  embedding : list float;
  topics : list Topic
}.

(** [try { body } catch (error) { return handler }] *)
Definition tryCatch {A : Type} (body : completion A) (handler : A) : completion A :=
  match body with
  | Returned a => Returned a
  | Thrown => Returned handler
  end.

(** An array whose entries may be [undefined] or [null]: reading a
    property of such an entry throws. *)
Fixpoint dereference {A : Type} (l : list (option A)) : completion (list A) :=
  match l with
  | [] => Returned []
  | None :: _ => Thrown
  | Some x :: r =>
      match dereference r with
      | Returned r' => Returned (x :: r')
      | Thrown => Thrown
      end
  end.

(** The [for (const podcast of candidates)] loop of [getCandidatePodcasts];
    the state is [(uniqueCandidates, seenIds)]. *)
Definition dedupeStep (favoriteIds : list string)
  (st : list Podcast * list string) (podcast : Podcast)
  : list Podcast * list string :=
  let '(uniqueCandidates, seenIds) := st in
  if negb (JsString.includes (id podcast) seenIds)
     && negb (JsString.includes (id podcast) favoriteIds)
  then (uniqueCandidates ++ [podcast], id podcast :: seenIds)
  else st.

Definition uniqueCandidatesOf (favoriteIds : list string) (candidates : list Podcast)
  : list Podcast :=
  fst (fold_left (dedupeStep favoriteIds) candidates ([], [])).

Section Services.

Variable stopwords : list string.
Variable tokenize : string -> list string.
Variable listTerms : string -> list (string * float).
Variable featureExtraction : string -> option (list float).

(** The catalog behind [apiClient.get]: the [podcasts] of a
    [best_podcasts] answer for a genre and the [results] of a [search]
    answer; [None] when the call fails or the answer has no such field. *)
Variable best_podcasts : Z -> option (list Podcast).
Variable search : SearchUtil.Query -> option (list Podcast).

(** [fetchSafely]: the candidates after the call. *)
Definition fetchSafely (answer : option (list Podcast)) (candidates : list Podcast)
  : list Podcast :=
  match answer with
  | Some (r :: results) => candidates ++ r :: results
  | _ => candidates
  end.

Definition getCandidatePodcasts (favoritePodcasts : list Podcast) : list Podcast :=
  match favoritePodcasts with
  | [] => []
  | _ =>
      let genres :=
        Js.uniqueBy Z.eqb []
          (flat_map (fun p => match genre_ids p with
                              | Some g => g
                              | None => []
                              end) favoritePodcasts) in
      let favoriteIds := map id favoritePodcasts in
      let genresToProcess := Js.slice0 2 genres in
      let candidates :=
        fold_left (fun acc genreId => fetchSafely (best_podcasts genreId) acc)
                  genresToProcess [] in
      let diverseQueries :=
        SearchUtil.generateDiverseQueries stopwords tokenize listTerms
          favoritePodcasts in
      let candidates :=
        fold_left
          (fun acc queryParams =>
             let modifiedParams :=
               {| SearchUtil.q := SearchUtil.q queryParams;
                  SearchUtil.type := SearchUtil.type queryParams;
                  SearchUtil.sort_by_date := SearchUtil.sort_by_date queryParams;
                  SearchUtil.page_size := SearchUtil.page_size queryParams;
                  SearchUtil.only_in := "description";
                  SearchUtil.safe_mode := SearchUtil.safe_mode queryParams |} in
             fetchSafely (search modifiedParams) acc)
          diverseQueries candidates in
      uniqueCandidatesOf favoriteIds candidates
  end.

(** [weightedText || 'podcast content'] *)
Definition embeddingText (p : Podcast) : string :=
  match Similarity.createWeightedText p with
  | EmptyString => "podcast content"%string
  | weightedText => weightedText
  end.

Definition topicsOf (p : Podcast) : list Topic :=
  TextProcessing.extractTopics stopwords tokenize listTerms
    (SearchUtil.descriptionOf p) 15.

(** The body of [favoritePodcasts.map(async podcast => ...)], reading the
    cache [c]. *)
Definition favoriteEmbeddingOf (c : Similarity.cache) (p : Podcast)
  : FavoriteEmbedding :=
  {| podcast := p;
     embedding :=
       fst (Similarity.generateEmbedding featureExtraction c (embeddingText p));
     topics := topicsOf p |}.

Definition favoriteEmbeddingsOf (c : Similarity.cache) (favoritePodcasts : list Podcast)
  : list FavoriteEmbedding :=
  map (favoriteEmbeddingOf c) favoritePodcasts.

(** The cache once the favorites' answers are written. *)
Definition cacheAfterFavorites (c : Similarity.cache) (favoritePodcasts : list Podcast)
  : Similarity.cache :=
  snd (Similarity.generateEmbeddings featureExtraction c
         (map embeddingText favoritePodcasts)).

Definition candidateEmbeddingOf (c : Similarity.cache) (candidate : Podcast)
  : list float :=
  fst (Similarity.generateEmbedding featureExtraction c (embeddingText candidate)).

(** The body of [favoriteEmbeddings.map(fav => ...)]. *)
Definition similarityTo (candidateEmbedding : list float)
  (candidateTopics : list Topic) (fav : FavoriteEmbedding) : Item.t :=
  let semanticScore :=
    Similarity.calculateCosineSimilarity (embedding fav) candidateEmbedding in
  let topicScore :=
    Similarity.calculateTopicSimilarity (topics fav) candidateTopics in
  let combinedScore :=
    (semanticScore * 0.7) + (topicScore * Similarity.TOPIC_MATCH * 0.3) in
  {| Item.favoriteId := id (podcast fav);
     Item.favoritePodcast := podcast fav;
     Item.semanticScore := semanticScore;
     Item.topicScore := topicScore;
     Item.score := combinedScore |}.

(** [similarities.length] as a number. *)
Definition lengthOf {A : Type} (l : list A) : float :=
  PrimFloat.of_uint63 (Uint63.of_Z (Z.of_nat (List.length l))).

Definition avgSimilarityOf (similarities : list Item.t) : float :=
  fold_left (fun sum item => sum + Item.score item) similarities 0
  / lengthOf similarities.

(** [similarities.reduce((max, item) => item.score > max.score ? item : max,
    similarities[0])] *)
Definition mostSimilarOf (similarities : list Item.t) (first : Item.t) : Item.t :=
  fold_left (fun max item => if Item.score max <? Item.score item then item else max)
            similarities first.

(** The body of [candidatePodcasts.map(async candidate => ...)], for the
    favorites [fav0 :: favs]. *)
Definition scoreCandidate (c : Similarity.cache)
  (fav0 : FavoriteEmbedding) (favs : list FavoriteEmbedding)
  (candidate : Podcast) : Ranked.t :=
  let candidateEmbedding := candidateEmbeddingOf c candidate in
  let candidateTopics := topicsOf candidate in
  let similarities :=
    map (similarityTo candidateEmbedding candidateTopics) (fav0 :: favs) in
  let avgSimilarity := avgSimilarityOf similarities in
  let mostSimilar :=
    mostSimilarOf similarities (similarityTo candidateEmbedding candidateTopics fav0) in
  {| Ranked.podcast := candidate;
     Ranked.similarityScore := avgSimilarity;
     Ranked.mostSimilarPodcastId := Item.favoriteId mostSimilar;
     Ranked.mostSimilarPodcast := Item.favoritePodcast mostSimilar;
     Ranked.semanticScore := Item.semanticScore mostSimilar;
     Ranked.topicScore := Item.topicScore mostSimilar;
     Ranked.matchScore := Item.score mostSimilar |}.

(** [rankCandidates], started with the embedding cache [c].  The
    candidates read the cache as the favorites' answers left it, in the
    round that [Similarity.generateEmbeddings] describes. *)
Definition rankCandidates (c : Similarity.cache)
  (favoritePodcasts candidatePodcasts : list Podcast) : list Ranked.t :=
  match favoritePodcasts, candidatePodcasts with
  | [], _ | _, [] => []
  | _, _ =>
      let c' := cacheAfterFavorites c favoritePodcasts in
      match favoriteEmbeddingsOf c favoritePodcasts with
      | [] => []
      | fav0 :: favs =>
          let rankedCandidates := map (scoreCandidate c' fav0 favs) candidatePodcasts in
          Js.Array_sort
            (fun a b => Ranked.similarityScore b - Ranked.similarityScore a)
            rankedCandidates
      end
  end.

(** The [similarities] array that a ranking pass started with the cache
    [c] builds for one candidate: one entry per favorite, in order. *)
Definition similaritiesOf (c : Similarity.cache)
  (favoritePodcasts : list Podcast) (candidate : Podcast) : list Item.t :=
  map (similarityTo
         (candidateEmbeddingOf (cacheAfterFavorites c favoritePodcasts) candidate)
         (topicsOf candidate))
      (favoriteEmbeddingsOf c favoritePodcasts).

(** The body of [rankedCandidates.map(candidate => ...)]; both tested
    fields are objects, so the [null] branch is not taken, and
    [generateMatchReason], which is given the semantic score as its match
    score, returns a text for every podcast of the data model. *)
Definition recommend (candidate : Ranked.t) : option Recommendation.t :=
  Some {| Recommendation.podcast := Ranked.podcast candidate;
          Recommendation.similarity_score := Ranked.matchScore candidate;
          Recommendation.semantic_score := Ranked.semanticScore candidate;
          Recommendation.topic_score := Ranked.topicScore candidate;
          Recommendation.reason :=
            TextProcessing.generateMatchReason stopwords
              (Ranked.podcast candidate) (Ranked.mostSimilarPodcast candidate)
              (Ranked.semanticScore candidate) (Ranked.topicScore candidate);
          Recommendation.most_similar_to := Ranked.mostSimilarPodcastId candidate |}.

(** [.filter(Boolean)] after [.map(recommend)] *)
Definition recommendationsOf (rankedCandidates : list Ranked.t)
  : list Recommendation.t :=
  flat_map (fun candidate => match recommend candidate with
                             | Some r => [r]
                             | None => []
                             end) rankedCandidates.

(** [generateRecommendations(favorites, candidates)]; an argument that is
    [undefined] or [null] is [None]. *)
Definition generateRecommendations (c : Similarity.cache)
  (favorites candidates : option (list (option Podcast)))
  : completion (list Recommendation.t) :=
  match favorites, candidates with
  | None, _ | Some [], _ | _, None | _, Some [] => Returned []
  | Some favorites, Some candidates =>
      tryCatch
        (match dereference favorites, dereference candidates with
         | Returned favorites, Returned candidates =>
             match rankCandidates c favorites candidates with
             | [] => Returned []
             | rankedCandidates =>
                 Returned (Js.slice0 10 (recommendationsOf rankedCandidates))
             end
         | _, _ => Thrown
         end)
        []
  end.

End Services.

End Recommendations.

(* ===================================================================== *)
(** * Library stand-ins and concrete scenarios *)
(* ===================================================================== *)

Module Fixture.

Local Open Scope string_scope.

(** Modelled from the spec: the "standard stop-word list" that
    [removeStopwords] uses when it is given no list, here the English one. *)
Definition english : list string :=
  [ "about"; "after"; "all"; "also"; "am"; "an"; "and"; "another"; "any"; "are";
    "as"; "at"; "be"; "because"; "been"; "before"; "being"; "between"; "both";
    "but"; "by"; "came"; "can"; "come"; "could"; "did"; "do"; "each"; "for";
    "from"; "get"; "got"; "has"; "had"; "he"; "have"; "her"; "here"; "him";
    "himself"; "his"; "how"; "if"; "in"; "into"; "is"; "it"; "like"; "make";
    "many"; "me"; "might"; "more"; "most"; "much"; "must"; "my"; "never"; "now";
    "of"; "on"; "only"; "or"; "other"; "our"; "out"; "over"; "said"; "same";
    "see"; "should"; "since"; "some"; "still"; "such"; "take"; "than"; "that";
    "the"; "their"; "them"; "then"; "there"; "these"; "they"; "this"; "those";
    "through"; "to"; "too"; "under"; "up"; "very"; "was"; "way"; "we"; "well";
    "were"; "what"; "where"; "which"; "while"; "who"; "with"; "would"; "you";
    "your"; "a"; "i" ].

(** A tokenizer that cuts a preprocessed text at its spaces. *)
Definition tokenize (text : string) : list string :=
  filter (fun w => negb (JsString.isEmpty w)) (JsString.split " " text).

(** A single-document TF-IDF: every term of the document once, weighted by
    its number of occurrences. *)
Definition listTerms (document : string) : list (string * float) :=
  map (fun e => (fst e, PrimFloat.mul (Js.toNumber (snd e)) 0.3068528194400547%float))
      (Js.Array_sort
         (fun a b => PrimFloat.sub (Js.toNumber (snd b)) (Js.toNumber (snd a)))
         (fold_left Js.bump (tokenize document) [])).

Definition podcastTitled (i t : string) : Podcast :=
  {| id := i; title := Some t; title_original := None;
     description := None; description_original := None;
     publisher := None; publisher_original := None; genre_ids := None |}.

(** An embedding provider that knows four texts. *)
Definition compass (text : string) : option (list float) :=
  if String.eqb text "north north    " then Some [1; 0]%float
  else if String.eqb text "east east    " then Some [0; 1]%float
  else if String.eqb text "polar polar    " then Some [1; 0]%float
  else if String.eqb text "diagonal diagonal    " then Some [1; 1]%float
  else None.

Definition twoFavorites : list Podcast :=
  [podcastTitled "f1" "north"; podcastTitled "f2" "east"].

Definition twoCandidates : list Podcast :=
  [podcastTitled "x" "polar"; podcastTitled "y" "diagonal"].

Definition ranked : list Ranked.t :=
  Recommendations.rankCandidates english tokenize listTerms compass []
    twoFavorites twoCandidates.

(** The ranked record of the candidate "diagonal", whose embedding is as
    close to the first favorite as to the second. *)
Definition diagonalRanked : Ranked.t :=
  Recommendations.scoreCandidate english tokenize listTerms compass
    (Recommendations.cacheAfterFavorites compass [] twoFavorites)
    (Recommendations.favoriteEmbeddingOf english tokenize listTerms compass []
       (podcastTitled "f1" "north"))
    (Recommendations.favoriteEmbeddingsOf english tokenize listTerms compass []
       [podcastTitled "f2" "east"])
    (podcastTitled "y" "diagonal").

(** One favorite whose publisher name has two words. *)
Definition dailyTimes : Podcast :=
  {| id := "p1"; title := Some "Morning"; title_original := None;
     description := Some "Times times times apple apple";
     description_original := None;
     publisher := Some "Daily Times"; publisher_original := None;
     genre_ids := None |}.

(** An embedding provider whose answers for "huge" and "large" have
    entries too large to be squared. *)
Definition vast (text : string) : option (list float) :=
  if String.eqb text "huge huge    " then Some [1e200]%float
  else if String.eqb text "unit unit    " then Some [1]%float
  else if String.eqb text "large large    " then Some [1e200]%float
  else None.

Definition hugeAndUnit : list Podcast :=
  [podcastTitled "f1" "huge"; podcastTitled "f2" "unit"].

Definition largeCandidate : list Podcast := [podcastTitled "x" "large"].

(** Two texts that differ after their first 100 characters, and a provider
    that answers differently for them. *)
Definition sharedStart : string :=
  String.concat EmptyString (List.repeat "0123456789" 10).

Definition firstText : string := sharedStart ++ " first".

Definition secondText : string := sharedStart ++ " second".

Definition twins (text : string) : option (list float) :=
  if String.eqb text firstText then Some [1; 0]%float
  else if String.eqb text secondText then Some [0; 1]%float
  else None.

End Fixture.

(* ===================================================================== *)
(** * The specification's wording, for comparison with the code *)
(* ===================================================================== *)

Module Claimed.

Import JsString.

(** The keyword filter as the specification words it: a keyword goes when
    it has at most 3 characters or equals, case-insensitively, the
    publisher name of a favorite. *)
Definition keywordsOf (stopwords : list string) (podcasts : list Podcast)
  : list string :=
  let descriptionTexts := join " " (map SearchUtil.descriptionOf podcasts) in
  filter (fun kw =>
            (3 <? String.length kw)
            && negb (existsb (fun p => String.eqb (toLowerCase kw) (toLowerCase p))
                             (SearchUtil.publishersOf podcasts)))
         (TextProcessing.extractKeywords stopwords descriptionTexts 10).

(** The sum, over the terms of A that B has too, of the smaller score. *)
Definition matchedMass (topicMapA topicMapB : list (string * float)) : float :=
  fold_left (fun sum entry =>
               match Similarity.mapGet (fst entry) topicMapB with
               | Some scoreB => PrimFloat.add sum (Js.Math_min (snd entry) scoreB)
               | None => sum
               end) topicMapA 0%float.

(** The sum of all of A's scores. *)
Definition totalMass (topicMapA : list (string * float)) : float :=
  fold_left (fun sum entry => PrimFloat.add sum (snd entry)) topicMapA 0%float.

(** Topic similarity as the specification words it: 0 if a list is empty,
    else the matched mass divided by the total mass. *)
Definition topicSimilarity (topicsA topicsB : list Topic) : float :=
  match topicsA, topicsB with
  | [], _ | _, [] => 0%float
  | _, _ =>
      PrimFloat.div
        (matchedMass (Similarity.topicMap topicsA) (Similarity.topicMap topicsB))
        (totalMass (Similarity.topicMap topicsA))
  end.

End Claimed.

(* ===================================================================== *)
(** * The order of binary64 numbers *)
(* ===================================================================== *)

(** Comparison of two numbers that are not NaN is comparison of their keys:
    a triple of integers, ordered lexicographically. *)
Module FloatOrder.

Local Open Scope Z_scope.

Definition key3 := (Z * Z * Z)%type.

Definition rank (f : spec_float) : option key3 :=
  match f with
  | S754_nan => None
  | S754_infinity true => Some (-2, 0, 0)
  | S754_infinity false => Some (2, 0, 0)
  | S754_zero _ => Some (0, 0, 0)
  | S754_finite true m e => Some (-1, - e, - Zpos m)
  | S754_finite false m e => Some (1, e, Zpos m)
  end.

Definition key (x : float) : option key3 := rank (Prim2SF x).

Definition lexCompare (a b : key3) : comparison :=
  let '(a1, a2, a3) := a in
  let '(b1, b2, b3) := b in
  match a1 ?= b1 with
  | Eq => match a2 ?= b2 with
          | Eq => a3 ?= b3
          | c => c
          end
  | c => c
  end.

Definition lexLt (a b : key3) : Prop :=
  let '(a1, a2, a3) := a in
  let '(b1, b2, b3) := b in
  a1 < b1 \/ (a1 = b1 /\ (a2 < b2 \/ (a2 = b2 /\ a3 < b3))).

Definition lexLe (a b : key3) : Prop := lexLt a b \/ a = b.

(** A number above zero: positive and finite, or plus infinity. *)
Definition isPositive (f : spec_float) : bool :=
  match f with
  | S754_finite false _ _ | S754_infinity false => true
  | _ => false
  end.

End FloatOrder.

(* ===================================================================== *)
(** * Vocabulary of the statements and of their proofs *)
(* ===================================================================== *)

(** The shape of a preprocessed text. *)
Module TextShape.

Import JsString.

(** A lowercase letter, a digit or an underscore: what a word character is
    after lowercasing. *)
Definition isLowerWord (c : ascii) : bool :=
  isLower c || isDigit c || (code c =? 95).

Definition isSpace (c : ascii) : bool := Ascii.eqb c " ".

(** Only lowercase word characters and single spaces, and no space after
    a space ([afterSpace] tells that a space has just been read, or that the
    string starts). *)
Fixpoint spaced (afterSpace : bool) (s : string) : bool :=
  match s with
  | EmptyString => true
  | String c r =>
      if isSpace c then negb afterSpace && spaced true r
      else isLowerWord c && spaced false r
  end.

(** The last character, if any, is not white space. *)
Fixpoint endsInWord (s : string) : bool :=
  match s with
  | EmptyString => true
  | String c EmptyString => negb (isWhiteSpace c)
  | String _ r => endsInWord r
  end.

(** What [preprocessText] returns: words of lowercase word characters
    separated by single spaces. *)
Definition normal (s : string) : bool := spaced true s && endsInWord s.

Fixpoint noUpper (s : string) : bool :=
  match s with
  | EmptyString => true
  | String c r => negb (isUpper c) && noUpper r
  end.

End TextShape.

(** Loop invariants and orderings. *)
Module Invariants.

(** What the deduplication loop keeps true of its state. *)
Definition dedupeInv (favoriteIds : list string) (st : list Podcast * list string)
  : Prop :=
  NoDup (map id (fst st))
  /\ (forall p, In p (fst st) -> In (id p) (snd st))
  /\ (forall p, In p (fst st) -> ~ In (id p) favoriteIds).

(** Every element is followed only by elements whose score is not above
    its own. *)
Definition descending {A : Type} (scoreOf : A -> float) (l : list A) : Prop :=
  Sorted.StronglySorted
    (fun a b => PrimFloat.leb (scoreOf b) (scoreOf a) = true) l.

(** One step of the [reduce] that looks for the most similar favorite. *)
Definition keepBest (max item : Item.t) : Item.t :=
  if PrimFloat.ltb (Item.score max) (Item.score item) then item else max.


(** [cur], the element of [pre] at index [k], has a score that is a number,
    and it is the earliest element with the greatest score among those
    whose score is a number. *)
Definition earliestBestNumber (pre : list Item.t) (k : nat) (cur : Item.t) : Prop :=
  nth_error pre k = Some cur
  /\ Js.isNaNf (Item.score cur) = false
  /\ (forall j x, (j < k)%nat -> nth_error pre j = Some x ->
                  Js.isNaNf (Item.score x) = true
                  \/ PrimFloat.ltb (Item.score x) (Item.score cur) = true)
  /\ (forall x, In x pre ->
                Js.isNaNf (Item.score x) = true
                \/ PrimFloat.leb (Item.score x) (Item.score cur) = true).

End Invariants.
(* ===================================================================== *)
(** * services/recommendations: standardizeFavorites *)
(* ===================================================================== *)

Module Favorites.

(** [x || fallback] for a text and a fallback that is not empty. *)
Definition orDefault (x : option string) (fallback : string) : option string :=
  match x with
  | Some (String _ _) => x
  | _ => Some fallback
  end.

(** The body of [favorites.map(podcast => ({...podcast, ...}))]. *)
Definition standardize (podcast : Podcast) : Podcast :=
  {| id := id podcast;
     title :=
       orDefault (Js.orElse (title podcast) (title_original podcast))
                 "Unknown Podcast";
     title_original := title_original podcast;
     description :=
       orDefault (Js.orElse (description podcast) (description_original podcast))
                 "No description available";
     description_original := description_original podcast;
     publisher :=
       orDefault (Js.orElse (publisher podcast) (publisher_original podcast))
                 "Unknown Publisher";
     publisher_original := publisher_original podcast;
     genre_ids := genre_ids podcast |}.

(** [standardizeFavorites(favorites)]; an argument that is not an array is
    [None], and an entry that is [undefined] or [null] is [None]: reading
    its [title] throws. *)
Definition standardizeFavorites (favorites : option (list (option Podcast)))
  : completion (list Podcast) :=
  match favorites with
  | None | Some [] => Returned []
  | Some favorites =>
      match Recommendations.dereference favorites with
      | Returned favorites => Returned (map standardize favorites)
      | Thrown => Thrown
      end
  end.

End Favorites.

(* ===================================================================== *)
(** * routes/recommendation.routes.js *)
(* ===================================================================== *)

Module Routes.

(** What the handler of [POST /] does with the request: it answers with a
    status and a JSON body [{message, recommendations}], or hands an error
    to [next]. *)
Inductive response :=
| Json (status : nat) (message : option string)
       (recommendations : list Recommendation.t)
| Next.

Section Services.

Variable stopwords : list string.
Variable tokenize : string -> list string.
Variable listTerms : string -> list (string * float).
Variable featureExtraction : string -> option (list float).
Variable best_podcasts : Z -> option (list Podcast).
Variable search : SearchUtil.Query -> option (list Podcast).

(** The handler, for the [favorites] of the request body and the embedding
    cache [c] of the process. *)
Definition postRecommendations (c : Similarity.cache)
  (favorites : option (list (option Podcast))) : response :=
  match favorites with
  | None | Some [] =>
      Json 400 (Some "Favorites list is required and must be an array"%string) []
  | Some _ =>
      match Favorites.standardizeFavorites favorites with
      | Thrown => Next
      | Returned standardizedFavorites =>
          match Recommendations.getCandidatePodcasts stopwords tokenize listTerms
                  best_podcasts search standardizedFavorites with
          | [] =>
              Json 404
                (Some "No potential recommendations found. Try adding more diverse podcasts to your favorites."%string)
                []
          | candidates =>
              match Recommendations.generateRecommendations stopwords tokenize
                      listTerms featureExtraction c
                      (Some (map Some standardizedFavorites))
                      (Some (map Some candidates)) with
              | Thrown => Next
              | Returned [] =>
                  Json 404
                    (Some "Could not generate meaningful recommendations. Try adding different podcasts to your favorites."%string)
                    []
              | Returned recommendations => Json 200 None recommendations
              end
          end
      end
  end.

End Services.

End Routes.

(** Further scenarios. *)
Module Scenario.

Local Open Scope string_scope.

(** A catalog that has no curated list and answers the search for
    "description" with two podcasts. *)
Definition best_podcasts (genreId : Z) : option (list Podcast) := None.

Definition search (query : SearchUtil.Query) : option (list Podcast) :=
  if String.eqb (SearchUtil.q query) "description"
  then Some Fixture.twoCandidates
  else None.

(** Two topic lists that share no term. *)
Definition topicsA : list Topic :=
  [ {| term := "history"; score := 0.5%float |};
    {| term := "rome"; score := 0.25%float |} ].

Definition topicsB : list Topic :=
  [ {| term := "cooking"; score := 0.75%float |} ].

End Scenario.

(** The embedding cache when the answers of a round of [generateEmbedding]
    calls arrive in any order, and when other requests write to it. *)
Module CacheRound.

(** [text.substring(0, 100)] *)
Definition keyOf (text : string) : string := String.substring 0 100 text.

Section Provider.

Variable featureExtraction : string -> option (list float).

(** What a call that reads the cache [c] writes to it once the provider
    has answered. *)
Definition writeOf (c : Similarity.cache) (text : string)
  : option (string * list float) :=
  snd (Similarity.generateEmbedding featureExtraction c text).

(** The writes of a round of calls that all read the cache [c], in the
    order of the calls. *)
Definition writesOf (c : Similarity.cache) (texts : list string)
  : list (string * list float) :=
  flat_map (fun text => match writeOf c text with
                        | Some w => [w]
                        | None => []
                        end) texts.

End Provider.

(** [embeddingCache.set(key, vector)] for each of [arrived], the first
    first. *)
Definition written (arrived : list (string * list float)) (c : Similarity.cache)
  : Similarity.cache :=
  fold_left (fun acc w => Similarity.cacheSet (fst w) (snd w) acc) arrived c.

(** The vector of the last of [arrived] that has the key [key]. *)
Definition lastFor (key : string) (arrived : list (string * list float))
  : option (list float) :=
  fold_left (fun acc w => if String.eqb key (fst w) then Some (snd w) else acc)
            arrived None.

End CacheRound.

(** The loop variables of [calculateTopicSimilarity] when the loop ends. *)
Module TopicLoop.

Definition finalState (topicsA topicsB : list Topic) : float * float :=
  fold_left (Similarity.topicStep (Similarity.topicMap topicsB))
            (Similarity.topicMap topicsA) (0%float, 0%float).

Definition totalPossibleScore (topicsA topicsB : list Topic) : float :=
  snd (finalState topicsA topicsB).

End TopicLoop.

(** What [getCandidatePodcasts] and [extractThemesFromPodcasts] compute on
    the way. *)
Module Collected.

(** [[...new Set(favoritePodcasts.flatMap(p => p.genre_ids || []))]] *)
Definition genres (favoritePodcasts : list Podcast) : list Z :=
  Js.uniqueBy Z.eqb []
    (flat_map (fun p => match genre_ids p with
                        | Some g => g
                        | None => []
                        end) favoritePodcasts).

(** The array [allTopics] of [extractThemesFromPodcasts]. *)
Definition allTopics (stopwords : list string) (tokenize : string -> list string)
  (listTerms : string -> list (string * float)) (podcasts : list Podcast)
  : list string :=
  flat_map (fun podcast =>
              map term
                  (TextProcessing.extractTopics stopwords tokenize listTerms
                     (SearchUtil.descriptionOf podcast) 10))
           podcasts.

End Collected.

(** Orders of appearance. *)
Module Orders.

(** [a] stands before an occurrence of [b] in [l]. *)
Definition before {A : Type} (l : list A) (a b : A) : Prop :=
  exists l1 l2, l = l1 ++ a :: l2 /\ In b l2.

(** The first [a] of [l] stands before the first [b]. *)
Definition firstBefore (l : list string) (a b : string) : Prop :=
  exists pre post,
    l = pre ++ a :: post /\ ~ In a pre /\ ~ In b pre /\ a <> b /\ In b post.

(** [a] may stand before [b] in the result of a stable sort of [l] by
    descending score. *)
Definition stableDescending {A : Type} (scoreOf : A -> float) (l : list A) (a b : A)
  : Prop :=
  PrimFloat.leb (scoreOf b) (scoreOf a) = true
  /\ (PrimFloat.ltb (scoreOf b) (scoreOf a) = true \/ before l a b).

End Orders.
(* ===================================================================== *)
(** * server.js and utils/env-validator.js: starting the server *)
(* ===================================================================== *)

Module Server.

(** [process.env]: a variable that is set holds a text. *)
Definition environment := string -> option string.

(** [!process.env[v]] *)
Definition unset (env : environment) (v : string) : bool :=
  match env v with
  | Some (String _ _) => false
  | _ => true
  end.

Definition requiredVars : list string :=
  [ "PORT"; "LISTEN_NOTES_API_KEY"; "HUGGING_FACE_API_KEY" ]%string.

Definition validateEnvironment (env : environment) : bool :=
  let missing := filter (unset env) requiredVars in
  negb (0 <? List.length missing).

(** [createListenNotesClient()]: the key the client sends, or the error
    thrown when there is none. *)
Definition createListenNotesClient (env : environment) : completion string :=
  match env "LISTEN_NOTES_API_KEY"%string with
  | Some (String c r) => Returned (String c r)
  | _ => Thrown
  end.

(** [process.env.PORT || 5000] *)
Inductive port :=
| FromEnvironment (text : string)
| Default (number : Z).

Inductive outcome :=
| Exit (code : Z)
| Crash
| Listen (on : port) (apiKey : string).

(** What loading [server.js] comes to. *)
Definition start (env : environment) : outcome :=
  if negb (validateEnvironment env) then Exit 1
  else
    let PORT := match env "PORT"%string with
                | Some (String c r) => FromEnvironment (String c r)
                | _ => Default 5000
                end in
    match createListenNotesClient env with
    | Thrown => Crash
    | Returned listenNotesClient => Listen PORT listenNotesClient
    end.

End Server.

(* ===================================================================== *)
(** * The pages: SearchPage, RecommendationsPage, FavoritesPage *)
(* ===================================================================== *)

Module Pages.

(** A property of an object: the object does not have it, or has it with a
    value, which may be [null]. *)
Inductive field (T : Type) : Type :=
| Absent
| Present (v : option T).
Arguments Absent {T}.
Arguments Present {T} v.

(** A podcast as a page holds it: a search result, a recommended podcast
    or a stored favorite, with the properties the pages read. *)
Record podcast := {
  id : string;
  title : field string;
  title_original : field string;
  description : field string;
  description_original : field string;
  publisher : field string;
  publisher_original : field string;
  thumbnail : field string;
  image : field string;
  website : field string;
  listennotes_url : field string;
  genre_ids : field (list Z);
  explicit_content : field bool
}.

(** [a || fallback] and [a || b || fallback] for texts. *)
Definition textOr (a : field string) (fallback : string) : string :=
  match a with
  | Present (Some (String c r)) => String c r
  | _ => fallback
  end.

Definition firstText (a b : field string) (fallback : string) : string :=
  textOr a (textOr b fallback).

(** A property written in the literal and then by the spread [...podcast]
    that ends it: the podcast's own value, if it has the property, replaces
    the one computed. *)
Definition spread {T : Type} (computed : T) (own : field T) : field T :=
  match own with
  | Absent => Present (Some computed)
  | Present v => Present v
  end.

Definition normalizePodcastData (p : podcast) : podcast :=
  {| id := id p;
     title :=
       spread (firstText (title_original p) (title p) "Unknown Podcast") (title p);
     title_original := title_original p;
     description :=
       spread (firstText (description_original p) (description p) "") (description p);
     description_original := description_original p;
     publisher :=
       spread (firstText (publisher_original p) (publisher p) "Unknown Publisher")
              (publisher p);
     publisher_original := publisher_original p;
     thumbnail := spread (firstText (thumbnail p) (image p) "") (thumbnail p);
     image := image p;
     website := spread (firstText (website p) (listennotes_url p) "") (website p);
     listennotes_url := spread (textOr (listennotes_url p) "") (listennotes_url p);
     genre_ids :=
       spread (match genre_ids p with
               | Present (Some ids) => ids
               | _ => []
               end) (genre_ids p);
     explicit_content :=
       spread (match explicit_content p with
               | Present (Some true) => true
               | _ => false
               end) (explicit_content p) |}.

(** [!normalizedPodcast.title] *)
Definition untitled (p : podcast) : bool :=
  match title p with
  | Present (Some (String _ _)) => false
  | _ => true
  end.

(** [favorites.some(podcast => podcast.id === podcastId)] *)
Definition isFavorite (favorites : list podcast) (podcastId : string) : bool :=
  existsb (fun p => String.eqb (id p) podcastId) favorites.

(** [favorites.filter(podcast => podcast.id !== podcastId)]: the list that
    becomes the state and is stored. *)
Definition removeFromFavorites (favorites : list podcast) (podcastId : string)
  : list podcast :=
  filter (fun p => negb (String.eqb (id p) podcastId)) favorites.

(** [newFavorites.findIndex(p => p.id === normalizedPodcast.id)]; [None]
    is -1. *)
Fixpoint findIndex {A : Type} (test : A -> bool) (l : list A) : option nat :=
  match l with
  | [] => None
  | x :: r => if test x then Some 0
              else match findIndex test r with
                   | Some i => Some (S i)
                   | None => None
                   end
  end.

(** [addToFavorites(podcast)] of the search page, for the favorites the
    page holds: the favorites it holds and stores afterwards, and what it
    tells the user. *)
Definition addToFavorites (favorites : list podcast) (p : podcast)
  : list podcast * string :=
  let normalizedPodcast := normalizePodcastData p in
  let newFavorites := favorites in
  match findIndex (fun q => String.eqb (id q) (id normalizedPodcast)) newFavorites with
  | None => (newFavorites ++ [normalizedPodcast], "Podcast added to favorites!"%string)
  | Some _ => (favorites, "This podcast is already in your favorites."%string)
  end.

(** [addToFavorites(podcast)] of the recommendations page, which first
    refuses a podcast that has no title and then says nothing. *)
Definition addRecommended (favorites : list podcast) (p : podcast)
  : list podcast * option string :=
  if untitled (normalizePodcastData p) then (favorites, None)
  else (fst (addToFavorites favorites p), Some (snd (addToFavorites favorites p))).

(** [fixExistingFavorites()] *)
Definition fixExistingFavorites (favorites : list podcast) : list podcast :=
  map normalizePodcastData favorites.

End Pages.

(* ===================================================================== *)
(** * routes/podcast.routes.js *)
(* ===================================================================== *)

(** How an Express router finds the route of a request, with the default
    options: letter case does not matter, one slash at the end is optional,
    and a segment [:name] of the pattern stands for any segment that is not
    empty. *)
Module Express.

(** The segments of a path that starts with a slash. *)
Fixpoint withoutLastEmpty (segments : list string) : list string :=
  match segments with
  | [] => []
  | [EmptyString] => []
  | s :: r => s :: withoutLastEmpty r
  end.

Definition segmentsOf (path : string) : option (list string) :=
  match JsString.split "/" path with
  | EmptyString :: segments => Some (withoutLastEmpty segments)
  | _ => None
  end.

Definition isParameter (segment : string) : bool :=
  match segment with
  | String ":" (String _ _) => true
  | _ => false
  end.

Definition segmentMatches (pattern segment : string) : bool :=
  if isParameter pattern then negb (JsString.isEmpty segment)
  else String.eqb (JsString.toLowerCase pattern) (JsString.toLowerCase segment).

Fixpoint segmentsMatch (pattern segments : list string) : bool :=
  match pattern, segments with
  | [], [] => true
  | p :: ps, s :: ss => segmentMatches p s && segmentsMatch ps ss
  | _, _ => false
  end.

Definition matches (pattern path : string) : bool :=
  match segmentsOf pattern, segmentsOf path with
  | Some p, Some s => segmentsMatch p s
  | _, _ => false
  end.

(** [req.params] of a pattern with one parameter, in its only segment. *)
Definition parameter (path : string) : string :=
  match segmentsOf path with
  | Some (s :: _) => s
  | _ => EmptyString
  end.

End Express.

Module PodcastRoutes.

(** The handlers that [setupPodcastRoutes] registers, each with what it
    asks the catalog for. *)
Inductive handler :=
| Search
| Details (id : string)
| Genres
| Trending.

(** The routes in the order they are registered: a request goes to the
    first one whose pattern matches its path; every handler answers or
    hands an error on, none passes the request to the routes after it. *)
Definition routes : list (string * (string -> handler)) :=
  [ ("/search"%string, fun _ => Search);
    ("/:id"%string, fun path => Details (Express.parameter path));
    ("/genres"%string, fun _ => Genres);
    ("/trending"%string, fun _ => Trending) ].

Fixpoint dispatch (table : list (string * (string -> handler))) (path : string)
  : option handler :=
  match table with
  | [] => None
  | (pattern, handle) :: rest =>
      if Express.matches pattern path then Some (handle path)
      else dispatch rest path
  end.

Definition get (path : string) : option handler := dispatch routes path.

End PodcastRoutes.
(* ===================================================================== *)
(** * The vocabulary of the further facts *)
(* ===================================================================== *)

(** Plain objects used as counters. *)
Module Counter.

(** The names of the own properties, in the order they were created. *)
Definition keys (o : Js.object) : list string := map fst o.

Definition notProto (k : string) : bool := negb (String.eqb k "__proto__").

(** A name that a counter counts as a number. *)
Definition ordinary (k : string) : Prop :=
  k <> "__proto__"%string /\ JsString.includes k Js.inheritedNames = false.

(** The value a name has after its first count: the number 1, or a text
    when the name is inherited. *)
Definition countedOnce (v : option Js.propval) : Prop :=
  v = None \/ v = Some (Js.Num 1) \/ v = Some Js.Text.

End Counter.

(** Binary64 numbers that are small integers. *)
Module Exact.

(** [m] with [n] zero bits appended. *)
Definition shifted (n : nat) (m : positive) : positive := Nat.iter n xO m.

(** The binary64 number that is the integer [p], for [p] below 2^53. *)
Definition counted (p : positive) : spec_float :=
  S754_finite false
    (shifted (Z.to_nat (53 - Zpos (digits2_pos p))) p)
    (Zpos (digits2_pos p) - 53).

(** The whole number that a binary64 number is, if it is one. *)
Definition wholeNumber (x : float) : option Z :=
  match Prim2SF x with
  | S754_zero _ => Some 0%Z
  | S754_finite s m e =>
      let n := if s then Zneg m else Zpos m in
      if (0 <=? e)%Z then Some (n * 2 ^ e)%Z
      else if (n mod 2 ^ (- e) =? 0)%Z then Some (n / 2 ^ (- e))%Z
      else None
  | _ => None
  end.

(** What a counter holds for a name counted [n] times. *)
Definition holds (v : option Js.propval) (n : nat) : Prop :=
  match n with
  | O => v = None
  | S _ => exists x, v = Some (Js.Num x) /\ Prim2SF x = counted (Pos.of_nat n)
  end.

End Exact.

(** Texts and properties that are there. *)
Module Fields.

(** What [filterTokens] keeps. *)
Definition meaningful (stopwords : list string) (t : string) : Prop :=
  3 < String.length t
  /\ ~ In t TextProcessing.commonWords
  /\ JsString.isNumeric t = false
  /\ ~ In (JsString.toLowerCase t) stopwords.

(** A text field that holds a text that is not empty. *)
Definition filled (x : option string) : Prop := exists c r, x = Some (String c r).

(** What the spread leaves of a property: the podcast's own value when it
    has the property, and some value otherwise. *)
Definition kept {T : Type} (own result : Pages.field T) : Prop :=
  match own with
  | Pages.Absent => exists v, result = Pages.Present (Some v)
  | Pages.Present v => result = Pages.Present v
  end.

End Fields.

(** The description that [standardizeFavorites] gives a favorite that has
    none, and what becomes of it. *)
Module Placeholder.

Local Open Scope string_scope.

Definition text : string := "No description available".

Definition normalised : string := "no description available".

Definition words : list string := ["no"; "description"; "available"].

(** [n + 1] copies, joined by spaces. *)
Fixpoint joined (copy : string) (n : nat) : string :=
  match n with
  | O => copy
  | S k => copy ++ " " ++ joined copy k
  end.

(** [(x || 0) + 1] of a value that is there, [n] times. *)
Fixpoint recounted (n : nat) (v : Js.propval) : Js.propval :=
  match n with
  | O => v
  | S k => recounted k (Js.orZeroPlusOne (Some v))
  end.

End Placeholder.

(* ===================================================================== *)
(** * Facts about the text feature extractor *)
(* ===================================================================== *)

Module TextFacts.

Import JsString TextProcessing.

Lemma filter_all_false {A : Type} (p : A -> bool) (l : list A) :
  Forall (fun x => p x = false) l -> filter p l = [].
Proof.
  induction 1 as [|x l Hx _ IH]; simpl; [reflexivity|].
  now rewrite Hx.
Qed.

Lemma Forall_filter {A : Type} (P : A -> Prop) (p : A -> bool) (l : list A) :
  Forall P l -> Forall P (filter p l).
Proof.
  induction 1 as [|x l Hx _ IH]; simpl; [constructor|].
  destruct (p x); [constructor|]; assumption.
Qed.

(** Tokens of at most three characters do not survive [filterTokens],
    whatever the stop-word list. *)
Lemma filterTokens_short (stopwords : list string) (tokens : list string) :
  Forall (fun t => (3 <? String.length t) = false) tokens ->
  filterTokens stopwords tokens = [].
Proof.
  intros Hshort. unfold filterTokens.
  destruct tokens as [|t ts]; [reflexivity|].
  apply filter_all_false.
  apply Forall_filter with (p := fun t => negb (includes (toLowerCase t) stopwords))
    in Hshort.
  unfold removeStopwords.
  eapply Forall_impl; [|exact Hshort].
  intros a Ha. cbv beta in Ha |- *. now rewrite Ha.
Qed.

End TextFacts.

(** C3 (as stated, refuted).  With the English stop-word list,
    [extractKeywords("the the the cat cat dog", 2)] is the empty array: it
    holds neither "cat" nor "dog". *)
Lemma extractKeywords_cat_dog_not_returned :
  ~ (In "cat"%string
        (TextProcessing.extractKeywords Fixture.english "the the the cat cat dog" 2)
     /\ In "dog"%string
        (TextProcessing.extractKeywords Fixture.english "the the the cat cat dog" 2)).
Proof.
  assert (E : TextProcessing.extractKeywords Fixture.english "the the the cat cat dog" 2
              = []) by (vm_compute; reflexivity).
  rewrite E. intros [H _]. exact H.
Qed.

(** C3 (amended).  Whatever the stop-word list,
    [extractKeywords("the the the cat cat dog", 2)] returns the empty array:
    every token of the text, "cat" and "dog" like "the", has length 3 and is
    dropped by the [token.length > 3] filter. *)
Theorem extractKeywords_short_tokens_empty :
  forall stopwords : list string,
    TextProcessing.extractKeywords stopwords "the the the cat cat dog" 2 = [].
Proof.
  intro stopwords. unfold TextProcessing.extractKeywords.
  change (JsString.isEmpty "the the the cat cat dog") with false. cbv iota.
  replace (TextProcessing.preprocessText "the the the cat cat dog")
    with "the the the cat cat dog"%string by (vm_compute; reflexivity).
  replace (JsString.split " " "the the the cat cat dog")
    with ["the"; "the"; "the"; "cat"; "cat"; "dog"]%string by (vm_compute; reflexivity).
  rewrite TextFacts.filterTokens_short; [reflexivity|].
  repeat constructor.
Qed.

Module FloatOrderFacts.

Import FloatOrder.
Local Open Scope Z_scope.

Lemma lexCompare_Lt a b : lexCompare a b = Lt <-> lexLt a b.
Proof.
  destruct a as [[a1 a2] a3], b as [[b1 b2] b3]. unfold lexCompare, lexLt.
  destruct (Z.compare_spec a1 b1), (Z.compare_spec a2 b2), (Z.compare_spec a3 b3);
    split; intros Hc; try discriminate; try reflexivity; try lia.
Qed.

Lemma lexCompare_Eq a b : lexCompare a b = Eq <-> a = b.
Proof.
  destruct a as [[a1 a2] a3], b as [[b1 b2] b3]. unfold lexCompare.
  destruct (Z.compare_spec a1 b1), (Z.compare_spec a2 b2), (Z.compare_spec a3 b3);
    split; intros Hc; try discriminate; try reflexivity;
    try (injection Hc; intros; lia); try (f_equal; [f_equal|]; lia).
Qed.

Lemma lexCompare_Gt a b : lexCompare a b = Gt <-> lexLt b a.
Proof.
  destruct a as [[a1 a2] a3], b as [[b1 b2] b3]. unfold lexCompare, lexLt.
  destruct (Z.compare_spec a1 b1), (Z.compare_spec a2 b2), (Z.compare_spec a3 b3);
    split; intros Hc; try discriminate; try reflexivity; try lia.
Qed.

Lemma lexLt_trans a b c : lexLt a b -> lexLt b c -> lexLt a c.
Proof.
  destruct a as [[a1 a2] a3], b as [[b1 b2] b3], c as [[c1 c2] c3].
  unfold lexLt. lia.
Qed.

Lemma lexLt_irrefl a : ~ lexLt a a.
Proof. destruct a as [[a1 a2] a3]. unfold lexLt. lia. Qed.

Lemma lex_total a b : lexLt a b \/ a = b \/ lexLt b a.
Proof.
  destruct a as [[a1 a2] a3], b as [[b1 b2] b3]. unfold lexLt.
  destruct (Z.lt_trichotomy a1 b1) as [?|[?|?]];
    destruct (Z.lt_trichotomy a2 b2) as [?|[?|?]];
    destruct (Z.lt_trichotomy a3 b3) as [?|[?|?]]; subst; auto 10.
Qed.

(** [SFcompare] is the comparison of the keys. *)
Lemma SFcompare_rank (f g : spec_float) :
  SFcompare f g =
  match rank f, rank g with
  | Some a, Some b => Some (lexCompare a b)
  | _, _ => None
  end.
Proof.
  destruct f as [[|]|[|]| |[|] m e], g as [[|]|[|]| |[|] n e']; simpl; try reflexivity.
  rewrite Z.compare_opp, (Z.compare_antisym e e').
  change (PosDef.Pos.compare_cont Eq m n) with (m ?= n)%positive.
  now destruct (e ?= e').
Qed.

Lemma ltb_key (x y : float) :
  PrimFloat.ltb x y = true <->
  exists a b, key x = Some a /\ key y = Some b /\ lexLt a b.
Proof.
  rewrite FloatAxioms.ltb_spec. unfold SFltb, key. rewrite SFcompare_rank.
  destruct (rank (Prim2SF x)) as [a|], (rank (Prim2SF y)) as [b|].
  - split.
    + intros H. exists a, b. repeat split. apply lexCompare_Lt.
      now destruct (lexCompare a b).
    + intros (a' & b' & Ea & Eb & H). inversion Ea; inversion Eb; subst.
      apply lexCompare_Lt in H. now rewrite H.
  - split; [discriminate | intros (a' & b' & _ & Eb & _); discriminate].
  - split; [discriminate | intros (a' & b' & Ea & _ & _); discriminate].
  - split; [discriminate | intros (a' & b' & Ea & _ & _); discriminate].
Qed.

Lemma eqb_key (x y : float) :
  PrimFloat.eqb x y = true <-> exists a, key x = Some a /\ key y = Some a.
Proof.
  rewrite FloatAxioms.eqb_spec. unfold SFeqb, key. rewrite SFcompare_rank.
  destruct (rank (Prim2SF x)) as [a|], (rank (Prim2SF y)) as [b|].
  - split.
    + intros H. exists a. split; [reflexivity|]. f_equal. symmetry.
      apply lexCompare_Eq. now destruct (lexCompare a b).
    + intros (a' & Ea & Eb). inversion Ea; inversion Eb; subst.
      now rewrite (proj2 (lexCompare_Eq _ _) eq_refl).
  - split; [discriminate | intros (a' & _ & Eb); discriminate].
  - split; [discriminate | intros (a' & Ea & _); discriminate].
  - split; [discriminate | intros (a' & Ea & _); discriminate].
Qed.

Lemma leb_key (x y : float) :
  PrimFloat.leb x y = true <->
  exists a b, key x = Some a /\ key y = Some b /\ lexLe a b.
Proof.
  rewrite FloatAxioms.leb_spec. unfold SFleb, key. rewrite SFcompare_rank.
  destruct (rank (Prim2SF x)) as [a|], (rank (Prim2SF y)) as [b|].
  - split.
    + intros H. exists a, b. repeat split.
      destruct (lexCompare a b) eqn:E; try discriminate.
      * right. now apply lexCompare_Eq.
      * left. now apply lexCompare_Lt.
    + intros (a' & b' & Ea & Eb & [H|H]); inversion Ea; inversion Eb; subst.
      * apply lexCompare_Lt in H. now rewrite H.
      * now rewrite (proj2 (lexCompare_Eq _ _) eq_refl).
  - split; [discriminate | intros (a' & b' & _ & Eb & _); discriminate].
  - split; [discriminate | intros (a' & b' & Ea & _ & _); discriminate].
  - split; [discriminate | intros (a' & b' & Ea & _ & _); discriminate].
Qed.

(** A number is NaN exactly when it has no key. *)
Lemma isNaNf_key (x : float) : Js.isNaNf x = false <-> exists a, key x = Some a.
Proof.
  unfold Js.isNaNf. rewrite negb_false_iff, eqb_key. split.
  - intros (a & H & _). now exists a.
  - intros (a & H). now exists a.
Qed.

Lemma ltb_false_key (x y : float) a b :
  key x = Some a -> key y = Some b ->
  PrimFloat.ltb x y = false -> lexLe b a.
Proof.
  intros Ea Eb H.
  destruct (lex_total a b) as [L|[E|G]].
  - assert (T : PrimFloat.ltb x y = true) by (apply ltb_key; eauto).
    congruence.
  - right. now symmetry.
  - now left.
Qed.

Lemma ltb_irrefl (x : float) : PrimFloat.ltb x x = false.
Proof.
  destruct (PrimFloat.ltb x x) eqn:E; [|reflexivity].
  apply ltb_key in E. destruct E as (a & b & Ea & Eb & L).
  rewrite Ea in Eb. inversion Eb; subst. now apply lexLt_irrefl in L.
Qed.

Lemma ltb_trans (x y z : float) :
  PrimFloat.ltb x y = true -> PrimFloat.ltb y z = true -> PrimFloat.ltb x z = true.
Proof.
  rewrite !ltb_key.
  intros (a & b & Ea & Eb & L1) (b' & c & Eb' & Ec & L2).
  rewrite Eb in Eb'. inversion Eb'; subst.
  exists a, c. repeat split; try assumption. eapply lexLt_trans; eassumption.
Qed.

(** ** Comparisons of numbers whose keys are known *)

Lemma ltb_known (x y : float) a b :
  key x = Some a -> key y = Some b ->
  (PrimFloat.ltb x y = true <-> lexLt a b).
Proof.
  intros Ea Eb. rewrite ltb_key. split.
  - intros (a' & b' & Ea' & Eb' & L). congruence.
  - intros L. eauto.
Qed.

Lemma ltb_known_false (x y : float) a b :
  key x = Some a -> key y = Some b ->
  (PrimFloat.ltb x y = false <-> lexLe b a).
Proof.
  intros Ea Eb. split.
  - now apply ltb_false_key.
  - intros L. destruct (PrimFloat.ltb x y) eqn:E; [|reflexivity].
    apply (ltb_known x y a b Ea Eb) in E.
    destruct a as [[a1 a2] a3], b as [[b1 b2] b3].
    destruct L as [L|L]; [|injection L; intros; subst];
      unfold lexLt in *; lia.
Qed.

Lemma leb_known (x y : float) a b :
  key x = Some a -> key y = Some b ->
  (PrimFloat.leb x y = true <-> lexLe a b).
Proof.
  intros Ea Eb. rewrite leb_key. split.
  - intros (a' & b' & Ea' & Eb' & L). congruence.
  - intros L. eauto.
Qed.



Lemma lexLe_cases a b : lexLe a b <-> ~ lexLt b a.
Proof.
  destruct a as [[a1 a2] a3], b as [[b1 b2] b3]. unfold lexLe, lexLt. split.
  - intros [L|E]; [|injection E; intros; subst]; lia.
  - intros N.
    destruct (Z.lt_trichotomy a1 b1) as [?|[?|?]];
      destruct (Z.lt_trichotomy a2 b2) as [?|[?|?]];
      destruct (Z.lt_trichotomy a3 b3) as [?|[?|?]]; subst;
      try (left; lia); try (right; reflexivity); exfalso; apply N; lia.
Qed.

Lemma lexLe_refl a : lexLe a a.
Proof. now right. Qed.

Lemma lexLe_trans a b c : lexLe a b -> lexLe b c -> lexLe a c.
Proof.
  intros [L1 | ->] [L2 | ->]; try (now left); try (now right).
  left. eapply lexLt_trans; eassumption.
Qed.

Lemma lexLe_lt_trans a b c : lexLe a b -> lexLt b c -> lexLt a c.
Proof. intros [L1 | ->] L2; [eapply lexLt_trans; eassumption | assumption]. Qed.

Lemma lexLt_le_trans a b c : lexLt a b -> lexLe b c -> lexLt a c.
Proof. intros L1 [L2 | <-]; [eapply lexLt_trans; eassumption | assumption]. Qed.


End FloatOrderFacts.

(** The sign of a difference: for two numbers that are not NaN, [y - x] is
    above zero exactly when [x] is below [y].  A subtraction never rounds a
    non-zero difference to zero. *)
Module FloatSubFacts.

Import FloatOrder FloatOrderFacts.
Local Open Scope Z_scope.

Lemma digits2_size (p : positive) : digits2_pos p = Pos.size p.
Proof. induction p; simpl; congruence. Qed.

Lemma digits2_bounds (p : positive) :
  2 ^ (Zpos (digits2_pos p) - 1) <= Zpos p < 2 ^ Zpos (digits2_pos p).
Proof.
  rewrite digits2_size. split.
  - pose proof (Pos.size_le p) as H.
    assert (H' : 2 ^ Zpos (Pos.size p) <= 2 * Zpos p).
    { change 2 with (Zpos 2) at 1. rewrite <- Pos2Z.inj_pow.
      change (2 * Zpos p) with (Zpos p~0). now apply Pos2Z.pos_le_pos. }
    replace (Zpos (Pos.size p)) with (Z.succ (Zpos (Pos.size p) - 1)) in H' by lia.
    rewrite Z.pow_succ_r in H' by lia. lia.
  - pose proof (Pos.size_gt p) as H.
    change 2 with (Zpos 2). rewrite <- Pos2Z.inj_pow. now apply Pos2Z.pos_lt_pos.
Qed.

Lemma iter_pos_nat {A : Type} (f : A -> A) (p : positive) (x : A) :
  iter_pos f p x = Nat.iter (Pos.to_nat p) f x.
Proof.
  revert x. induction p as [p IH|p IH|]; intros x.
  - change (iter_pos f p~1 x) with (iter_pos f p (iter_pos f p (f x))).
    rewrite !IH, Pos2Nat.inj_xI.
    replace (S (2 * Pos.to_nat p)) with (Pos.to_nat p + (Pos.to_nat p + 1))%nat by lia.
    rewrite !Nat.iter_add. reflexivity.
  - change (iter_pos f p~0 x) with (iter_pos f p (iter_pos f p x)).
    rewrite !IH, Pos2Nat.inj_xO.
    replace (2 * Pos.to_nat p)%nat with (Pos.to_nat p + Pos.to_nat p)%nat by lia.
    rewrite Nat.iter_add. reflexivity.
  - reflexivity.
Qed.

(** Shifting right by fewer places than there are digits leaves a
    positive mantissa. *)
Lemma shr_iter_positive (n : nat) :
  forall (mrs : shr_record) (q : positive),
    shr_m mrs = Zpos q ->
    (Z.of_nat n < Zpos (digits2_pos q)) ->
    exists q', shr_m (Nat.iter n shr_1 mrs) = Zpos q'.
Proof.
  induction n as [|n IH]; intros mrs q Hq Hn.
  - exists q. exact Hq.
  - rewrite Nat.iter_succ_r.
    destruct mrs as [m r s]. simpl in Hq. subst m.
    destruct q as [p|p|]; simpl in Hn.
    + apply (IH _ p); [reflexivity | lia].
    + apply (IH _ p); [reflexivity | lia].
    + lia.
Qed.

Lemma shr_m_of_loc (m : Z) (l : location) : shr_m (shr_record_of_loc m l) = m.
Proof. destruct l as [|[| |]]; reflexivity. Qed.

Lemma shr_fexp_positive (m : positive) (e : Z) (l : location) :
  emin <= e ->
  exists q, shr_m (fst (shr_fexp prec emax (Zpos m) e l)) = Zpos q
            /\ emin <= snd (shr_fexp prec emax (Zpos m) e l).
Proof.
  intros He. unfold shr_fexp, shr.
  destruct (fexp prec emax (Zdigits2 (Zpos m) + e) - e) as [|p|p] eqn:En; simpl fst; simpl snd.
  - exists m. split; [apply shr_m_of_loc | assumption].
  - rewrite iter_pos_nat.
    destruct (shr_iter_positive (Pos.to_nat p) (shr_record_of_loc (Zpos m) l) m)
      as [q Hq].
    + apply shr_m_of_loc.
    + rewrite positive_nat_Z. revert En He. unfold fexp, emin, prec, emax. simpl Zdigits2.
      lia.
    + exists q. split; [assumption | lia].
  - exists m. split; [apply shr_m_of_loc | assumption].
Qed.

Lemma round_nearest_even_positive (q : positive) (l : location) :
  exists q', round_nearest_even (Zpos q) l = Zpos q'.
Proof.
  destruct l as [|[| |]]; unfold round_nearest_even;
    try destruct (Z.even (Zpos q)); eexists; simpl; reflexivity.
Qed.

Lemma binary_round_aux_positive (m : positive) (e : Z) (l : location) :
  emin <= e ->
  isPositive (binary_round_aux prec emax false (Zpos m) e l) = true.
Proof.
  intros He. unfold binary_round_aux.
  destruct (shr_fexp_positive m e l He) as (q & Hq & He').
  destruct (shr_fexp prec emax (Zpos m) e l) as [mrs' e']. simpl in Hq, He'.
  rewrite Hq.
  destruct (round_nearest_even_positive q (loc_of_shr_record mrs')) as [q' ->].
  destruct (shr_fexp_positive q' e' loc_Exact He') as (q2 & Hq2 & _).
  destruct (shr_fexp prec emax (Zpos q') e' loc_Exact) as [mrs'' e'']. simpl in Hq2.
  rewrite Hq2. now destruct (e'' <=? emax - prec).
Qed.

Lemma binary_round_aux_negative (m e : Z) (l : location) :
  isPositive (binary_round_aux prec emax true m e l) = false.
Proof.
  unfold binary_round_aux.
  destruct (shr_fexp prec emax m e l) as [mrs' e'].
  destruct (shr_fexp prec emax _ e' loc_Exact) as [mrs'' e''].
  destruct (shr_m mrs''); [reflexivity | | reflexivity].
  now destruct (e'' <=? emax - prec).
Qed.

Lemma binary_normalize_positive (d e : Z) :
  emin <= e ->
  isPositive (binary_normalize prec emax d e false) = (0 <? d).
Proof.
  intros He. destruct d as [|p|p]; simpl; [reflexivity| |].
  - unfold binary_round, shl_align.
    destruct (fexp prec emax (Zpos (digits2_pos p) + e) - e) eqn:En;
      apply binary_round_aux_positive; try assumption.
    unfold fexp. lia.
  - unfold binary_round.
    destruct (shl_align p e _) as [mz ez]. apply binary_round_aux_negative.
Qed.

Lemma shl_align_value (m : positive) (e ez : Z) :
  ez <= e -> Zpos (fst (shl_align m e ez)) = Zpos m * 2 ^ (e - ez).
Proof.
  intros H. unfold shl_align. destruct (ez - e) as [|d|d] eqn:E; simpl fst.
  - replace (e - ez) with 0 by lia. simpl. lia.
  - lia.
  - replace (e - ez) with (Zpos d) by lia.
    change (Pos.iter xO m d) with (Zpower.shift_pos d m).
    rewrite Zpower.shift_pos_correct. change (2 ^ Zpos d) with (Z.pow_pos 2 d). lia.
Qed.

(** A valid finite number is in canonical form. *)
Lemma valid_finite (s : bool) (m : positive) (e : Z) :
  valid_binary (S754_finite s m e) = true ->
  emin <= e
  /\ Zpos (digits2_pos m) <= prec
  /\ (emin < e -> Zpos (digits2_pos m) = prec).
Proof.
  unfold SpecFloat.valid_binary, bounded, canonical_mantissa, fexp.
  intros H. apply andb_true_iff in H. destruct H as [H _].
  apply Z.eqb_eq in H. revert H. unfold emin, prec, emax. lia.
Qed.

(** Two canonical magnitudes, brought to their smaller exponent, compare
    as their (exponent, mantissa) pairs do. *)
Lemma aligned_lt (m1 m2 : positive) (e1 e2 : Z) :
  valid_binary (S754_finite false m1 e1) = true ->
  valid_binary (S754_finite false m2 e2) = true ->
  (Zpos (fst (shl_align m1 e1 (Z.min e1 e2)))
     < Zpos (fst (shl_align m2 e2 (Z.min e1 e2)))
   <-> e1 < e2 \/ (e1 = e2 /\ Zpos m1 < Zpos m2)).
Proof.
  intros V1 V2.
  apply valid_finite in V1. destruct V1 as (L1 & D1 & N1).
  apply valid_finite in V2. destruct V2 as (L2 & D2 & N2).
  rewrite !shl_align_value by lia.
  pose proof (digits2_bounds m1) as [B1 B1'].
  pose proof (digits2_bounds m2) as [B2 B2'].
  assert (P53 : 2 ^ prec = 2 * 2 ^ (prec - 1)) by reflexivity.
  destruct (Z.lt_trichotomy e1 e2) as [Lt|[Eq|Gt]].
  - (* the second number is normal and has the larger exponent *)
    rewrite Z.min_l by lia. rewrite Z.sub_diag, Z.pow_0_r, Z.mul_1_r.
    rewrite (N2 ltac:(lia)) in B2.
    assert (Hp : 2 <= 2 ^ (e2 - e1)).
    { change 2 with (2 ^ 1) at 1. apply Z.pow_le_mono_r; lia. }
    assert (Hm1 : Zpos m1 < 2 ^ prec).
    { eapply Z.lt_le_trans; [exact B1'|]. apply Z.pow_le_mono_r; lia. }
    split; [intros _; now left|]. intros _.
    eapply Z.lt_le_trans; [exact Hm1|]. rewrite P53.
    rewrite Z.mul_comm. apply Z.mul_le_mono_nonneg; try lia;
      apply Z.pow_nonneg; lia.
  - subst e2. rewrite Z.min_id, Z.sub_diag, Z.pow_0_r, !Z.mul_1_r. lia.
  - rewrite Z.min_r by lia. rewrite Z.sub_diag, Z.pow_0_r, Z.mul_1_r.
    rewrite (N1 ltac:(lia)) in B1.
    assert (Hp : 2 <= 2 ^ (e1 - e2)).
    { change 2 with (2 ^ 1) at 1. apply Z.pow_le_mono_r; lia. }
    assert (Hm2 : Zpos m2 < 2 ^ prec).
    { eapply Z.lt_le_trans; [exact B2'|]. apply Z.pow_le_mono_r; lia. }
    assert (Hge : Zpos m2 < Zpos m1 * 2 ^ (e1 - e2)).
    { eapply Z.lt_le_trans; [exact Hm2|]. rewrite P53.
      rewrite Z.mul_comm. apply Z.mul_le_mono_nonneg; try lia;
        apply Z.pow_nonneg; lia. }
    split; [lia|]. intros [?|[? _]]; lia.
Qed.

Lemma SFltb_zero (f : spec_float) :
  SFltb (S754_zero false) f = isPositive f.
Proof. destruct f as [[|]|[|]| |[|] m e]; reflexivity. Qed.

Lemma SFsub_positive (fx fy : spec_float) (a b : key3) :
  valid_binary fx = true -> valid_binary fy = true ->
  rank fx = Some a -> rank fy = Some b ->
  (isPositive (SFsub prec emax fy fx) = true <-> lexLt a b).
Proof.
  intros Vx Vy Rx Ry.
  destruct fx as [sx|sx| |sx mx ex], fy as [sy|sy| |sy my ey];
    try discriminate;
    try (destruct sx, sy; simpl in Rx, Ry; inversion Rx; inversion Ry; subst;
         unfold lexLt; simpl; split; intros H; try discriminate; try reflexivity;
         lia).
  (* both finite *)
  pose proof (valid_finite _ _ _ Vx) as (Lx & _ & _).
  pose proof (valid_finite _ _ _ Vy) as (Ly & _ & _).
  unfold SFsub. rewrite binary_normalize_positive by lia.
  rewrite Z.ltb_lt.
  pose proof (aligned_lt mx my ex ey Vx Vy) as Hxy.
  pose proof (aligned_lt my mx ey ex Vy Vx) as Hyx.
  rewrite (Z.min_comm ex ey) in Hxy.
  set (X := Zpos (fst (shl_align mx ex (Z.min ey ex)))) in *.
  set (Y := Zpos (fst (shl_align my ey (Z.min ey ex)))) in *.
  assert (HX : 0 < X) by (unfold X; lia).
  assert (HY : 0 < Y) by (unfold Y; lia).
  destruct sx, sy; simpl in Rx, Ry; inversion Rx; inversion Ry; subst;
    unfold lexLt, cond_Zopp; lia.
Qed.

Lemma Prim2SF_zero : Prim2SF 0%float = S754_zero false.
Proof. reflexivity. Qed.

(** The comparison function [(a, b) => b - a] is positive exactly when
    [a] is below [b]. *)
Lemma ltb_zero_sub (x y : float) :
  Js.isNaNf x = false -> Js.isNaNf y = false ->
  PrimFloat.ltb 0 (PrimFloat.sub y x) = PrimFloat.ltb x y.
Proof.
  intros Nx Ny.
  apply isNaNf_key in Nx. destruct Nx as [a Ka].
  apply isNaNf_key in Ny. destruct Ny as [b Kb].
  rewrite (FloatAxioms.ltb_spec 0), Prim2SF_zero, SFltb_zero, FloatAxioms.sub_spec.
  pose proof (SFsub_positive (Prim2SF x) (Prim2SF y) a b
                (Prim2SF_valid x) (Prim2SF_valid y) Ka Kb) as H.
  unfold SF64sub.
  destruct (PrimFloat.ltb x y) eqn:E.
  - apply H. now apply (ltb_known x y a b Ka Kb).
  - destruct (isPositive (SFsub prec emax (Prim2SF y) (Prim2SF x))); [|reflexivity].
    rewrite <- E. symmetry. apply (ltb_known x y a b Ka Kb). now apply H.
Qed.

End FloatSubFacts.

(* ===================================================================== *)
(** * [preprocessText] is idempotent *)
(* ===================================================================== *)

Module PreprocessFacts.

Import JsString TextProcessing TextShape.

Ltac ascii_cases c :=
  destruct c as [[|] [|] [|] [|] [|] [|] [|] [|]]; vm_compute;
  try reflexivity; try discriminate; try (intros; discriminate);
  try (intros; reflexivity).

Lemma lower_not_upper (c : ascii) : isUpper (toLowerCaseChar c) = false.
Proof. ascii_cases c. Qed.

Lemma lowerWord_lower (c : ascii) : isLowerWord c = true -> toLowerCaseChar c = c.
Proof. ascii_cases c. Qed.

Lemma lowerWord_word (c : ascii) : isLowerWord c = true -> isWordChar c = true.
Proof. ascii_cases c. Qed.

Lemma lowerWord_not_white (c : ascii) : isLowerWord c = true -> isWhiteSpace c = false.
Proof. ascii_cases c. Qed.

Lemma lowerWord_not_tag (c : ascii) : isLowerWord c = true -> Ascii.eqb c "<" = false.
Proof. ascii_cases c. Qed.

Lemma word_not_upper (c : ascii) :
  isWordChar c = true -> isUpper c = false -> isLowerWord c = true.
Proof. ascii_cases c. Qed.

Lemma word_not_white (c : ascii) : isWordChar c = true -> isWhiteSpace c = false.
Proof. ascii_cases c. Qed.

Lemma isSpace_eq (c : ascii) : isSpace c = true -> c = " "%char.
Proof. unfold isSpace. apply Ascii.eqb_eq. Qed.

Lemma space_or_word (c : ascii) : isLowerWord c = true -> isSpace c = false.
Proof. ascii_cases c. Qed.

(** ** Each step leaves a normal string as it is *)

Lemma toLowerCase_spaced (b : bool) (s : string) :
  spaced b s = true -> toLowerCase s = s.
Proof.
  revert b. induction s as [|c r IH]; intros b H; simpl in *; [reflexivity|].
  destruct (isSpace c) eqn:Ec.
  - apply andb_true_iff in H. destruct H as [_ H].
    apply isSpace_eq in Ec. subst c. now rewrite (IH true H).
  - apply andb_true_iff in H. destruct H as [Hc H].
    now rewrite (lowerWord_lower c Hc), (IH false H).
Qed.

Lemma replaceTags_spaced (b : bool) (s : string) :
  spaced b s = true -> replaceTags false s = s.
Proof.
  revert b. induction s as [|c r IH]; intros b H; simpl in *; [reflexivity|].
  destruct (isSpace c) eqn:Ec.
  - apply andb_true_iff in H. destruct H as [_ H].
    apply isSpace_eq in Ec. subst c. simpl. now rewrite (IH true H).
  - apply andb_true_iff in H. destruct H as [Hc H].
    rewrite (lowerWord_not_tag c Hc). simpl. now rewrite (IH false H).
Qed.

Lemma replaceSpecial_spaced (b : bool) (s : string) :
  spaced b s = true -> replaceSpecial s = s.
Proof.
  revert b. induction s as [|c r IH]; intros b H; simpl in *; [reflexivity|].
  destruct (isSpace c) eqn:Ec.
  - apply andb_true_iff in H. destruct H as [_ H].
    apply isSpace_eq in Ec. subst c. simpl. now rewrite (IH true H).
  - apply andb_true_iff in H. destruct H as [Hc H].
    rewrite (lowerWord_word c Hc). simpl. now rewrite (IH false H).
Qed.

Lemma collapseSpaces_spaced (b : bool) (s : string) :
  spaced b s = true -> collapseSpaces b s = s.
Proof.
  revert b. induction s as [|c r IH]; intros b H; simpl in *; [reflexivity|].
  destruct (isSpace c) eqn:Ec.
  - apply andb_true_iff in H. destruct H as [Hb H].
    apply isSpace_eq in Ec. subst c. simpl.
    destruct b; [discriminate|]. now rewrite (IH true H).
  - apply andb_true_iff in H. destruct H as [Hc H].
    rewrite (lowerWord_not_white c Hc). now rewrite (IH false H).
Qed.

Lemma spaced_weaken (b : bool) (s : string) :
  spaced true s = true -> spaced b s = true.
Proof.
  destruct s as [|c r]; simpl; [reflexivity|].
  destruct (isSpace c); [discriminate|]. trivial.
Qed.

Lemma trimStart_spaced (s : string) : spaced true s = true -> trimStart s = s.
Proof.
  destruct s as [|c r]; simpl; [reflexivity|].
  destruct (isSpace c) eqn:Ec; [discriminate|].
  intros H. apply andb_true_iff in H. destruct H as [Hc _].
  now rewrite (lowerWord_not_white c Hc).
Qed.

Lemma trimEnd_endsInWord (s : string) : endsInWord s = true -> trimEnd s = s.
Proof.
  induction s as [|c r IH]; intros H; [reflexivity|].
  destruct r as [|c' r'].
  - simpl in *. now destruct (isWhiteSpace c).
  - change (endsInWord (String c (String c' r'))) with (endsInWord (String c' r')) in H.
    change (trimEnd (String c (String c' r')))
      with (match trimEnd (String c' r') with
            | EmptyString =>
                if isWhiteSpace c then EmptyString else String c EmptyString
            | r0 => String c r0
            end).
    now rewrite (IH H).
Qed.

Lemma normal_fixed (s : string) : normal s = true -> preprocessText s = s.
Proof.
  unfold normal, preprocessText. intros H.
  apply andb_true_iff in H. destruct H as [Hs He].
  destruct s as [|c r]; [reflexivity|]. cbn [isEmpty].
  rewrite (toLowerCase_spaced _ _ Hs), (replaceTags_spaced _ _ Hs),
    (replaceSpecial_spaced _ _ Hs).
  rewrite (collapseSpaces_spaced false _ (spaced_weaken false _ Hs)).
  unfold trim. now rewrite (trimStart_spaced _ Hs), (trimEnd_endsInWord _ He).
Qed.

(** ** What each step establishes *)

Lemma toLowerCase_noUpper (s : string) : noUpper (toLowerCase s) = true.
Proof.
  induction s as [|c r IH]; simpl; [reflexivity|].
  now rewrite lower_not_upper, IH.
Qed.

Lemma replaceTags_noUpper (b : bool) (s : string) :
  noUpper s = true -> noUpper (replaceTags b s) = true.
Proof.
  revert b. induction s as [|c r IH]; intros b H; simpl in *; [reflexivity|].
  apply andb_true_iff in H. destruct H as [Hc H].
  destruct b.
  - destruct (Ascii.eqb c ">"); simpl; auto.
  - destruct (Ascii.eqb c "<" && contains ">" r); simpl; auto.
    rewrite Hc. simpl. auto.
Qed.

(** After lowercasing and the two replacements only lowercase word
    characters and white space are left; collapsing then gives single
    spaces. *)
Lemma collapse_replaceSpecial_spaced (b : bool) (s : string) :
  noUpper s = true -> spaced b (collapseSpaces b (replaceSpecial s)) = true.
Proof.
  revert b. induction s as [|c r IH]; intros b H; simpl in *; [reflexivity|].
  apply andb_true_iff in H. destruct H as [Hc H]. apply negb_true_iff in Hc.
  destruct (isWordChar c) eqn:Ew; simpl.
  - rewrite (word_not_white c Ew). simpl.
    pose proof (word_not_upper c Ew Hc) as Hl.
    rewrite (space_or_word c Hl), Hl. simpl. now apply IH.
  - destruct (isWhiteSpace c) eqn:Es; simpl.
    + rewrite Es. destruct b; [now apply IH|]. simpl. now apply IH.
    + destruct b; [now apply IH|]. simpl. now apply IH.
Qed.

Lemma spaced_trimStart (b : bool) (s : string) :
  spaced b s = true -> spaced true (trimStart s) = true.
Proof.
  revert b. induction s as [|c r IH]; intros b H; simpl in *; [reflexivity|].
  destruct (isSpace c) eqn:Ec.
  - apply andb_true_iff in H. destruct H as [_ H].
    apply isSpace_eq in Ec. subst c. simpl. now apply (IH true).
  - apply andb_true_iff in H. destruct H as [Hc H].
    rewrite (lowerWord_not_white c Hc). simpl. now rewrite Ec, Hc, H.
Qed.

Lemma spaced_trimEnd (b : bool) (s : string) :
  spaced b s = true -> spaced b (trimEnd s) = true.
Proof.
  revert b. induction s as [|c r IH]; intros b H; [reflexivity|].
  simpl in H. simpl trimEnd.
  destruct (isSpace c) eqn:Ec.
  - apply andb_true_iff in H. destruct H as [Hb H].
    specialize (IH true H).
    destruct (trimEnd r) as [|c' r'] eqn:Et.
    + destruct (isWhiteSpace c); [reflexivity|]. simpl. now rewrite Ec, Hb.
    + simpl. rewrite Ec, Hb. exact IH.
  - apply andb_true_iff in H. destruct H as [Hc H].
    specialize (IH false H).
    destruct (trimEnd r) as [|c' r'] eqn:Et.
    + destruct (isWhiteSpace c); [reflexivity|]. simpl. now rewrite Ec, Hc.
    + simpl. rewrite Ec, Hc. exact IH.
Qed.

Lemma endsInWord_trimEnd (s : string) : endsInWord (trimEnd s) = true.
Proof.
  induction s as [|c r IH]; [reflexivity|]. simpl trimEnd.
  destruct (trimEnd r) as [|c' r'] eqn:Et.
  - destruct (isWhiteSpace c) eqn:Ec; [reflexivity|]. simpl. now rewrite Ec.
  - exact IH.
Qed.

Lemma preprocessText_normal (text : string) : normal (preprocessText text) = true.
Proof.
  unfold preprocessText. destruct (isEmpty text); [reflexivity|].
  unfold normal, trim. apply andb_true_iff. split.
  - apply spaced_trimEnd. apply (spaced_trimStart false).
    apply collapse_replaceSpecial_spaced.
    apply replaceTags_noUpper. apply toLowerCase_noUpper.
  - apply endsInWord_trimEnd.
Qed.

End PreprocessFacts.

(** C6.  [preprocessText] is idempotent: for every string [x],
    [preprocessText(preprocessText(x))] equals [preprocessText(x)]. *)
Theorem preprocessText_idempotent :
  forall x : string,
    TextProcessing.preprocessText (TextProcessing.preprocessText x)
    = TextProcessing.preprocessText x.
Proof.
  intro x. apply PreprocessFacts.normal_fixed. apply PreprocessFacts.preprocessText_normal.
Qed.

(* ===================================================================== *)
(** * Facts about candidate collection *)
(* ===================================================================== *)

Module CollectFacts.

Import Recommendations Invariants.

Lemma includes_In (x : string) (l : list string) :
  JsString.includes x l = true <-> In x l.
Proof.
  unfold JsString.includes. rewrite existsb_exists. split.
  - intros [y [Hy E]]. apply String.eqb_eq in E. now subst.
  - intros H. exists x. split; [assumption | apply String.eqb_refl].
Qed.

Lemma includes_not_In (x : string) (l : list string) :
  JsString.includes x l = false <-> ~ In x l.
Proof.
  rewrite <- includes_In. destruct (JsString.includes x l); split; congruence.
Qed.

Lemma NoDup_snoc {A : Type} (l : list A) (x : A) :
  NoDup l -> ~ In x l -> NoDup (l ++ [x]).
Proof.
  induction 1 as [|y l Hy Hnd IH]; intros Hx; simpl.
  - constructor; [intros [] | constructor].
  - constructor.
    + intros Hin. apply in_app_or in Hin. destruct Hin as [Hin|[E|[]]].
      * contradiction.
      * apply Hx. now left.
    + apply IH. intros Hin. apply Hx. now right.
Qed.

Lemma dedupeStep_inv favoriteIds st podcast :
  dedupeInv favoriteIds st -> dedupeInv favoriteIds (dedupeStep favoriteIds st podcast).
Proof.
  destruct st as [uniq seen]. intros (Hnd & Hseen & Hfav).
  unfold dedupeStep.
  destruct (JsString.includes (id podcast) seen) eqn:Es; simpl;
    [repeat split; assumption|].
  destruct (JsString.includes (id podcast) favoriteIds) eqn:Ef; simpl;
    [repeat split; assumption|].
  apply includes_not_In in Es. apply includes_not_In in Ef.
  simpl in *. repeat split; simpl.
  - rewrite map_app. simpl. apply NoDup_snoc; [assumption|].
    intros Hin. apply in_map_iff in Hin. destruct Hin as [p [Ep Hp]].
    apply Es. rewrite <- Ep. now apply Hseen.
  - intros p Hp. apply in_app_or in Hp. destruct Hp as [Hp|[->|[]]].
    + right. now apply Hseen.
    + now left.
  - intros p Hp. apply in_app_or in Hp. destruct Hp as [Hp|[->|[]]].
    + now apply Hfav.
    + assumption.
Qed.

Lemma dedupe_fold_inv favoriteIds candidates st :
  dedupeInv favoriteIds st ->
  dedupeInv favoriteIds (fold_left (dedupeStep favoriteIds) candidates st).
Proof.
  revert st. induction candidates as [|p ps IH]; intros st Hst; simpl.
  - assumption.
  - apply IH. now apply dedupeStep_inv.
Qed.

Lemma uniqueCandidatesOf_spec favoriteIds candidates :
  NoDup (map id (uniqueCandidatesOf favoriteIds candidates))
  /\ forall p, In p (uniqueCandidatesOf favoriteIds candidates) ->
               ~ In (id p) favoriteIds.
Proof.
  unfold uniqueCandidatesOf.
  destruct (dedupe_fold_inv favoriteIds candidates ([], [])) as (H1 & _ & H3).
  - repeat split; simpl; [constructor | contradiction | contradiction].
  - split; assumption.
Qed.

End CollectFacts.

(** C5.  Whatever the catalog answers and whatever the favorites are, the
    array [getCandidatePodcasts] returns has no two entries with the same id
    and no entry whose id is the id of a favorite; the same holds of the
    deduplication loop run on any accumulated array of podcasts. *)
Theorem getCandidatePodcasts_unique_and_unfavorited :
  (forall (favoriteIds : list string) (accumulated : list Podcast),
      NoDup (map id (Recommendations.uniqueCandidatesOf favoriteIds accumulated))
      /\ forall p, In p (Recommendations.uniqueCandidatesOf favoriteIds accumulated) ->
                   ~ In (id p) favoriteIds)
  /\ (forall stopwords tokenize listTerms best_podcasts search
             (favoritePodcasts : list Podcast),
        let collected :=
          Recommendations.getCandidatePodcasts stopwords tokenize listTerms
            best_podcasts search favoritePodcasts in
        NoDup (map id collected)
        /\ forall p f, In p collected -> In f favoritePodcasts -> id p <> id f).
Proof.
  split.
  - intros. apply CollectFacts.uniqueCandidatesOf_spec.
  - intros stopwords tokenize listTerms best_podcasts search favoritePodcasts collected.
    subst collected. unfold Recommendations.getCandidatePodcasts.
    destruct favoritePodcasts as [|f0 fs].
    + split; [constructor | intros p f []].
    + match goal with
      | |- context [Recommendations.uniqueCandidatesOf ?ids ?cs] =>
          destruct (CollectFacts.uniqueCandidatesOf_spec ids cs) as [Hnd Hfav]
      end.
      split; [exact Hnd|].
      intros p f Hp Hf E. apply (Hfav p Hp). rewrite E. now apply in_map.
Qed.

(* ===================================================================== *)
(** * Facts about [Array.prototype.sort] *)
(* ===================================================================== *)

Module SortFacts.

Import FloatOrder FloatOrderFacts Invariants.

Lemma In_firstn {A : Type} (n : nat) (l : list A) (y : A) :
  In y (firstn n l) -> In y l.
Proof.
  revert n. induction l as [|x l IH]; intros n H.
  - now rewrite firstn_nil in H.
  - destruct n as [|n]; simpl in H; [contradiction|].
    destruct H as [->|H]; [now left | right; eapply IH; eassumption].
Qed.

Section AnyComparison.

Context {A : Type} (comparefn : A -> A -> float).

Lemma sortInsert_In (x y : A) (l : list A) :
  In y (Js.sortInsert comparefn x l) <-> y = x \/ In y l.
Proof.
  induction l as [|z l IH]; simpl.
  - intuition.
  - destruct (PrimFloat.ltb 0 (comparefn x z)); simpl; [rewrite IH|]; intuition.
Qed.

Lemma Array_sort_In (y : A) (l : list A) :
  In y (Js.Array_sort comparefn l) <-> In y l.
Proof.
  unfold Js.Array_sort. induction l as [|x l IH]; simpl; [reflexivity|].
  rewrite sortInsert_In, IH. intuition.
Qed.

Lemma sortInsert_length (x : A) (l : list A) :
  List.length (Js.sortInsert comparefn x l) = S (List.length l).
Proof.
  induction l as [|z l IH]; simpl; [reflexivity|].
  destruct (PrimFloat.ltb 0 (comparefn x z)); simpl; congruence.
Qed.

Lemma Array_sort_length (l : list A) :
  List.length (Js.Array_sort comparefn l) = List.length l.
Proof.
  unfold Js.Array_sort. induction l as [|x l IH]; simpl; [reflexivity|].
  now rewrite sortInsert_length, IH.
Qed.

End AnyComparison.

Section ByScore.

Context {A : Type} (scoreOf : A -> float).

Lemma sortInsert_descending (x : A) (l : list A) :
  Js.isNaNf (scoreOf x) = false ->
  Forall (fun y => Js.isNaNf (scoreOf y) = false) l ->
  descending scoreOf l ->
  descending scoreOf (Js.sortInsert (fun a b => PrimFloat.sub (scoreOf b) (scoreOf a)) x l).
Proof.
  intros Nx. apply isNaNf_key in Nx. destruct Nx as [kx Kx].
  induction l as [|y l IH]; intros Hnan Hsorted; simpl.
  - constructor; constructor.
  - inversion Hnan as [|? ? Ny Hnan']; subst.
    inversion Hsorted as [|? ? Hs Hall]; subst.
    pose proof Ny as Ny'. apply isNaNf_key in Ny'. destruct Ny' as [ky Ky].
    rewrite FloatSubFacts.ltb_zero_sub
      by (try assumption; apply isNaNf_key; eauto).
    destruct (PrimFloat.ltb (scoreOf x) (scoreOf y)) eqn:E.
    + constructor; [now apply IH|].
      apply Forall_forall. intros z Hz. apply sortInsert_In in Hz.
      destruct Hz as [->|Hz].
      * apply (leb_known _ _ kx ky Kx Ky). left.
        now apply (ltb_known _ _ kx ky Kx Ky).
      * rewrite Forall_forall in Hall. now apply Hall.
    + apply (ltb_known_false _ _ kx ky Kx Ky) in E.
      constructor; [assumption|].
      constructor; [now apply (leb_known _ _ ky kx Ky Kx)|].
      rewrite Forall_forall in Hall, Hnan' |- *. intros z Hz.
      pose proof (Hnan' z Hz) as Nz. apply isNaNf_key in Nz.
      destruct Nz as [kz Kz].
      apply (leb_known _ _ kz kx Kz Kx).
      eapply lexLe_trans; [|exact E].
      apply (leb_known _ _ kz ky Kz Ky). now apply Hall.
Qed.

(** Sorting with [(a, b) => score(b) - score(a)] puts the scores in
    descending order, provided none of them is NaN. *)
Lemma Array_sort_descending (l : list A) :
  Forall (fun y => Js.isNaNf (scoreOf y) = false) l ->
  descending scoreOf (Js.Array_sort (fun a b => PrimFloat.sub (scoreOf b) (scoreOf a)) l).
Proof.
  unfold Js.Array_sort. induction l as [|x l IH]; intros Hnan; simpl.
  - constructor.
  - inversion Hnan as [|? ? Nx Hnan']; subst.
    apply sortInsert_descending; [assumption| |now apply IH].
    apply Forall_forall. intros y Hy.
    apply (Array_sort_In _ y l) in Hy.
    rewrite Forall_forall in Hnan'. now apply Hnan'.
Qed.

Lemma descending_firstn (n : nat) (l : list A) :
  descending scoreOf l -> descending scoreOf (firstn n l).
Proof.
  revert n. induction l as [|x l IH]; intros n H.
  - rewrite firstn_nil. constructor.
  - destruct n as [|n]; simpl; [constructor|].
    inversion H as [|? ? Hs Hall]; subst.
    constructor; [now apply IH|].
    rewrite Forall_forall in Hall |- *. intros y Hy. apply Hall.
    eapply In_firstn. eassumption.
Qed.

End ByScore.

End SortFacts.

(* ===================================================================== *)
(** * Facts about the ranker *)
(* ===================================================================== *)

Module RankFacts.

Import FloatOrder FloatOrderFacts Recommendations Invariants.

Lemma mostSimilarOf_fold l first :
  mostSimilarOf l first = fold_left keepBest l first.
Proof. reflexivity. Qed.

(** A running best whose score is NaN is never replaced. *)
Lemma keepBest_nan l cur :
  key (Item.score cur) = None -> fold_left keepBest l cur = cur.
Proof.
  intros Hnan. induction l as [|y l IH]; simpl; [reflexivity|].
  unfold keepBest at 2.
  destruct (PrimFloat.ltb (Item.score cur) (Item.score y)) eqn:E; [|exact IH].
  apply ltb_key in E. destruct E as (a & b & Ea & _). congruence.
Qed.

(** The result of the [reduce] is the initial value or an element, and no
    element, nor the initial value, has a greater score. *)
Lemma keepBest_max l cur :
  (fold_left keepBest l cur = cur \/ In (fold_left keepBest l cur) l)
  /\ forall x, x = cur \/ In x l ->
               PrimFloat.ltb (Item.score (fold_left keepBest l cur)) (Item.score x)
               = false.
Proof.
  revert cur. induction l as [|y l IH]; intros cur; simpl.
  - split; [now left|]. intros x [->|[]]. apply ltb_irrefl.
  - specialize (IH (keepBest cur y)).
    assert (K : keepBest cur y
                = if PrimFloat.ltb (Item.score cur) (Item.score y) then y else cur)
      by reflexivity.
    destruct (PrimFloat.ltb (Item.score cur) (Item.score y)) eqn:E;
      rewrite K in IH |- *; clear K; destruct IH as [Hin Hmax].
    + (* the element replaces the running best *)
      split; [destruct Hin as [Hin|Hin]; right; [now left | now right]|].
      intros x [->|[->|Hx]].
      * destruct (PrimFloat.ltb (Item.score (fold_left keepBest l y)) (Item.score cur))
          eqn:E'; [|reflexivity].
        rewrite <- (Hmax y (or_introl eq_refl)). symmetry.
        eapply ltb_trans; eassumption.
      * apply Hmax. now left.
      * apply Hmax. now right.
    + (* the running best stays *)
      split; [destruct Hin as [Hin|Hin]; [now left | right; now right]|].
      intros x [->|[->|Hx]].
      * apply Hmax. now left.
      * destruct (key (Item.score cur)) as [kc|] eqn:Kc.
        -- destruct (PrimFloat.ltb (Item.score (fold_left keepBest l cur)) (Item.score x))
             eqn:E'; [|reflexivity].
           apply ltb_key in E'. destruct E' as (kr & ky & Kr & Ky & L).
           pose proof (Hmax cur (or_introl eq_refl)) as Hc.
           apply (ltb_known_false _ _ kr kc Kr Kc) in Hc.
           apply (ltb_known_false _ _ kc ky Kc Ky) in E.
           exfalso. eapply lexLt_irrefl.
           eapply lexLt_le_trans; [exact L|].
           eapply lexLe_trans; eassumption.
        -- rewrite (keepBest_nan l cur Kc). exact E.
      * apply Hmax. now right.
Qed.



End RankFacts.

(** How [rankCandidates] and [generateRecommendations] are put together. *)
Module RankingFacts.

Import FloatOrder FloatOrderFacts Recommendations.

Section Services.

Variable stopwords : list string.
Variable tokenize : string -> list string.
Variable listTerms : string -> list (string * float).
Variable featureExtraction : string -> option (list float).
Variable c : Similarity.cache.

Local Abbreviation rank := (rankCandidates stopwords tokenize listTerms featureExtraction c).
Local Abbreviation scoreWith :=
  (scoreCandidate stopwords tokenize listTerms featureExtraction).

Lemma rankCandidates_cons f0 fs candidatePodcasts :
  candidatePodcasts <> [] ->
  rank (f0 :: fs) candidatePodcasts
  = Js.Array_sort
      (fun a b => PrimFloat.sub (Ranked.similarityScore b) (Ranked.similarityScore a))
      (map (scoreWith
              (cacheAfterFavorites featureExtraction c (f0 :: fs))
              (favoriteEmbeddingOf stopwords tokenize listTerms featureExtraction c f0)
              (favoriteEmbeddingsOf stopwords tokenize listTerms featureExtraction c fs))
           candidatePodcasts).
Proof.
  intros Hne. unfold rankCandidates.
  destruct candidatePodcasts as [|c0 cs]; [congruence | reflexivity].
Qed.

(** Every ranked record is the scoring of one candidate against all the
    favorites. *)
Lemma rankCandidates_In favoritePodcasts candidatePodcasts r :
  In r (rank favoritePodcasts candidatePodcasts) ->
  exists f0 fs candidate,
    favoritePodcasts = f0 :: fs
    /\ In candidate candidatePodcasts
    /\ r = scoreWith
             (cacheAfterFavorites featureExtraction c favoritePodcasts)
             (favoriteEmbeddingOf stopwords tokenize listTerms featureExtraction c f0)
             (favoriteEmbeddingsOf stopwords tokenize listTerms featureExtraction c fs)
             candidate.
Proof.
  destruct favoritePodcasts as [|f0 fs]; [intros []|].
  destruct candidatePodcasts as [|c0 cs]; [intros []|].
  rewrite rankCandidates_cons by discriminate.
  intros H. apply SortFacts.Array_sort_In in H.
  apply in_map_iff in H. destruct H as (candidate & E & Hc).
  exists f0, fs, candidate. repeat split; [assumption | now symmetry].
Qed.

Lemma rankCandidates_length favoritePodcasts candidatePodcasts :
  List.length (rank favoritePodcasts candidatePodcasts)
  = match favoritePodcasts with
    | [] => 0
    | _ => List.length candidatePodcasts
    end.
Proof.
  destruct favoritePodcasts as [|f0 fs]; [reflexivity|].
  destruct candidatePodcasts as [|c0 cs]; [reflexivity|].
  rewrite rankCandidates_cons by discriminate.
  now rewrite SortFacts.Array_sort_length, length_map.
Qed.

Lemma rankCandidates_descending favoritePodcasts candidatePodcasts :
  Forall (fun r => Js.isNaNf (Ranked.similarityScore r) = false)
         (rank favoritePodcasts candidatePodcasts) ->
  Invariants.descending Ranked.similarityScore
    (rank favoritePodcasts candidatePodcasts).
Proof.
  destruct favoritePodcasts as [|f0 fs]; [constructor|].
  destruct candidatePodcasts as [|c0 cs]; [constructor|].
  rewrite rankCandidates_cons by discriminate.
  intros H. apply SortFacts.Array_sort_descending.
  apply Forall_forall. intros r Hr. rewrite Forall_forall in H. apply H.
  now apply SortFacts.Array_sort_In.
Qed.

Lemma dereference_present (l : list Podcast) :
  dereference (map Some l) = Returned l.
Proof. induction l as [|x l IH]; simpl; [reflexivity | now rewrite IH]. Qed.

Lemma recommendationsOf_map (l : list Ranked.t) :
  map Recommendation.similarity_score (recommendationsOf stopwords l) = map Ranked.matchScore l
  /\ map Recommendation.podcast (recommendationsOf stopwords l) = map Ranked.podcast l.
Proof.
  induction l as [|r l [IH1 IH2]]; simpl; [split; reflexivity|].
  split; congruence.
Qed.

Lemma recommendationsOf_firstn (n : nat) (l : list Ranked.t) :
  firstn n (recommendationsOf stopwords l) = recommendationsOf stopwords (firstn n l).
Proof.
  revert n. induction l as [|r l IH]; intros n.
  - now rewrite !firstn_nil.
  - destruct n as [|n]; [reflexivity|]. simpl. now rewrite IH.
Qed.

Lemma recommendationsOf_length (l : list Ranked.t) :
  List.length (recommendationsOf stopwords l) = List.length l.
Proof. induction l as [|r l IH]; simpl; congruence. Qed.

Lemma generateRecommendations_present favorites candidates :
  generateRecommendations stopwords tokenize listTerms featureExtraction c
    (Some (map Some favorites)) (Some (map Some candidates))
  = Returned (firstn 10 (recommendationsOf stopwords (rank favorites candidates))).
Proof.
  unfold generateRecommendations.
  destruct favorites as [|f0 fs]; [reflexivity|].
  destruct candidates as [|c0 cs]; [reflexivity|].
  cbn [map]. rewrite <- !map_cons, !dereference_present. unfold tryCatch.
  destruct (rank (f0 :: fs) (c0 :: cs)); reflexivity.
Qed.

End Services.

End RankingFacts.


(** C9.  [generateRecommendations] called with a missing or empty favorites
    list, or with a missing or empty candidates list, returns the empty
    array; and whatever it is called with, it returns and does not throw. *)
Theorem generateRecommendations_empty_inputs :
  forall (stopwords : list string) (tokenize : string -> list string)
         (listTerms : string -> list (string * float))
         (featureExtraction : string -> option (list float))
         (c : Similarity.cache)
         (favorites candidates : option (list (option Podcast))),
    let run := Recommendations.generateRecommendations stopwords tokenize listTerms
                 featureExtraction c in
    run None candidates = Returned []
    /\ run (Some []) candidates = Returned []
    /\ run favorites None = Returned []
    /\ run favorites (Some []) = Returned []
    /\ run favorites candidates <> Thrown.
Proof.
  intros stopwords tokenize listTerms featureExtraction c favorites candidates run.
  subst run. unfold Recommendations.generateRecommendations.
  repeat split.
  - now destruct favorites as [[|f fs]|].
  - now destruct favorites as [[|f fs]|].
  - destruct favorites as [[|f fs]|], candidates as [[|x xs]|]; try discriminate.
    unfold Recommendations.tryCatch.
    destruct (Recommendations.dereference (f :: fs)); [|discriminate].
    destruct (Recommendations.dereference (x :: xs)); [|discriminate].
    destruct (Recommendations.rankCandidates _ _ _ _ _ _ _); discriminate.
Qed.


(** C1 (as stated, refuted).  With two favorites and two candidates the
    returned array holds the record with [similarity_score] 0.4949... first
    and the record with [similarity_score] 0.7 second: it is not in
    descending order of [similarity_score]. *)
Lemma generateRecommendations_not_sorted_by_similarity_score :
  exists first second : Recommendation.t,
    Recommendations.generateRecommendations Fixture.english Fixture.tokenize
      Fixture.listTerms Fixture.compass []
      (Some (map Some Fixture.twoFavorites)) (Some (map Some Fixture.twoCandidates))
    = Returned [first; second]
    /\ Recommendation.similarity_score first = 0.49497474683058318%float
    /\ Recommendation.similarity_score second = 0.69999999999999996%float
    /\ PrimFloat.ltb (Recommendation.similarity_score first)
                     (Recommendation.similarity_score second) = true.
Proof.
  do 2 eexists. split; [vm_compute; reflexivity|].
  repeat split; vm_compute; reflexivity.
Qed.

(** C1 (amended).  [generateRecommendations] returns at most 10 records;
    they are the first records of [rankCandidates], in its order, each with
    the candidate's [matchScore] (the combined score of its best pairing) as
    [similarity_score]; that order is descending in the ranked records'
    [similarityScore] (the mean over the favorites) whenever no mean is NaN,
    and not in the emitted [similarity_score]. *)
Theorem generateRecommendations_at_most_ten_in_rank_order :
  forall (stopwords : list string) (tokenize : string -> list string)
         (listTerms : string -> list (string * float))
         (featureExtraction : string -> option (list float))
         (c : Similarity.cache) (favorites candidates : list Podcast),
    let ranked :=
      Recommendations.rankCandidates stopwords tokenize listTerms featureExtraction c
        favorites candidates in
    exists out : list Recommendation.t,
      Recommendations.generateRecommendations stopwords tokenize listTerms
        featureExtraction c (Some (map Some favorites)) (Some (map Some candidates))
      = Returned out
      /\ List.length out <= 10
      /\ List.length out = Nat.min 10 (List.length ranked)
      /\ map Recommendation.podcast out = map Ranked.podcast (firstn 10 ranked)
      /\ map Recommendation.similarity_score out = map Ranked.matchScore (firstn 10 ranked)
      /\ (Forall (fun r => Js.isNaNf (Ranked.similarityScore r) = false) ranked ->
          Invariants.descending Ranked.similarityScore (firstn 10 ranked)).
Proof.
  intros stopwords tokenize listTerms featureExtraction c favorites candidates ranked.
  exists (firstn 10 (Recommendations.recommendationsOf stopwords ranked)).
  split; [apply RankingFacts.generateRecommendations_present|].
  split; [apply firstn_le_length|].
  split; [now rewrite length_firstn, RankingFacts.recommendationsOf_length|].
  rewrite RankingFacts.recommendationsOf_firstn.
  destruct (RankingFacts.recommendationsOf_map stopwords (firstn 10 ranked)) as [Hs Hp].
  split; [exact Hp|]. split; [exact Hs|].
  intros Hnan. apply SortFacts.descending_firstn.
  now apply RankingFacts.rankCandidates_descending.
Qed.

(** C1 (amended), at a concrete input: the two ranked records of the
    scenario above come in descending order of their mean. *)
Lemma generateRecommendations_rank_order_witness :
  Forall (fun r => Js.isNaNf (Ranked.similarityScore r) = false) Fixture.ranked
  /\ Invariants.descending Ranked.similarityScore (firstn 10 Fixture.ranked).
Proof.
  assert (Hnan : Forall (fun r => Js.isNaNf (Ranked.similarityScore r) = false)
                        Fixture.ranked)
    by (vm_compute; repeat constructor).
  split; [exact Hnan|].
  destruct (generateRecommendations_at_most_ten_in_rank_order
              Fixture.english Fixture.tokenize Fixture.listTerms Fixture.compass []
              Fixture.twoFavorites Fixture.twoCandidates)
    as (out & _ & _ & _ & _ & _ & Hsorted).
  exact (Hsorted Hnan).
Defined.

(* ===================================================================== *)
(** * Facts about the similarity engine *)
(* ===================================================================== *)

Module SimilarityFacts.

Import Similarity.
Local Open Scope float_scope.

(** The loop of [calculateTopicSimilarity] computes the two sums side by
    side. *)
Lemma topicLoop_sums (topicMapB entries : list (string * float)) (matched total : float) :
  fold_left (topicStep topicMapB) entries (matched, total)
  = (fold_left (fun sum entry =>
                  match mapGet (fst entry) topicMapB with
                  | Some scoreB => sum + Js.Math_min (snd entry) scoreB
                  | None => sum
                  end) entries matched,
     fold_left (fun sum entry => sum + snd entry) entries total).
Proof.
  revert matched total. induction entries as [|e es IH]; intros matched total; simpl.
  - reflexivity.
  - destruct (mapGet (fst e) topicMapB); apply IH.
Qed.

Lemma calculateTopicSimilarity_guarded (topicsA topicsB : list Topic) :
  calculateTopicSimilarity topicsA topicsB
  = match topicsA, topicsB with
    | [], _ | _, [] => 0
    | _, _ =>
        if 0 <? Claimed.totalMass (topicMap topicsA)
        then Claimed.matchedMass (topicMap topicsA) (topicMap topicsB)
             / Claimed.totalMass (topicMap topicsA)
        else 0
    end.
Proof.
  unfold calculateTopicSimilarity.
  destruct topicsA as [|a As]; [reflexivity|].
  destruct topicsB as [|b Bs]; [reflexivity|].
  rewrite topicLoop_sums. reflexivity.
Qed.

Lemma float_neq (x y : float) : PrimFloat.eqb x y = false -> Js.isNaNf x = false -> x <> y.
Proof.
  intros Hxy Hx E. subst y. unfold Js.isNaNf in Hx.
  apply negb_false_iff in Hx. congruence.
Qed.

Lemma dotProduct_self (v : list float) : dotProduct v v = sumSquares v.
Proof.
  unfold dotProduct, sumSquares. generalize 0.
  induction v as [|a v IH]; intros acc; simpl; [reflexivity | apply IH].
Qed.

Lemma sumSquares_zeroVector (n : nat) : sumSquares (zeroVector n) = 0.
Proof.
  unfold sumSquares, zeroVector.
  induction n as [|n IH]; simpl; [reflexivity|].
  change (0 + 0 * 0) with 0. exact IH.
Qed.

(** The magnitude of a vector compared with itself. *)
Lemma calculateCosineSimilarity_self (v : list float) :
  calculateCosineSimilarity v v
  = match v with
    | [] => 0
    | _ =>
        if PrimFloat.sqrt (sumSquares v) =? 0 then 0
        else sumSquares v / (PrimFloat.sqrt (sumSquares v) * PrimFloat.sqrt (sumSquares v))
    end.
Proof.
  unfold calculateCosineSimilarity. destruct v as [|a v]; [reflexivity|].
  rewrite Nat.eqb_refl. cbn [List.length Nat.eqb orb negb].
  rewrite dotProduct_self.
  now destruct (PrimFloat.sqrt (sumSquares (a :: v)) =? 0).
Qed.

Lemma calculateCosineSimilarity_zeroVector (v : list float) :
  calculateCosineSimilarity v (zeroVector (List.length v)) = 0.
Proof.
  unfold calculateCosineSimilarity.
  destruct v as [|a v]; [reflexivity|].
  unfold zeroVector at 1 2. rewrite !repeat_length, Nat.eqb_refl.
  cbn [List.length Nat.eqb orb negb].
  rewrite sumSquares_zeroVector.
  change (PrimFloat.sqrt 0 =? 0) with true. now rewrite orb_true_r.
Qed.

Lemma div_eucl_shift (m : positive) :
  Z.div_eucl (Z.shiftl (Zpos m) 53) (Zpos m) = (2 ^ 53, 0)%Z.
Proof.
  destruct (Z.div_eucl (Z.shiftl (Zpos m) 53) (Zpos m)) as [q r] eqn:Ed.
  assert (Hq : q = (Z.shiftl (Zpos m) 53 / Zpos m)%Z) by (unfold Z.div; now rewrite Ed).
  assert (Hr : r = (Z.shiftl (Zpos m) 53 mod Zpos m)%Z)
    by (unfold Z.modulo; now rewrite Ed).
  rewrite Z.shiftl_mul_pow2 in Hq, Hr by lia.
  rewrite Z.mul_comm, Z.div_mul in Hq by lia.
  rewrite Z.mul_comm, Z.mod_mul in Hr by lia.
  now subst.
Qed.

(** A finite number other than zero, divided by itself, is exactly 1. *)
Lemma div_self (x : float) (sg : bool) (m : positive) (e : Z) :
  Prim2SF x = S754_finite sg m e -> x / x = 1.
Proof.
  intros E. apply Prim2SF_inj. rewrite FloatAxioms.div_spec, E.
  unfold SF64div, SFdiv, SFdiv_core_binary.
  replace (Zdigits2 (Zpos m) + e - (Zdigits2 (Zpos m) + e))%Z with 0%Z by lia.
  replace (e - e)%Z with 0%Z by lia.
  change (Z.min (fexp prec emax 0) 0) with (-53)%Z.
  change (0 - -53)%Z with 53%Z. cbv iota.
  rewrite div_eucl_shift.
  replace (new_location (Zpos m) 0) with loc_Exact
    by (unfold new_location; now destruct (Z.even (Zpos m))).
  destruct sg; vm_compute; reflexivity.
Qed.

Lemma between_zero_and_infinity (s : float) :
  PrimFloat.ltb 0 s = true -> PrimFloat.ltb s infinity = true ->
  exists m e, Prim2SF s = S754_finite false m e.
Proof.
  rewrite !FloatAxioms.ltb_spec.
  change (Prim2SF 0) with (S754_zero false).
  change (Prim2SF infinity) with (S754_infinity false).
  destruct (Prim2SF s) as [[|]|[|]| |[|] m e]; try discriminate.
  intros _ _. eauto.
Qed.

Lemma eqb_finite (x y : float) (m : positive) (e : Z) :
  Prim2SF y = S754_finite false m e -> PrimFloat.eqb x y = true -> x = y.
Proof.
  intros Ey H. apply Prim2SF_inj. rewrite Ey.
  rewrite FloatAxioms.eqb_spec, Ey in H. unfold SFeqb, SFcompare in H.
  destruct (Prim2SF x) as [sx|sx| |sx mx ex]; try discriminate;
    try (destruct sx; discriminate).
  destruct sx; [discriminate|].
  destruct (ex ?= e)%Z eqn:Ee; try discriminate.
  apply Z.compare_eq in Ee. subst ex.
  change (PosDef.Pos.compare_cont Eq mx m) with (mx ?= m)%positive in H.
  destruct (mx ?= m)%positive eqn:Em; try discriminate.
  apply Pos.compare_eq in Em. now subst.
Qed.

Lemma eqb_zero (x : float) :
  PrimFloat.eqb x 0 = true -> exists b, Prim2SF x = S754_zero b.
Proof.
  rewrite FloatAxioms.eqb_spec. change (Prim2SF 0) with (S754_zero false).
  unfold SFeqb, SFcompare.
  destruct (Prim2SF x) as [sx|sx| |sx mx ex]; try discriminate;
    try (destruct sx; discriminate).
  intros _. eauto.
Qed.

(** When the squared norm is a finite number above zero whose square root
    squares back to it, the cosine of a vector with itself is exactly 1. *)
Lemma calculateCosineSimilarity_self_exact (v : list float) :
  PrimFloat.ltb 0 (sumSquares v) = true ->
  PrimFloat.ltb (sumSquares v) infinity = true ->
  PrimFloat.eqb (PrimFloat.sqrt (sumSquares v) * PrimFloat.sqrt (sumSquares v))
                (sumSquares v) = true ->
  calculateCosineSimilarity v v = 1.
Proof.
  intros Hpos Hfin Hsq.
  destruct (between_zero_and_infinity _ Hpos Hfin) as (m & e & Es).
  pose proof (eqb_finite _ _ m e Es Hsq) as Em.
  rewrite calculateCosineSimilarity_self.
  destruct v as [|a v]; [discriminate Es|].
  destruct (PrimFloat.sqrt (sumSquares (a :: v)) =? 0) eqn:Ez.
  - apply eqb_zero in Ez. destruct Ez as [b Ez].
    assert (Hm : Prim2SF (PrimFloat.sqrt (sumSquares (a :: v))
                          * PrimFloat.sqrt (sumSquares (a :: v)))
                 = S754_zero (xorb b b))
      by (rewrite FloatAxioms.mul_spec, Ez; reflexivity).
    rewrite Em, Es in Hm. discriminate.
  - rewrite Em. exact (div_self _ _ _ _ Es).
Qed.

(** NaN is the one number that is not equal to itself. *)
Lemma isNaNf_nan (x : float) : Js.isNaNf x = true <-> Prim2SF x = S754_nan.
Proof.
  split.
  - intros H. destruct (FloatOrder.key x) as [a|] eqn:K.
    + assert (N : Js.isNaNf x = false)
        by (apply FloatOrderFacts.isNaNf_key; eauto).
      congruence.
    + unfold FloatOrder.key in K.
      destruct (Prim2SF x) as [[|]|[|]| |[|] m e]; try discriminate K. reflexivity.
  - intros H. destruct (Js.isNaNf x) eqn:N; [reflexivity|].
    apply FloatOrderFacts.isNaNf_key in N. destruct N as [a K].
    unfold FloatOrder.key in K. rewrite H in K. discriminate K.
Qed.

(** When the squared norm has overflowed, or is NaN, the cosine of a vector
    with itself is NaN. *)
Lemma calculateCosineSimilarity_self_overflow (v : list float) :
  v <> [] ->
  Js.isNaNf (sumSquares v) = true \/ PrimFloat.eqb (sumSquares v) infinity = true ->
  Js.isNaNf (calculateCosineSimilarity v v) = true.
Proof.
  intros Hne H. rewrite calculateCosineSimilarity_self.
  destruct v as [|a v]; [congruence|].
  set (s := sumSquares (a :: v)) in *.
  assert (Hs : Prim2SF s = S754_nan \/ Prim2SF s = S754_infinity false).
  { destruct H as [H | H]; [left; now apply isNaNf_nan|right].
    rewrite FloatAxioms.eqb_spec in H.
    change (Prim2SF infinity) with (S754_infinity false) in H.
    destruct (Prim2SF s) as [[|]|[|]| |[|] m e]; try discriminate H. reflexivity. }
  assert (Hroot : Prim2SF (PrimFloat.sqrt s) = Prim2SF s).
  { rewrite FloatAxioms.sqrt_spec. destruct Hs as [-> | ->]; reflexivity. }
  assert (Hzero : PrimFloat.eqb (PrimFloat.sqrt s) 0 = false).
  { rewrite FloatAxioms.eqb_spec, Hroot. destruct Hs as [-> | ->]; reflexivity. }
  rewrite Hzero. apply isNaNf_nan.
  rewrite FloatAxioms.div_spec, FloatAxioms.mul_spec, Hroot.
  destruct Hs as [-> | ->]; reflexivity.
Qed.

End SimilarityFacts.

(** C8 (as stated, refuted).  For the topic lists A = B = [{term: "x",
    score: 0}], neither of them empty, [calculateTopicSimilarity] returns 0,
    while the matched sum divided by the sum of A's scores is 0 / 0, which
    is NaN. *)
Lemma calculateTopicSimilarity_zero_mass_not_the_quotient :
  Similarity.calculateTopicSimilarity
    [{| term := "x"; score := 0 |}] [{| term := "x"; score := 0 |}] = 0%float
  /\ Js.isNaNf (Claimed.topicSimilarity
                  [{| term := "x"; score := 0 |}] [{| term := "x"; score := 0 |}]) = true
  /\ Similarity.calculateTopicSimilarity
       [{| term := "x"; score := 0 |}] [{| term := "x"; score := 0 |}]
     <> Claimed.topicSimilarity
          [{| term := "x"; score := 0 |}] [{| term := "x"; score := 0 |}].
Proof.
  split; [vm_compute; reflexivity|]. split; [vm_compute; reflexivity|].
  apply SimilarityFacts.float_neq; vm_compute; reflexivity.
Qed.

(** C8 (amended).  [calculateTopicSimilarity(A, B)] returns 0 if either list
    is empty; otherwise, with the sums taken over A's term-to-score map, it
    returns the sum over the terms of A that B has too of the smaller of the
    two scores, divided by the sum of all of A's scores, when that sum is
    greater than 0, and 0 when it is not.  The quantity is not symmetric in
    A and B. *)
Theorem calculateTopicSimilarity_matched_share :
  (forall topicsA topicsB : list Topic,
      Similarity.calculateTopicSimilarity topicsA topicsB
      = match topicsA, topicsB with
        | [], _ | _, [] => 0%float
        | _, _ =>
            if PrimFloat.ltb 0 (Claimed.totalMass (Similarity.topicMap topicsA))
            then Claimed.topicSimilarity topicsA topicsB
            else 0%float
        end)
  /\ (exists topicsA topicsB : list Topic,
         Similarity.calculateTopicSimilarity topicsA topicsB
         <> Similarity.calculateTopicSimilarity topicsB topicsA).
Proof.
  split.
  - intros topicsA topicsB.
    rewrite SimilarityFacts.calculateTopicSimilarity_guarded.
    destruct topicsA as [|a As]; [reflexivity|].
    destruct topicsB as [|b Bs]; reflexivity.
  - exists [{| term := "x"; score := 1 |}; {| term := "y"; score := 1 |}],
           [{| term := "x"; score := 1 |}].
    apply SimilarityFacts.float_neq; vm_compute; reflexivity.
Qed.

(** C7 (as stated, refuted).  For the vector [1, 1], which is not the zero
    vector, [calculateCosineSimilarity(v, v)] is 0.9999999999999998: the
    square root of 2, squared, is 2.0000000000000004. *)
Lemma calculateCosineSimilarity_self_not_one :
  Similarity.calculateCosineSimilarity [1; 1]%float [1; 1]%float = 0.99999999999999978%float
  /\ Similarity.calculateCosineSimilarity [1; 1]%float [1; 1]%float <> 1%float.
Proof.
  split; [vm_compute; reflexivity|].
  apply SimilarityFacts.float_neq; vm_compute; reflexivity.
Qed.

(** C7 (amended).  For every numeric vector [v],
    [calculateCosineSimilarity(v, z)] is 0 for the zero vector [z] of the
    length of [v]; [calculateCosineSimilarity(v, v)] is 0 for the empty
    vector and for a vector whose magnitude is computed as 0, and otherwise
    the squared norm [s] divided by the square of its computed square root:
    that is exactly 1 whenever [s] is finite, above zero, and its square
    root squares back to [s], and it is NaN whenever [s] has overflowed to
    Infinity or is NaN. *)
Theorem calculateCosineSimilarity_zero_and_self :
  (forall v : list float,
      Similarity.calculateCosineSimilarity v (Similarity.zeroVector (List.length v))
      = 0%float)
  /\ (forall v : list float,
         Similarity.calculateCosineSimilarity v v
         = match v with
           | [] => 0%float
           | _ =>
               let s := Similarity.sumSquares v in
               if PrimFloat.eqb (PrimFloat.sqrt s) 0 then 0%float
               else (s / (PrimFloat.sqrt s * PrimFloat.sqrt s))%float
           end)
  /\ (forall v : list float,
         let s := Similarity.sumSquares v in
         PrimFloat.ltb 0 s = true ->
         PrimFloat.ltb s infinity = true ->
         PrimFloat.eqb (PrimFloat.sqrt s * PrimFloat.sqrt s) s = true ->
         Similarity.calculateCosineSimilarity v v = 1%float)
  /\ (forall v : list float,
         let s := Similarity.sumSquares v in
         v <> [] ->
         Js.isNaNf s = true \/ PrimFloat.eqb s infinity = true ->
         Js.isNaNf (Similarity.calculateCosineSimilarity v v) = true).
Proof.
  split; [exact SimilarityFacts.calculateCosineSimilarity_zeroVector|].
  split; [exact SimilarityFacts.calculateCosineSimilarity_self|].
  split; [exact SimilarityFacts.calculateCosineSimilarity_self_exact|].
  exact SimilarityFacts.calculateCosineSimilarity_self_overflow.
Qed.

(** C7 (amended), at a concrete input: for [3, 4] the squared norm is 25
    and its square root 5, so the cosine of the vector with itself is 1;
    with the zero vector it is 0; and for [1e200] the squared norm
    overflows, so the cosine of the vector with itself is NaN. *)
Lemma calculateCosineSimilarity_three_four_witness :
  PrimFloat.ltb 0 (Similarity.sumSquares [3; 4]%float) = true
  /\ PrimFloat.ltb (Similarity.sumSquares [3; 4]%float) infinity = true
  /\ PrimFloat.eqb (PrimFloat.sqrt (Similarity.sumSquares [3; 4]%float)
                    * PrimFloat.sqrt (Similarity.sumSquares [3; 4]%float))
                   (Similarity.sumSquares [3; 4]%float) = true
  /\ Similarity.calculateCosineSimilarity [3; 4]%float [3; 4]%float = 1%float
  /\ Similarity.calculateCosineSimilarity [3; 4]%float (Similarity.zeroVector 2) = 0%float
  /\ PrimFloat.eqb (Similarity.sumSquares [1e200]%float) infinity = true
  /\ Js.isNaNf (Similarity.calculateCosineSimilarity [1e200]%float [1e200]%float) = true.
Proof.
  assert (H1 : PrimFloat.ltb 0 (Similarity.sumSquares [3; 4]%float) = true)
    by (vm_compute; reflexivity).
  assert (H2 : PrimFloat.ltb (Similarity.sumSquares [3; 4]%float) infinity = true)
    by (vm_compute; reflexivity).
  assert (H3 : PrimFloat.eqb (PrimFloat.sqrt (Similarity.sumSquares [3; 4]%float)
                              * PrimFloat.sqrt (Similarity.sumSquares [3; 4]%float))
                             (Similarity.sumSquares [3; 4]%float) = true)
    by (vm_compute; reflexivity).
  assert (H4 : PrimFloat.eqb (Similarity.sumSquares [1e200]%float) infinity = true)
    by (vm_compute; reflexivity).
  destruct calculateCosineSimilarity_zero_and_self as (Hz & _ & Hs & Hn).
  split; [exact H1|]. split; [exact H2|]. split; [exact H3|].
  split; [exact (Hs [3; 4]%float H1 H2 H3)|].
  split; [exact (Hz [3; 4]%float)|]. split; [exact H4|].
  apply (Hn [1e200]%float); [discriminate | right; exact H4].
Defined.

(* ===================================================================== *)
(** * Facts about the query diversifier *)
(* ===================================================================== *)

Module QueryFacts.

Import JsString SearchUtil.

Lemma sameQuery_eq (a b : Query) : sameQuery a b = true <-> a = b.
Proof.
  destruct a as [qa ta sa pa oa ma], b as [qb tb sb pb ob mb].
  unfold sameQuery. cbn [q type sort_by_date page_size only_in safe_mode].
  rewrite !andb_true_iff, !String.eqb_eq, !Nat.eqb_eq. split.
  - intros [[[[[-> ->] ->] ->] ->] ->]. reflexivity.
  - intros E. injection E. intros. subst. repeat split.
Qed.

(** Deduplication drops nothing that has not been seen before. *)
Lemma uniqueBy_keeps (x : Query) (l seen : list Query) :
  In x l -> In x seen \/ In x (Js.uniqueBy sameQuery seen l).
Proof.
  revert seen. induction l as [|y l IH]; intros seen H; [contradiction|].
  simpl. destruct (existsb (sameQuery y) seen) eqn:Es.
  - destruct H as [->|H]; [|now apply IH].
    left. apply existsb_exists in Es. destruct Es as (z & Hz & E).
    apply sameQuery_eq in E. now subst.
  - destruct H as [->|H]; [right; now left|].
    destruct (IH (y :: seen) H) as [[->|Hs]|Hr].
    + right. now left.
    + now left.
    + right. now right.
Qed.

Lemma removeDuplicateQueries_keeps (x : Query) (l : list Query) :
  In x l -> In x (removeDuplicateQueries l).
Proof.
  intros H. destruct (uniqueBy_keeps x l [] H) as [[]|H']. exact H'.
Qed.

Lemma keywordsOf_nil (stopwords : list string) : keywordsOf stopwords [] = [].
Proof. reflexivity. Qed.

End QueryFacts.

(** C4 (as stated, refuted).  For one favorite published by "Daily Times"
    whose description is "Times times times apple apple", the top keyword
    that is longer than 3 characters and differs from the publisher name is
    "times"; the query emitted has [q] = "apple", and no query has [q] =
    "times": "times" is a word of the publisher name. *)
Lemma generateDiverseQueries_drops_publisher_word :
  Claimed.keywordsOf Fixture.english [Fixture.dailyTimes] = ["times"; "apple"]%string
  /\ SearchUtil.generateDiverseQueries Fixture.english Fixture.tokenize Fixture.listTerms
       [Fixture.dailyTimes]
     = [SearchUtil.mkQuery "apple"]
  /\ ~ In "times"%string
        (map SearchUtil.q
             (SearchUtil.generateDiverseQueries Fixture.english Fixture.tokenize
                Fixture.listTerms [Fixture.dailyTimes])).
Proof.
  split; [vm_compute; reflexivity|].
  assert (E : SearchUtil.generateDiverseQueries Fixture.english Fixture.tokenize
                Fixture.listTerms [Fixture.dailyTimes]
              = [SearchUtil.mkQuery "apple"]) by (vm_compute; reflexivity).
  split; [exact E|]. rewrite E. simpl. intros [H|[]]. discriminate H.
Qed.

(** C4 (amended).  In [generateDiverseQueries], the keywords of strategy 2
    are those of the top-10 keywords of the concatenated favorite
    descriptions that are longer than 3 characters and, lowercased, are not
    one of the white-space-separated words of a favorite's lowercased
    publisher name; if any keyword survives, the returned queries include
    the query whose [q] is the first survivor. *)
Theorem generateDiverseQueries_keyword_query :
  forall (stopwords : list string) (tokenize : string -> list string)
         (listTerms : string -> list (string * float)) (podcasts : list Podcast),
    (forall kw : string,
        In kw (SearchUtil.keywordsOf stopwords podcasts)
        <-> In kw (TextProcessing.extractKeywords stopwords
                     (JsString.join " " (map SearchUtil.descriptionOf podcasts)) 10)
            /\ 3 < String.length kw
            /\ ~ exists p word : string,
                   In p (SearchUtil.publishersOf podcasts)
                   /\ In word (JsString.splitWhiteSpace (JsString.toLowerCase p))
                   /\ word = JsString.toLowerCase kw)
    /\ match SearchUtil.keywordsOf stopwords podcasts with
       | kw :: _ =>
           In (SearchUtil.mkQuery kw)
              (SearchUtil.generateDiverseQueries stopwords tokenize listTerms podcasts)
       | [] => True
       end.
Proof.
  intros stopwords tokenize listTerms podcasts. split.
  - intros kw. unfold SearchUtil.keywordsOf. rewrite filter_In.
    rewrite !andb_true_iff, !negb_true_iff, Nat.ltb_lt.
    rewrite CollectFacts.includes_not_In.
    unfold SearchUtil.publishersToFilter. split.
    + intros (Hin & (Hne & Hlen) & Hpub). repeat split; try assumption.
      intros (p & word & Hp & Hw & ->). apply Hpub.
      apply in_flat_map. eauto.
    + intros (Hin & Hlen & Hpub). repeat split; try assumption.
      * destruct kw; [simpl in Hlen; lia | reflexivity].
      * intros Hf. apply Hpub. apply in_flat_map in Hf.
        destruct Hf as (p & Hp & Hw). eauto.
  - destruct (SearchUtil.keywordsOf stopwords podcasts) as [|kw rest] eqn:Ek; [exact I|].
    unfold SearchUtil.generateDiverseQueries.
    destruct podcasts as [|p ps]; [discriminate Ek|].
    rewrite Ek. apply QueryFacts.removeDuplicateQueries_keeps.
    apply in_or_app. right. apply in_or_app. left. now left.
Qed.

(** C4 (amended), at a concrete input: for the favorite published by "Daily
    Times" the surviving keywords are ["apple"], and the query for "apple"
    is returned. *)
Lemma generateDiverseQueries_keyword_witness :
  SearchUtil.keywordsOf Fixture.english [Fixture.dailyTimes] = ["apple"]%string
  /\ In (SearchUtil.mkQuery "apple")
        (SearchUtil.generateDiverseQueries Fixture.english Fixture.tokenize
           Fixture.listTerms [Fixture.dailyTimes]).
Proof.
  assert (Ek : SearchUtil.keywordsOf Fixture.english [Fixture.dailyTimes]
               = ["apple"]%string) by (vm_compute; reflexivity).
  split; [exact Ek|].
  pose proof (proj2 (generateDiverseQueries_keyword_query Fixture.english
                       Fixture.tokenize Fixture.listTerms [Fixture.dailyTimes])) as H.
  exact H.
Defined.
(* ===================================================================== *)
(** * Facts: arrays and counter objects *)
(* ===================================================================== *)

Module ArrayFacts.

Lemma sortInsert_Permutation {A : Type} (comparefn : A -> A -> float) (x : A)
  (l : list A) :
  Permutation (Js.sortInsert comparefn x l) (x :: l).
Proof.
  induction l as [|y l IH]; simpl; [apply Permutation_refl|].
  destruct (PrimFloat.ltb 0 (comparefn x y)); [|apply Permutation_refl].
  eapply Permutation_trans; [apply perm_skip, IH | apply perm_swap].
Qed.

Lemma Array_sort_Permutation {A : Type} (comparefn : A -> A -> float) (l : list A) :
  Permutation (Js.Array_sort comparefn l) l.
Proof.
  induction l as [|x l IH]; simpl; [apply Permutation_refl|].
  eapply Permutation_trans; [apply sortInsert_Permutation | now apply perm_skip].
Qed.

Lemma NoDup_firstn {A : Type} (n : nat) (l : list A) : NoDup l -> NoDup (firstn n l).
Proof.
  revert n. induction l as [|x l IH]; intros n H.
  - now rewrite firstn_nil.
  - destruct n as [|n]; simpl; [constructor|].
    inversion H as [|? ? Hx Hl]; subst. constructor; [|now apply IH].
    intro Hin. apply Hx. now apply SortFacts.In_firstn in Hin.
Qed.

Lemma firstn_short {A : Type} (n : nat) (l : list A) :
  List.length (firstn n l) < n -> firstn n l = l.
Proof.
  intros H. apply firstn_all2. rewrite length_firstn in H. lia.
Qed.

Lemma partition_Permutation {A : Type} (p : A -> bool) (l : list A) :
  Permutation (filter p l ++ filter (fun x => negb (p x)) l) l.
Proof.
  induction l as [|x l IH]; simpl; [apply Permutation_refl|].
  destruct (p x); simpl.
  - now apply perm_skip.
  - eapply Permutation_trans; [apply Permutation_sym, Permutation_middle|].
    now apply perm_skip.
Qed.

End ArrayFacts.

Module ObjectFacts.

Import Js Counter.

Lemma setOwn_keys (k : string) (v : propval) (o : object) :
  keys (setOwn k v o)
  = if JsString.includes k (keys o) then keys o else keys o ++ [k].
Proof.
  unfold keys, JsString.includes.
  induction o as [|[k' v'] r IH]; simpl; [reflexivity|].
  destruct (String.eqb k k'); simpl; [reflexivity|].
  rewrite IH. now destruct (existsb (String.eqb k) (map fst r)).
Qed.

Lemma bump_cases (o : object) (k : string) :
  (k = "__proto__"%string /\ bump o k = o)
  \/ (k <> "__proto__"%string /\ exists v, bump o k = setOwn k v o).
Proof.
  unfold bump. destruct (String.eqb k "__proto__") eqn:E.
  - left. split; [now apply String.eqb_eq | reflexivity].
  - right. split; [now apply String.eqb_neq|].
    destruct (getOwn k o); [eauto|].
    destruct (JsString.includes k inheritedNames); eauto.
Qed.

Lemma bump_keys (o : object) (k : string) :
  NoDup (keys o) ->
  NoDup (keys (bump o k))
  /\ forall x, In x (keys (bump o k))
               <-> In x (keys o) \/ (x = k /\ k <> "__proto__"%string).
Proof.
  intros Hnd. destruct (bump_cases o k) as [[Hk ->] | [Hk [v ->]]].
  - split; [exact Hnd|]. intros x. split; [now left|]. intros [H | [_ H]]; tauto.
  - rewrite setOwn_keys. destruct (JsString.includes k (keys o)) eqn:E.
    + split; [exact Hnd|]. intros x. split; [now left|].
      intros [H | [-> _]]; [exact H|]. now apply CollectFacts.includes_In.
    + apply CollectFacts.includes_not_In in E. split.
      * now apply CollectFacts.NoDup_snoc.
      * intros x. rewrite in_app_iff. simpl. split.
        -- intros [H | [<- | []]]; [now left | now right].
        -- intros [H | [-> _]]; [now left | right; now left].
Qed.

Lemma fold_bump_keys (l : list string) (o : object) :
  NoDup (keys o) ->
  NoDup (keys (fold_left bump l o))
  /\ forall x, In x (keys (fold_left bump l o))
               <-> In x (keys o) \/ (In x l /\ x <> "__proto__"%string).
Proof.
  revert o. induction l as [|k l IH]; intros o Hnd; simpl.
  - split; [exact Hnd|]. intros x. split; [now left|]. now intros [H | [[] _]].
  - destruct (bump_keys o k Hnd) as [Hnd' Hin].
    destruct (IH (bump o k) Hnd') as [Hnd'' Hin'']. split; [exact Hnd''|].
    intros x. rewrite Hin'', Hin. split.
    + intros [[H | [-> Hk]] | [H Hx]]; [now left | right | right]; tauto.
    + intros [H | [[<- | H] Hx]]; [left; now left | left; right; tauto | right; tauto].
Qed.

Lemma insertIndexed_Permutation {V : Type} (i : N) (kv : string * V)
  (l : list (N * (string * V))) :
  Permutation (insertIndexed i kv l) ((i, kv) :: l).
Proof.
  induction l as [|[j kv'] l IH]; simpl; [apply Permutation_refl|].
  destruct (i <=? j)%N; [apply Permutation_refl|].
  eapply Permutation_trans; [apply perm_skip, IH | apply perm_swap].
Qed.

Lemma Object_entries_Permutation (o : object) : Permutation (Object_entries o) o.
Proof.
  unfold Object_entries.
  set (isIndex := fun kv : string * propval =>
                    match arrayIndex (fst kv) with Some _ => true | None => false end).
  eapply Permutation_trans; [|apply (ArrayFacts.partition_Permutation isIndex)].
  apply Permutation_app.
  - induction o as [|kv o IH]; simpl; [apply Permutation_refl|].
    unfold isIndex at 1. destruct (arrayIndex (fst kv)) as [i|]; [|exact IH].
    eapply Permutation_trans;
      [apply Permutation_map, insertIndexed_Permutation|].
    simpl. now apply perm_skip.
  - erewrite filter_ext; [apply Permutation_refl|].
    intros kv. unfold isIndex. now destruct (arrayIndex (fst kv)).
Qed.

(** The entries of a counter, sorted and cut: what both keyword and theme
    extraction list. *)
Lemma sorted_entries_keys (comparefn : string * propval -> string * propval -> float)
  (p : string * propval -> bool) (o : object) :
  NoDup (keys o) ->
  NoDup (map fst (Array_sort comparefn (filter p (Object_entries o))))
  /\ forall kv, In kv (Array_sort comparefn (filter p (Object_entries o)))
                <-> In kv o /\ p kv = true.
Proof.
  intros Hnd. split.
  - assert (Hf : forall l : object, NoDup (keys l) -> NoDup (keys (filter p l))).
    { unfold keys. induction l as [|kv l IH]; simpl; intros H; [constructor|].
      inversion H as [|? ? Hx Hl]; subst.
      destruct (p kv); simpl; [|now apply IH].
      constructor; [|now apply IH]. intro Hin. apply Hx.
      apply in_map_iff in Hin. destruct Hin as [kv' [E Hin]].
      apply filter_In in Hin. apply in_map_iff. exists kv'. tauto. }
    eapply Permutation_NoDup;
      [apply Permutation_sym, Permutation_map, ArrayFacts.Array_sort_Permutation|].
    apply Hf. eapply Permutation_NoDup; [|exact Hnd].
    apply Permutation_sym, Permutation_map, Object_entries_Permutation.
  - intros kv. rewrite SortFacts.Array_sort_In, filter_In.
    split; intros [H Hp]; (split; [|exact Hp]).
    + eapply Permutation_in; [apply Object_entries_Permutation | exact H].
    + eapply Permutation_in; [apply Permutation_sym, Object_entries_Permutation | exact H].
Qed.

End ObjectFacts.
(* ===================================================================== *)
(** * Facts: words, tokens and keywords *)
(* ===================================================================== *)

Module WordFacts.

Import JsString TextProcessing TextShape Fields.

Lemma filter_all {A : Type} (l : list A) : filter (fun _ => true) l = l.
Proof. induction l as [|x l IH]; simpl; congruence. Qed.

Lemma filter_fixed {A : Type} (p : A -> bool) (l : list A) :
  (forall x, In x l -> p x = true) -> filter p l = l.
Proof.
  induction l as [|x l IH]; intros H; simpl; [reflexivity|].
  rewrite (H x (or_introl eq_refl)). f_equal. apply IH. intros y Hy. apply H. now right.
Qed.

Lemma split_lowerWords (b : bool) (s : string) :
  spaced b s = true ->
  Forall (fun w => allChars isLowerWord w = true) (split " " s).
Proof.
  revert b. induction s as [|c r IH]; intros b H; simpl in *.
  - constructor; [reflexivity | constructor].
  - change (Ascii.eqb c " ") with (isSpace c). destruct (isSpace c).
    + apply andb_true_iff in H. destruct H as [_ H].
      constructor; [reflexivity | exact (IH true H)].
    + apply andb_true_iff in H. destruct H as [Hc H].
      specialize (IH false H). destruct (split " " r) as [|w ws].
      * constructor; [simpl; now rewrite Hc | constructor].
      * inversion IH as [|? ? Hw Hws]; subst.
        constructor; [simpl; now rewrite Hc, Hw | exact Hws].
Qed.

(** In a text without a space at an end or after a space, every word that
    [split] cuts is non-empty; the first may be empty only when the text
    follows a word character. *)
Lemma split_nonempty (b : bool) (s : string) :
  spaced b s = true -> endsInWord s = true -> s <> EmptyString ->
  exists w ws,
    split " " s = w :: ws
    /\ (b = true -> w <> EmptyString)
    /\ Forall (fun w => w <> EmptyString) ws.
Proof.
  revert b. induction s as [|c r IH]; intros b H He Hs; [congruence|].
  simpl in H. simpl split. change (Ascii.eqb c " ") with (isSpace c).
  destruct (isSpace c) eqn:Ec.
  - apply andb_true_iff in H. destruct H as [Hb H].
    apply negb_true_iff in Hb. subst b.
    assert (Hr : r <> EmptyString).
    { intros ->. apply PreprocessFacts.isSpace_eq in Ec. subst c. discriminate He. }
    assert (He' : endsInWord r = true) by (destruct r; [congruence | exact He]).
    destruct (IH true H He' Hr) as (w & ws & E & Hw & Hws).
    exists EmptyString, (w :: ws). rewrite E. split; [reflexivity|].
    split; [discriminate|]. constructor; [now apply Hw | exact Hws].
  - apply andb_true_iff in H. destruct H as [Hc H].
    destruct r as [|c' r'].
    + exists (String c EmptyString), []. simpl.
      split; [reflexivity|]. split; [discriminate | constructor].
    + assert (He' : endsInWord (String c' r') = true) by exact He.
      destruct (IH false H He') as (w & ws & E & _ & Hws); [discriminate|].
      exists (String c w), ws. rewrite E.
      split; [reflexivity|]. split; [discriminate | exact Hws].
Qed.

Lemma lowerWords_fixed (w : string) :
  allChars isLowerWord w = true -> toLowerCase w = w.
Proof.
  induction w as [|c r IH]; simpl; [reflexivity|].
  intros H. apply andb_true_iff in H. destruct H as [Hc H].
  now rewrite (PreprocessFacts.lowerWord_lower c Hc), IH.
Qed.

Lemma filterTokens_In (stopwords tokens : list string) (t : string) :
  In t (filterTokens stopwords tokens) <-> In t tokens /\ meaningful stopwords t.
Proof.
  unfold filterTokens, removeStopwords, meaningful, isNaN.
  destruct tokens as [|t0 ts]; [simpl; tauto|].
  rewrite filter_In, filter_In, !andb_true_iff, !negb_true_iff, Nat.ltb_lt,
    !CollectFacts.includes_not_In.
  tauto.
Qed.

Lemma filterTokens_fixed (stopwords tokens : list string) :
  (forall t, In t tokens -> meaningful stopwords t) ->
  filterTokens stopwords tokens = tokens.
Proof.
  intros H. unfold filterTokens, removeStopwords.
  destruct tokens as [|t0 ts]; [reflexivity|].
  rewrite (filter_fixed _ (t0 :: ts)).
  - apply filter_fixed. intros t Ht. destruct (H t Ht) as (H1 & H2 & H3 & _).
    unfold isNaN. rewrite !andb_true_iff, !negb_true_iff, Nat.ltb_lt,
      CollectFacts.includes_not_In. tauto.
  - intros t Ht. destruct (H t Ht) as (_ & _ & _ & H4).
    now rewrite negb_true_iff, CollectFacts.includes_not_In.
Qed.

Lemma filterTokens_blank (stopwords : list string) :
  filterTokens stopwords [EmptyString] = [].
Proof.
  unfold filterTokens, removeStopwords. simpl.
  now destruct (negb (includes EmptyString stopwords)).
Qed.

End WordFacts.

(** X1.  Whatever the text, [preprocessText] returns lowercase letters,
    digits, underscores and single spaces only, with no space at either end;
    unless the result is empty, cutting it at the spaces gives words that
    are all non-empty and made of those characters. *)
Theorem preprocessText_gives_lowercase_words :
  forall text : string,
    TextShape.normal (TextProcessing.preprocessText text) = true
    /\ (TextProcessing.preprocessText text = EmptyString
        \/ Forall (fun w => w <> EmptyString
                            /\ JsString.allChars TextShape.isLowerWord w = true)
                  (JsString.split " " (TextProcessing.preprocessText text))).
Proof.
  intros text.
  pose proof (PreprocessFacts.preprocessText_normal text) as Hn.
  split; [exact Hn|].
  destruct (TextProcessing.preprocessText text) as [|c r] eqn:E; [now left|]. right.
  unfold TextShape.normal in Hn. apply andb_true_iff in Hn. destruct Hn as [Hs He].
  pose proof (WordFacts.split_lowerWords true _ Hs) as Hl.
  destruct (WordFacts.split_nonempty true _ Hs He) as (w & ws & Ew & Hw & Hws);
    [discriminate|].
  rewrite Ew in *. inversion Hl as [|? ? Hlw Hlws]; subst.
  constructor; [split; [now apply Hw | exact Hlw]|].
  apply Forall_forall. intros x Hx. split.
  - exact (proj1 (Forall_forall _ _) Hws x Hx).
  - exact (proj1 (Forall_forall _ _) Hlws x Hx).
Qed.

(** X2.  [filterTokens] keeps exactly the tokens that are longer than 3
    characters, are not one of the common words, do not read as a number
    and, lowercased, are not a stop word; applying it to its own result
    changes nothing. *)
Theorem filterTokens_keeps_meaningful_tokens :
  forall (stopwords tokens : list string),
    (forall t : string,
        In t (TextProcessing.filterTokens stopwords tokens)
        <-> In t tokens
            /\ 3 < String.length t
            /\ ~ In t TextProcessing.commonWords
            /\ JsString.isNumeric t = false
            /\ ~ In (JsString.toLowerCase t) stopwords)
    /\ TextProcessing.filterTokens stopwords
         (TextProcessing.filterTokens stopwords tokens)
       = TextProcessing.filterTokens stopwords tokens.
Proof.
  intros stopwords tokens. split.
  - intros t. apply WordFacts.filterTokens_In.
  - apply WordFacts.filterTokens_fixed. intros t Ht.
    now apply WordFacts.filterTokens_In in Ht.
Qed.

(** X3.  [extractKeywords] returns at most [limit] keywords, no keyword
    twice; each is a word of the normalised text that is longer than 3
    characters, made of lowercase letters, digits and underscores, not a
    common word, not a stop word, not a number and not [__proto__]; and when
    fewer than [limit] come back, every such word of the text is among
    them. *)
Theorem extractKeywords_distinct_meaningful_words :
  forall (stopwords : list string) (text : string) (limit : nat),
    let keywords := TextProcessing.extractKeywords stopwords text limit in
    let words := JsString.split " " (TextProcessing.preprocessText text) in
    let meaningful := fun w : string =>
      3 < String.length w
      /\ ~ In w TextProcessing.commonWords
      /\ ~ In w stopwords
      /\ JsString.isNumeric w = false
      /\ w <> "__proto__"%string in
    List.length keywords <= limit
    /\ NoDup keywords
    /\ (forall kw : string,
           In kw keywords ->
           In kw words
           /\ JsString.allChars TextShape.isLowerWord kw = true
           /\ meaningful kw)
    /\ (List.length keywords < limit ->
        forall w : string, In w words -> meaningful w -> In w keywords).
Proof.
  intros stopwords text limit keywords words meaningful.
  assert (Hlow : forall w, In w words ->
                           JsString.allChars TextShape.isLowerWord w = true).
  { apply Forall_forall. apply (WordFacts.split_lowerWords true).
    pose proof (PreprocessFacts.preprocessText_normal text) as Hn.
    unfold TextShape.normal in Hn. now apply andb_true_iff in Hn. }
  set (wordFreq := fold_left Js.bump (TextProcessing.filterTokens stopwords words) []).
  set (comparefn := fun a b : string * Js.propval =>
                      PrimFloat.sub (Js.toNumber (snd b)) (Js.toNumber (snd a))).
  set (sorted := Js.Array_sort comparefn (Js.Object_entries wordFreq)).
  destruct (ObjectFacts.fold_bump_keys
              (TextProcessing.filterTokens stopwords words) [] (NoDup_nil _))
    as [Hnd Hkeys]. fold wordFreq in Hnd, Hkeys.
  destruct (ObjectFacts.sorted_entries_keys comparefn (fun _ => true) wordFreq Hnd)
    as [Hsnd Hsin].
  rewrite WordFacts.filter_all in Hsnd, Hsin. fold sorted in Hsnd, Hsin.
  assert (Hword : forall w, In w (Counter.keys wordFreq)
                            <-> In w words /\ meaningful w).
  { intros w. rewrite Hkeys, WordFacts.filterTokens_In.
    unfold Fields.meaningful, meaningful. simpl. split.
    - intros [[] | [[Hw (H1 & H2 & H3 & H4)] Hp]].
      rewrite (WordFacts.lowerWords_fixed w (Hlow w Hw)) in H4. tauto.
    - intros [Hw (H1 & H2 & H3 & H4 & H5)]. right.
      rewrite (WordFacts.lowerWords_fixed w (Hlow w Hw)). tauto. }
  assert (Hsorted : forall w, In w (map fst sorted) <-> In w (Counter.keys wordFreq)).
  { intros w. unfold Counter.keys. rewrite !in_map_iff. split.
    - intros [kv [E H]]. exists kv. split; [exact E|]. now apply Hsin in H.
    - intros [kv [E H]]. exists kv. split; [exact E|]. now apply Hsin. }
  destruct (JsString.isEmpty text) eqn:Et.
  - assert (Ek : keywords = []).
    { unfold keywords, TextProcessing.extractKeywords. now rewrite Et. }
    assert (Ew : words = [EmptyString]).
    { unfold words. destruct text; [reflexivity | discriminate]. }
    rewrite Ek. simpl. split; [lia|]. split; [constructor|]. split; [tauto|].
    intros _ w Hw (H1 & _). rewrite Ew in Hw. destruct Hw as [<- | []].
    simpl in H1. lia.
  - assert (Ek : keywords = map fst (firstn limit sorted)).
    { unfold keywords, TextProcessing.extractKeywords. now rewrite Et. }
    rewrite Ek. split; [rewrite length_map, length_firstn; lia|].
    split; [rewrite <- firstn_map; now apply ArrayFacts.NoDup_firstn|].
    split.
    + intros kw Hkw. rewrite <- firstn_map in Hkw.
      apply SortFacts.In_firstn, Hsorted, Hword in Hkw.
      destruct Hkw as [Hw Hm]. split; [exact Hw|]. split; [now apply Hlow | exact Hm].
    + intros Hlen w Hw Hm. rewrite length_map in Hlen.
      rewrite (ArrayFacts.firstn_short _ _ Hlen). apply Hsorted, Hword. tauto.
Qed.

(** X4.  [extractKeywords] sees a text only through its normal form: the
    keywords of a text are the keywords of [preprocessText] of it, so
    letter case, markup, punctuation and the amount of white space do not
    change them. *)
Theorem extractKeywords_of_normalised_text :
  forall (stopwords : list string) (text : string) (limit : nat),
    TextProcessing.extractKeywords stopwords text limit
    = TextProcessing.extractKeywords stopwords
        (TextProcessing.preprocessText text) limit.
Proof.
  intros stopwords text limit. unfold TextProcessing.extractKeywords.
  rewrite (PreprocessFacts.normal_fixed _ (PreprocessFacts.preprocessText_normal text)).
  destruct (JsString.isEmpty text) eqn:Et.
  - destruct text; [reflexivity | discriminate].
  - destruct (TextProcessing.preprocessText text) as [|c r] eqn:Ep; [|reflexivity].
    cbn [JsString.isEmpty JsString.split].
    rewrite WordFacts.filterTokens_blank. cbn. unfold Js.slice0.
    now rewrite firstn_nil.
Qed.
(* ===================================================================== *)
(** * Facts: symmetry, shared terms, the embedding cache *)
(* ===================================================================== *)

Module SimilarityMore.

Import Similarity.
Local Open Scope float_scope.

Lemma mul_comm (x y : float) : x * y = y * x.
Proof.
  apply Prim2SF_inj. rewrite !FloatAxioms.mul_spec.
  unfold SF64mul, SFmul.
  destruct (Prim2SF x) as [sx|sx| |sx mx ex], (Prim2SF y) as [sy|sy| |sy my ey];
    try reflexivity; try (now rewrite xorb_comm).
  now rewrite xorb_comm, Pos.mul_comm, Z.add_comm.
Qed.

Lemma dotProduct_comm (vec1 vec2 : list float) : dotProduct vec1 vec2 = dotProduct vec2 vec1.
Proof.
  unfold dotProduct. generalize 0.
  revert vec2. induction vec1 as [|a v IH]; intros [|b w] acc; simpl; try reflexivity.
  rewrite (mul_comm a b). apply IH.
Qed.

Lemma Math_min_self (a : float) : Js.Math_min a a = a.
Proof.
  unfold Js.Math_min. destruct (a <? a); [reflexivity|].
  destruct (Js.isNaNf a); [reflexivity|]. now destruct (classify a).
Qed.

(** ** The [Map] of a topic list *)

Lemma mapGet_mapSet (k k' : string) (v : float) (m : list (string * float)) :
  mapGet k' (mapSet k v m) = if String.eqb k' k then Some v else mapGet k' m.
Proof.
  induction m as [|[k0 v0] m IH]; simpl.
  - reflexivity.
  - destruct (String.eqb k k0) eqn:E; simpl.
    + apply String.eqb_eq in E. subst k0.
      now destruct (String.eqb k' k).
    + rewrite IH. destruct (String.eqb k' k0) eqn:E0; [|reflexivity].
      apply String.eqb_eq in E0. subst k0.
      destruct (String.eqb k' k) eqn:E1; [|reflexivity].
      apply String.eqb_eq in E1. subst k'. now rewrite String.eqb_refl in E.
Qed.

Lemma mapSet_keys (k : string) (v : float) (m : list (string * float)) :
  map fst (mapSet k v m)
  = if JsString.includes k (map fst m) then map fst m else map fst m ++ [k].
Proof.
  unfold JsString.includes.
  induction m as [|[k' v'] r IH]; simpl; [reflexivity|].
  destruct (String.eqb k k'); simpl; [reflexivity|].
  rewrite IH. now destruct (existsb (String.eqb k) (map fst r)).
Qed.

Lemma mapSet_NoDup (k : string) (v : float) (m : list (string * float)) :
  NoDup (map fst m) -> NoDup (map fst (mapSet k v m)).
Proof.
  intros H. rewrite mapSet_keys.
  destruct (JsString.includes k (map fst m)) eqn:E; [exact H|].
  apply CollectFacts.NoDup_snoc; [exact H | now apply CollectFacts.includes_not_In].
Qed.

Lemma topicMap_fold (topics : list Topic) (m : list (string * float)) :
  NoDup (map fst m) ->
  let m' := fold_left (fun m t => mapSet (term t) (score t) m) topics m in
  NoDup (map fst m')
  /\ forall k, In k (map fst m') -> In k (map fst m) \/ In k (map term topics).
Proof.
  revert m. induction topics as [|t ts IH]; intros m H; simpl.
  - split; [exact H | now left].
  - destruct (IH _ (mapSet_NoDup (term t) (score t) m H)) as [Hnd Hin].
    split; [exact Hnd|]. intros k Hk. destruct (Hin k Hk) as [Hm | Hts]; [|tauto].
    rewrite mapSet_keys in Hm. destruct (JsString.includes (term t) (map fst m)).
    + now left.
    + apply in_app_iff in Hm. destruct Hm as [Hm | [<- | []]]; tauto.
Qed.

Lemma topicMap_keys (topics : list Topic) :
  NoDup (map fst (topicMap topics))
  /\ forall k, In k (map fst (topicMap topics)) -> In k (map term topics).
Proof.
  destruct (topicMap_fold topics [] (NoDup_nil _)) as [Hnd Hin].
  split; [exact Hnd|]. intros k Hk. destruct (Hin k Hk) as [[] | H]. exact H.
Qed.

Lemma mapGet_absent (k : string) (m : list (string * float)) :
  ~ In k (map fst m) -> mapGet k m = None.
Proof.
  induction m as [|[k' v] m IH]; simpl; [reflexivity|]. intros H.
  destruct (String.eqb k k') eqn:E.
  - apply String.eqb_eq in E. subst k'. tauto.
  - apply IH. tauto.
Qed.

Lemma mapGet_present (k : string) (v : float) (m : list (string * float)) :
  NoDup (map fst m) -> In (k, v) m -> mapGet k m = Some v.
Proof.
  induction m as [|[k' v'] m IH]; simpl; [tauto|]. intros Hnd [E | Hin].
  - inversion E; subst. now rewrite String.eqb_refl.
  - inversion Hnd as [|? ? Hk Hm]; subst.
    destruct (String.eqb k k') eqn:E; [|now apply IH].
    apply String.eqb_eq in E. subst k'. exfalso. apply Hk.
    apply in_map_iff. now exists (k, v).
Qed.

(** ** The loop of [calculateTopicSimilarity] *)

Lemma loop_unmatched (topicMapB entries : list (string * float)) (st : float * float) :
  (forall e, In e entries -> mapGet (fst e) topicMapB = None) ->
  fst (fold_left (topicStep topicMapB) entries st) = fst st.
Proof.
  revert st. induction entries as [|e es IH]; intros [matched total] H; simpl.
  - reflexivity.
  - rewrite (H e (or_introl eq_refl)). rewrite IH; [reflexivity|].
    intros e' He'. apply H. now right.
Qed.

Lemma loop_all_matched (topicMapB entries : list (string * float)) (x : float) :
  (forall e, In e entries -> mapGet (fst e) topicMapB = Some (snd e)) ->
  exists y, fold_left (topicStep topicMapB) entries (x, x) = (y, y).
Proof.
  revert x. induction entries as [|e es IH]; intros x H; simpl.
  - now exists x.
  - rewrite (H e (or_introl eq_refl)), Math_min_self.
    apply IH. intros e' He'. apply H. now right.
Qed.

Lemma zero_div (t : float) : PrimFloat.ltb 0 t = true -> 0 / t = 0.
Proof.
  intros H. apply Prim2SF_inj. rewrite FloatAxioms.div_spec.
  rewrite FloatAxioms.ltb_spec in H.
  change (Prim2SF 0) with (S754_zero false) in *.
  destruct (Prim2SF t) as [[|]|[|]| |[|] m e]; try discriminate; reflexivity.
Qed.

Lemma append_length (a b : string) :
  String.length (a ++ b) = Nat.add (String.length a) (String.length b).
Proof. induction a as [|c a IH]; simpl; [reflexivity | now rewrite IH]. Qed.

(** Against 384 zeros every vector scores 0, on either side. *)
Lemma calculateCosineSimilarity_zeros (vec : list float) :
  calculateCosineSimilarity vec (zeroVector 384) = 0
  /\ calculateCosineSimilarity (zeroVector 384) vec = 0.
Proof.
  unfold calculateCosineSimilarity.
  rewrite (SimilarityFacts.sumSquares_zeroVector 384).
  change (PrimFloat.sqrt 0 =? 0) with true. rewrite orb_true_r. cbn [orb].
  split;
    now destruct ((List.length vec =? 0)%nat || (List.length (zeroVector 384) =? 0)%nat
                  || negb (List.length vec =? List.length (zeroVector 384))%nat),
                 ((List.length (zeroVector 384) =? 0)%nat || (List.length vec =? 0)%nat
                  || negb (List.length (zeroVector 384) =? List.length vec)%nat).
Qed.

End SimilarityMore.

(** X5.  [calculateCosineSimilarity] is symmetric: for any two vectors, the
    similarity of the first to the second is, bit for bit, the similarity of
    the second to the first. *)
Theorem calculateCosineSimilarity_symmetric :
  forall vec1 vec2 : list float,
    Similarity.calculateCosineSimilarity vec1 vec2
    = Similarity.calculateCosineSimilarity vec2 vec1.
Proof.
  intros vec1 vec2. unfold Similarity.calculateCosineSimilarity.
  rewrite (Nat.eqb_sym (List.length vec2) (List.length vec1)).
  rewrite (SimilarityMore.dotProduct_comm vec2 vec1).
  rewrite (SimilarityMore.mul_comm (PrimFloat.sqrt (Similarity.sumSquares vec2))).
  destruct (List.length vec1 =? 0), (List.length vec2 =? 0),
    (List.length vec1 =? List.length vec2); simpl; try reflexivity;
    now rewrite orb_comm.
Qed.

(** X6.  Two topic lists that have no term in common have topic similarity
    exactly 0. *)
Theorem calculateTopicSimilarity_disjoint_terms :
  forall topicsA topicsB : list Topic,
    (forall a b : Topic, In a topicsA -> In b topicsB -> term a <> term b) ->
    Similarity.calculateTopicSimilarity topicsA topicsB = 0%float.
Proof.
  intros topicsA topicsB Hdis. unfold Similarity.calculateTopicSimilarity.
  destruct topicsA as [|a0 As]; [reflexivity|].
  destruct topicsB as [|b0 Bs]; [reflexivity|].
  remember (a0 :: As) as topicsA. remember (b0 :: Bs) as topicsB.
  pose proof (SimilarityMore.loop_unmatched (Similarity.topicMap topicsB)
                (Similarity.topicMap topicsA) (0%float, 0%float)) as Hloop.
  destruct (fold_left _ _ _) as [matched total]. simpl in Hloop.
  rewrite Hloop.
  - destruct (PrimFloat.ltb 0 total) eqn:Et; [|reflexivity].
    now apply SimilarityMore.zero_div.
  - intros e He. apply SimilarityMore.mapGet_absent. intros Hin.
    apply (proj2 (SimilarityMore.topicMap_keys topicsB)) in Hin.
    apply in_map_iff in Hin. destruct Hin as [b [Eb Hb]].
    assert (Ha : In (fst e) (map term topicsA)).
    { apply (proj2 (SimilarityMore.topicMap_keys topicsA)).
      apply in_map_iff. now exists e. }
    apply in_map_iff in Ha. destruct Ha as [a [Ea Ha]].
    apply (Hdis a b Ha Hb). congruence.
Qed.

Lemma calculateTopicSimilarity_disjoint_witness :
  Similarity.calculateTopicSimilarity Scenario.topicsA Scenario.topicsB = 0%float.
Proof.
  apply calculateTopicSimilarity_disjoint_terms.
  intros a b [<- | [<- | []]] [<- | []]; discriminate.
Defined.

(** X7.  A topic list compared with itself has topic similarity exactly 1
    whenever the sum of its scores, as the loop adds them up, is above 0 and
    not infinite. *)
Theorem calculateTopicSimilarity_self_is_one :
  forall topics : list Topic,
    PrimFloat.ltb 0 (TopicLoop.totalPossibleScore topics topics) = true ->
    PrimFloat.ltb (TopicLoop.totalPossibleScore topics topics) infinity = true ->
    Similarity.calculateTopicSimilarity topics topics = 1%float.
Proof.
  intros topics. unfold TopicLoop.totalPossibleScore, TopicLoop.finalState.
  unfold Similarity.calculateTopicSimilarity.
  destruct topics as [|t0 ts]; [discriminate|].
  remember (t0 :: ts) as topics.
  destruct (SimilarityMore.loop_all_matched (Similarity.topicMap topics)
              (Similarity.topicMap topics) 0%float) as [y Ey].
  { intros [k v] He. apply SimilarityMore.mapGet_present; [|exact He].
    apply SimilarityMore.topicMap_keys. }
  rewrite Ey. simpl. intros H0 Hinf. rewrite H0.
  destruct (SimilarityFacts.between_zero_and_infinity y H0 Hinf) as (m & e & E).
  exact (SimilarityFacts.div_self y false m e E).
Qed.

Lemma calculateTopicSimilarity_self_witness :
  Similarity.calculateTopicSimilarity Scenario.topicsA Scenario.topicsA = 1%float.
Proof.
  apply calculateTopicSimilarity_self_is_one; vm_compute; reflexivity.
Defined.

(** X8.  The text that is embedded for a podcast is never empty, since it
    always holds the five spaces that separate its parts: the replacement
    text 'podcast content' is never used, and the text embedded is
    [createWeightedText] of the podcast. *)
Theorem createWeightedText_never_empty :
  forall (podcast : Podcast),
    5 <= String.length (Similarity.createWeightedText podcast)
    /\ Similarity.createWeightedText podcast <> EmptyString
    /\ Recommendations.embeddingText podcast = Similarity.createWeightedText podcast.
Proof.
  intros podcast.
  assert (H : 5 <= String.length (Similarity.createWeightedText podcast)).
  { unfold Similarity.createWeightedText, JsString.join. cbn [String.concat].
    rewrite !SimilarityMore.append_length. simpl. lia. }
  assert (Hne : Similarity.createWeightedText podcast <> EmptyString).
  { intros E. rewrite E in H. simpl in H. lia. }
  split; [exact H|]. split; [exact Hne|].
  unfold Recommendations.embeddingText.
  now destruct (Similarity.createWeightedText podcast).
Qed.
(* ===================================================================== *)
(** * Facts: where candidates come from, queries and themes *)
(* ===================================================================== *)

Module GatherFacts.

Import Recommendations.

Section Unique.

Context {A : Type} (eqb : A -> A -> bool).
Hypothesis eqb_eq : forall a b, eqb a b = true <-> a = b.

Lemma uniqueBy_In (seen l : list A) (x : A) :
  In x (Js.uniqueBy eqb seen l) -> In x l.
Proof.
  revert seen. induction l as [|y l IH]; intros seen H; simpl in *; [exact H|].
  destruct (existsb (eqb y) seen).
  - right. now apply (IH seen).
  - destruct H as [-> | H]; [now left | right; now apply (IH (y :: seen))].
Qed.

Lemma uniqueBy_fresh (seen l : list A) (x : A) :
  In x (Js.uniqueBy eqb seen l) -> ~ In x seen.
Proof.
  revert seen. induction l as [|y l IH]; intros seen H; simpl in *; [contradiction|].
  destruct (existsb (eqb y) seen) eqn:E.
  - now apply IH.
  - destruct H as [-> | H].
    + intros Hin. assert (existsb (eqb x) seen = true); [|congruence].
      apply existsb_exists. exists x. split; [exact Hin | now apply eqb_eq].
    + intros Hin. apply (IH (y :: seen) H). now right.
Qed.

Lemma uniqueBy_NoDup (seen l : list A) : NoDup (Js.uniqueBy eqb seen l).
Proof.
  revert seen. induction l as [|y l IH]; intros seen; simpl; [constructor|].
  destruct (existsb (eqb y) seen); [apply IH|].
  constructor; [|apply IH]. intros H. apply uniqueBy_fresh in H. apply H. now left.
Qed.

Lemma uniqueBy_length (seen l : list A) :
  List.length (Js.uniqueBy eqb seen l) <= List.length l.
Proof.
  revert seen. induction l as [|y l IH]; intros seen; simpl; [lia|].
  destruct (existsb (eqb y) seen); simpl.
  - specialize (IH seen). lia.
  - specialize (IH (y :: seen)). lia.
Qed.

End Unique.

(** ** The calls of [fetchSafely] *)

Lemma fetchSafely_In (answer : option (list Podcast)) (candidates : list Podcast)
  (p : Podcast) :
  In p (fetchSafely answer candidates)
  <-> In p candidates \/ exists results, answer = Some results /\ In p results.
Proof.
  unfold fetchSafely. destruct answer as [[|r results]|].
  - split; [now left|]. intros [H | [results [E H]]]; [exact H|].
    inversion E; subst. contradiction.
  - rewrite in_app_iff. split.
    + intros [H | H]; [now left | right; eauto].
    + intros [H | [results' [E H]]]; [now left|]. inversion E; subst. now right.
  - split; [now left|]. intros [H | [results [E H]]]; [exact H | discriminate].
Qed.

Lemma fetch_fold_In {X : Type} (call : X -> option (list Podcast)) (xs : list X)
  (candidates : list Podcast) (p : Podcast) :
  In p (fold_left (fun acc x => fetchSafely (call x) acc) xs candidates)
  <-> In p candidates
      \/ exists x results, In x xs /\ call x = Some results /\ In p results.
Proof.
  revert candidates. induction xs as [|x xs IH]; intros candidates; simpl.
  - split; [now left|]. intros [H | (x & results & [] & _)]. exact H.
  - rewrite IH, fetchSafely_In. split.
    + intros [[H | (results & E & H)] | (y & results & Hy & E & H)].
      * now left.
      * right. exists x, results. tauto.
      * right. exists y, results. tauto.
    + intros [H | (y & results & [<- | Hy] & E & H)].
      * left. now left.
      * left. right. eauto.
      * right. exists y, results. tauto.
Qed.

(** ** The deduplication loop keeps one podcast of every id it may keep *)

Lemma dedupe_fold_complete (favoriteIds : list string) (candidates : list Podcast)
  (st : list Podcast * list string) :
  (forall x, In x (snd st) <-> In x (map id (fst st))) ->
  let st' := fold_left (dedupeStep favoriteIds) candidates st in
  (forall x, In x (snd st') <-> In x (map id (fst st')))
  /\ (forall p, In p (fst st) -> In p (fst st'))
  /\ (forall p, In p candidates -> ~ In (id p) favoriteIds ->
                In (id p) (map id (fst st')))
  /\ (forall p, In p (fst st') -> In p (fst st) \/ In p candidates).
Proof.
  revert st. induction candidates as [|q qs IH]; intros [unique seen] Hst; simpl.
  - repeat split; try tauto. apply Hst. apply Hst.
  - set (st1 := dedupeStep favoriteIds (unique, seen) q).
    assert (H1 : (forall x, In x (snd st1) <-> In x (map id (fst st1)))
                 /\ (forall p, In p unique -> In p (fst st1))
                 /\ (~ In (id q) favoriteIds -> In (id q) (map id (fst st1)))
                 /\ (forall p, In p (fst st1) -> In p unique \/ p = q)).
    { unfold st1, dedupeStep. simpl in Hst.
      destruct (JsString.includes (id q) seen) eqn:Es; simpl.
      - apply CollectFacts.includes_In in Es.
        repeat split; try tauto; try apply Hst. intros _. now apply Hst.
      - destruct (JsString.includes (id q) favoriteIds) eqn:Ef; simpl.
        + apply CollectFacts.includes_In in Ef.
          repeat split; try tauto; apply Hst.
        + repeat split.
          * intros [<- | H]; rewrite map_app, in_app_iff; simpl; [tauto|].
            left. now apply Hst.
          * rewrite map_app, in_app_iff. simpl. intros [H | [<- | []]]; [|now left].
            right. now apply Hst.
          * intros p H. apply in_app_iff. now left.
          * intros _. rewrite map_app, in_app_iff. simpl. tauto.
          * intros p H. apply in_app_iff in H. simpl in H.
            destruct H as [H | [<- | []]]; tauto. }
    destruct H1 as (Ha & Hb & Hc & Hd).
    destruct (IH st1 Ha) as (Ia & Ib & Ic & Id).
    split; [exact Ia|]. split; [intros p H; exact (Ib p (Hb p H))|]. split.
    + intros p [<- | H] Hf; [|exact (Ic p H Hf)].
      specialize (Hc Hf). apply in_map_iff in Hc. destruct Hc as [p' [E Hp']].
      pose proof (in_map id _ _ (Ib p' Hp')) as G. rewrite E in G. exact G.
    + intros p H. destruct (Id p H) as [H' | H']; [|tauto].
      destruct (Hd p H') as [H'' | ->]; tauto.
Qed.

Lemma uniqueCandidatesOf_complete (favoriteIds : list string)
  (candidates : list Podcast) :
  (forall p, In p (uniqueCandidatesOf favoriteIds candidates) -> In p candidates)
  /\ (forall p, In p candidates -> ~ In (id p) favoriteIds ->
                In (id p) (map id (uniqueCandidatesOf favoriteIds candidates))).
Proof.
  unfold uniqueCandidatesOf.
  destruct (dedupe_fold_complete favoriteIds candidates ([], []))
    as (_ & _ & Hc & Hd); [simpl; tauto|].
  split; [|exact Hc]. intros p H. destruct (Hd p H) as [[] | H']. exact H'.
Qed.

(** ** Queries *)

Lemma generateDiverseQueries_shape (stopwords : list string)
  (tokenize : string -> list string) (listTerms : string -> list (string * float))
  (podcasts : list Podcast) (query : SearchUtil.Query) :
  In query (SearchUtil.generateDiverseQueries stopwords tokenize listTerms podcasts) ->
  exists text,
    query = SearchUtil.mkQuery text
    /\ (nth_error (SearchUtil.extractThemesFromPodcasts stopwords tokenize listTerms
                     podcasts) 0 = Some text
        \/ nth_error (SearchUtil.keywordsOf stopwords podcasts) 0 = Some text
        \/ nth_error (SearchUtil.extractThemesFromPodcasts stopwords tokenize listTerms
                        podcasts) 1 = Some text).
Proof.
  unfold SearchUtil.generateDiverseQueries. destruct podcasts as [|p0 ps]; [intros []|].
  remember (p0 :: ps) as podcasts. intros H.
  apply uniqueBy_In in H. rewrite !in_app_iff in H.
  destruct (SearchUtil.extractThemesFromPodcasts _ _ _ _) as [|t0 [|t1 ts]];
    destruct (SearchUtil.keywordsOf _ _) as [|k0 ks]; simpl in H;
    repeat match goal with
           | H : _ \/ _ |- _ => destruct H as [H | H]
           | H : False |- _ => contradiction
           end; subst query; eexists; (split; [reflexivity|]); simpl; tauto.
Qed.

(** ** Counting with a plain object *)

Lemma getOwn_setOwn (k k' : string) (v : Js.propval) (o : Js.object) :
  Js.getOwn k (Js.setOwn k' v o) = if String.eqb k k' then Some v else Js.getOwn k o.
Proof.
  induction o as [|[k0 v0] o IH]; simpl.
  - reflexivity.
  - destruct (String.eqb k' k0) eqn:E; simpl.
    + apply String.eqb_eq in E. subst k0. now destruct (String.eqb k k').
    + rewrite IH. destruct (String.eqb k k0) eqn:E0; [|reflexivity].
      apply String.eqb_eq in E0. subst k0.
      destruct (String.eqb k k') eqn:E1; [|reflexivity].
      apply String.eqb_eq in E1. subst k'. now rewrite String.eqb_refl in E.
Qed.

Lemma getOwn_In (k : string) (v : Js.propval) (o : Js.object) :
  NoDup (Counter.keys o) -> In (k, v) o -> Js.getOwn k o = Some v.
Proof.
  unfold Counter.keys.
  induction o as [|[k' v'] o IH]; simpl; [tauto|]. intros Hnd [E | Hin].
  - inversion E; subst. now rewrite String.eqb_refl.
  - inversion Hnd as [|? ? Hk Ho]; subst.
    destruct (String.eqb k k') eqn:E; [|now apply IH].
    apply String.eqb_eq in E. subst k'. exfalso. apply Hk.
    apply in_map_iff. now exists (k, v).
Qed.

Lemma getOwn_bump_other (o : Js.object) (k x : string) :
  x <> k -> Js.getOwn k (Js.bump o x) = Js.getOwn k o.
Proof.
  intros H. destruct (ObjectFacts.bump_cases o x) as [[_ ->] | [_ [v ->]]];
    [reflexivity|].
  rewrite getOwn_setOwn. destruct (String.eqb k x) eqn:E; [|reflexivity].
  apply String.eqb_eq in E. congruence.
Qed.

Lemma getOwn_bump_first (o : Js.object) (k : string) :
  Js.getOwn k o = None -> Counter.countedOnce (Js.getOwn k (Js.bump o k)).
Proof.
  intros H. unfold Js.bump. destruct (String.eqb k "__proto__").
  - left. exact H.
  - rewrite H. destruct (JsString.includes k Js.inheritedNames);
      rewrite getOwn_setOwn, String.eqb_refl.
    + right. now right.
    + right. left. reflexivity.
Qed.

Lemma getOwn_fold_absent (l : list string) (o : Js.object) (k : string) :
  ~ In k l -> Js.getOwn k (fold_left Js.bump l o) = Js.getOwn k o.
Proof.
  revert o. induction l as [|x l IH]; intros o H; simpl; [reflexivity|].
  rewrite IH by (simpl in H; tauto).
  apply getOwn_bump_other. simpl in H. intros E. apply H. now left.
Qed.

Lemma getOwn_fold_once (l : list string) (o : Js.object) (k : string) :
  Js.getOwn k o = None ->
  count_occ string_dec l k <= 1 ->
  Counter.countedOnce (Js.getOwn k (fold_left Js.bump l o)).
Proof.
  revert o. induction l as [|x l IH]; intros o Ho Hc; simpl.
  - left. exact Ho.
  - simpl in Hc. destruct (string_dec x k) as [-> | Hx].
    + rewrite getOwn_fold_absent.
      * now apply getOwn_bump_first.
      * intros Hin. apply (count_occ_In string_dec) in Hin. lia.
    + apply IH; [|exact Hc]. rewrite getOwn_bump_other; [exact Ho | exact Hx].
Qed.

End GatherFacts.

(** X10.  Every podcast that [getCandidatePodcasts] returns was delivered
    by the catalog, either in the curated list of one of the first two
    distinct genres of the favorites or in the answer to one of the
    generated queries; and of every delivered podcast whose id is not a
    favorite's, the result holds a podcast with that id. *)
Theorem getCandidatePodcasts_from_catalog_answers :
  forall (stopwords : list string) (tokenize : string -> list string)
         (listTerms : string -> list (string * float))
         (best_podcasts : Z -> option (list Podcast))
         (search : SearchUtil.Query -> option (list Podcast))
         (favoritePodcasts : list Podcast),
    let collected :=
      Recommendations.getCandidatePodcasts stopwords tokenize listTerms
        best_podcasts search favoritePodcasts in
    let delivered := fun p : Podcast =>
      (exists (genreId : Z) (results : list Podcast),
          In genreId (firstn 2 (Collected.genres favoritePodcasts))
          /\ best_podcasts genreId = Some results /\ In p results)
      \/ (exists (query : SearchUtil.Query) (results : list Podcast),
             In query (SearchUtil.generateDiverseQueries stopwords tokenize listTerms
                         favoritePodcasts)
             /\ search query = Some results /\ In p results) in
    (forall p : Podcast, In p collected -> delivered p)
    /\ (forall p : Podcast,
           delivered p -> ~ In (id p) (map id favoritePodcasts) ->
           In (id p) (map id collected))
    /\ (forall genreId : Z,
           In genreId (Collected.genres favoritePodcasts) ->
           exists (f : Podcast) (ids : list Z),
             In f favoritePodcasts /\ genre_ids f = Some ids /\ In genreId ids).
Proof.
  intros stopwords tokenize listTerms best_podcasts search favoritePodcasts
         collected delivered.
  assert (Hg : forall genreId : Z,
             In genreId (Collected.genres favoritePodcasts) ->
             exists (f : Podcast) (ids : list Z),
               In f favoritePodcasts /\ genre_ids f = Some ids /\ In genreId ids).
  { intros g H. apply GatherFacts.uniqueBy_In in H. apply in_flat_map in H.
    destruct H as [f [Hf Hin]]. exists f.
    destruct (genre_ids f) as [ids|]; [|contradiction]. eauto. }
  destruct favoritePodcasts as [|f0 fs].
  - split; [intros p []|]. split; [|exact Hg].
    intros p [(g & r & [] & _) | (q & r & [] & _)].
  - remember (f0 :: fs) as favs.
    set (queries := SearchUtil.generateDiverseQueries stopwords tokenize listTerms favs)
      in *.
    set (byGenre := fold_left
                      (fun acc genreId => Recommendations.fetchSafely (best_podcasts genreId) acc)
                      (firstn 2 (Collected.genres favs)) []).
    set (accumulated := fold_left
                          (fun acc query => Recommendations.fetchSafely (search query) acc)
                          queries byGenre).
    assert (Ec : collected
                 = Recommendations.uniqueCandidatesOf (map id favs) accumulated).
    { unfold collected, Recommendations.getCandidatePodcasts. rewrite Heqfavs.
      rewrite <- Heqfavs. fold queries. unfold accumulated, byGenre.
      f_equal. unfold Collected.genres, Js.slice0.
      generalize (fold_left
                    (fun acc genreId =>
                       Recommendations.fetchSafely (best_podcasts genreId) acc)
                    (firstn 2
                       (Js.uniqueBy Z.eqb []
                          (flat_map (fun p => match genre_ids p with
                                              | Some g => g
                                              | None => []
                                              end) favs))) []).
      intros start.
      assert (Hq : forall query, In query queries ->
                                 exists text, query = SearchUtil.mkQuery text).
      { intros query H.
        destruct (GatherFacts.generateDiverseQueries_shape _ _ _ _ _ H) as [t [E _]].
        eauto. }
      revert start Hq. generalize queries. clear.
      induction queries as [|query queries IH]; intros start Hq; simpl; [reflexivity|].
      destruct (Hq query (or_introl eq_refl)) as [text ->]. simpl.
      apply IH. intros q' H. apply Hq. now right. }
    assert (Hacc : forall p, In p accumulated <-> delivered p).
    { intros p. unfold accumulated. rewrite GatherFacts.fetch_fold_In.
      unfold byGenre. rewrite GatherFacts.fetch_fold_In. unfold delivered.
      simpl. tauto. }
    destruct (GatherFacts.uniqueCandidatesOf_complete (map id favs) accumulated)
      as [Hsub Hall].
    rewrite Ec. split; [intros p H; now apply Hacc, Hsub|].
    split; [|exact Hg]. intros p H Hf. apply Hall; [now apply Hacc | exact Hf].
Qed.

(** X11.  [generateDiverseQueries] returns at most three queries, no two
    alike; each asks for podcasts, 20 to a page, searching descriptions
    only, and its text is the first or second theme or the first keyword
    that survived the filter. *)
Theorem generateDiverseQueries_at_most_three_distinct :
  forall (stopwords : list string) (tokenize : string -> list string)
         (listTerms : string -> list (string * float)) (podcasts : list Podcast),
    let queries :=
      SearchUtil.generateDiverseQueries stopwords tokenize listTerms podcasts in
    let themes :=
      SearchUtil.extractThemesFromPodcasts stopwords tokenize listTerms podcasts in
    let keywords := SearchUtil.keywordsOf stopwords podcasts in
    List.length queries <= 3
    /\ NoDup queries
    /\ forall query : SearchUtil.Query,
         In query queries ->
         SearchUtil.type query = "podcast"%string
         /\ SearchUtil.sort_by_date query = 0
         /\ SearchUtil.page_size query = 20
         /\ SearchUtil.only_in query = "description"%string
         /\ SearchUtil.safe_mode query = 0
         /\ (nth_error themes 0 = Some (SearchUtil.q query)
             \/ nth_error keywords 0 = Some (SearchUtil.q query)
             \/ nth_error themes 1 = Some (SearchUtil.q query)).
Proof.
  intros stopwords tokenize listTerms podcasts queries themes keywords.
  split; [|split].
  - unfold queries, SearchUtil.generateDiverseQueries.
    destruct podcasts as [|p0 ps]; [simpl; lia|].
    unfold SearchUtil.removeDuplicateQueries.
    eapply Nat.le_trans; [apply GatherFacts.uniqueBy_length|].
    rewrite !length_app.
    destruct (SearchUtil.extractThemesFromPodcasts _ _ _ _) as [|t0 [|t1 ts]];
      destruct (SearchUtil.keywordsOf _ _) as [|k0 ks]; simpl; lia.
  - unfold queries, SearchUtil.generateDiverseQueries.
    destruct podcasts as [|p0 ps]; [constructor|].
    apply GatherFacts.uniqueBy_NoDup. exact QueryFacts.sameQuery_eq.
  - intros query H.
    destruct (GatherFacts.generateDiverseQueries_shape _ _ _ _ _ H) as [text [-> Ht]].
    repeat split; exact Ht.
Qed.

(** X12.  [extractThemesFromPodcasts] returns at most three themes, no
    theme twice, and every theme occurs at least twice among the topic terms
    collected from the podcasts' descriptions: a term that only one
    description yields, once, is never a theme. *)
Theorem extractThemesFromPodcasts_terms_seen_twice :
  forall (stopwords : list string) (tokenize : string -> list string)
         (listTerms : string -> list (string * float)) (podcasts : list Podcast),
    let themes :=
      SearchUtil.extractThemesFromPodcasts stopwords tokenize listTerms podcasts in
    List.length themes <= 3
    /\ NoDup themes
    /\ forall theme : string,
         In theme themes ->
         2 <= count_occ string_dec
                (Collected.allTopics stopwords tokenize listTerms podcasts) theme.
Proof.
  intros stopwords tokenize listTerms podcasts themes.
  set (allTopics := Collected.allTopics stopwords tokenize listTerms podcasts).
  set (topicFrequency := fold_left Js.bump allTopics []).
  set (comparefn := fun a b : string * Js.propval =>
                      PrimFloat.sub (Js.toNumber (snd b)) (Js.toNumber (snd a))).
  set (frequent := fun e : string * Js.propval => PrimFloat.ltb 1 (Js.toNumber (snd e))).
  assert (Et : themes
               = map fst (firstn 3 (Js.Array_sort comparefn
                                      (filter frequent (Js.Object_entries topicFrequency)))))
    by reflexivity.
  destruct (ObjectFacts.fold_bump_keys allTopics [] (NoDup_nil _)) as [Hnd _].
  fold topicFrequency in Hnd.
  destruct (ObjectFacts.sorted_entries_keys comparefn frequent topicFrequency Hnd)
    as [Hsnd Hsin].
  rewrite Et. split; [rewrite length_map, length_firstn; lia|].
  split; [rewrite <- firstn_map; now apply ArrayFacts.NoDup_firstn|].
  intros theme H. apply in_map_iff in H. destruct H as [[k v] [E H]].
  simpl in E. subst k. apply SortFacts.In_firstn, Hsin in H.
  destruct H as [Hin Hf]. unfold frequent in Hf. simpl in Hf.
  apply (GatherFacts.getOwn_In theme v topicFrequency Hnd) in Hin.
  destruct (le_lt_dec 2 (count_occ string_dec allTopics theme)) as [Hc | Hc];
    [exact Hc|].
  assert (Ho : Counter.countedOnce (Js.getOwn theme topicFrequency)).
  { apply GatherFacts.getOwn_fold_once; [reflexivity | lia]. }
  rewrite Hin in Ho. destruct Ho as [Ho | [Ho | Ho]]; try discriminate;
    inversion Ho; subst; discriminate.
Qed.
(* ===================================================================== *)
(** * Facts: standardized favorites, the ranking, the route *)
(* ===================================================================== *)

Module ServiceFacts.

Import Recommendations Favorites Fields.

Lemma orDefault_filled (x : option string) (c : ascii) (r : string) :
  filled (orDefault x (String c r)).
Proof.
  unfold orDefault, filled. destruct x as [[|c' r']|]; eauto.
Qed.

Lemma orDefault_orElse_fixed (x y : option string) (fallback : string) :
  filled x -> orDefault (Js.orElse x y) fallback = x.
Proof. intros (c & r & ->). reflexivity. Qed.

Lemma standardize_filled (p : Podcast) :
  filled (title (standardize p)) /\ filled (description (standardize p))
  /\ filled (publisher (standardize p)).
Proof. repeat split; apply orDefault_filled. Qed.

Lemma standardize_idempotent (p : Podcast) : standardize (standardize p) = standardize p.
Proof.
  destruct (standardize_filled p) as (Ht & Hd & Hp).
  unfold standardize at 1.
  rewrite (orDefault_orElse_fixed _ _ _ Ht), (orDefault_orElse_fixed _ _ _ Hd),
    (orDefault_orElse_fixed _ _ _ Hp).
  reflexivity.
Qed.

Lemma standardizeFavorites_present (favorites : list Podcast) :
  standardizeFavorites (Some (map Some favorites)) = Returned (map standardize favorites).
Proof.
  unfold standardizeFavorites. destruct favorites as [|f0 fs]; [reflexivity|].
  rewrite RankingFacts.dereference_present. reflexivity.
Qed.

Lemma dereference_null {A : Type} (l : list (option A)) :
  In None l -> dereference l = Thrown.
Proof.
  induction l as [|[x|] l IH]; simpl; [tauto | | reflexivity].
  intros [H | H]; [discriminate|]. now rewrite IH.
Qed.

Lemma dereference_all {A : Type} (l : list (option A)) :
  ~ In None l -> exists l', l = map Some l'.
Proof.
  induction l as [|[x|] l IH]; simpl; intros H.
  - now exists [].
  - destruct IH as [l' ->]; [tauto|]. now exists (x :: l').
  - tauto.
Qed.

Section Services.

Variable stopwords : list string.
Variable tokenize : string -> list string.
Variable listTerms : string -> list (string * float).
Variable featureExtraction : string -> option (list float).
Variable c : Similarity.cache.

Local Abbreviation rank := (rankCandidates stopwords tokenize listTerms featureExtraction c).

(** The ranking lists every candidate once. *)
Lemma rankCandidates_Permutation f0 fs candidatePodcasts :
  Permutation (map Ranked.podcast (rank (f0 :: fs) candidatePodcasts)) candidatePodcasts.
Proof.
  destruct candidatePodcasts as [|c0 cs]; [apply Permutation_refl|].
  rewrite RankingFacts.rankCandidates_cons by discriminate.
  eapply Permutation_trans;
    [apply Permutation_map, ArrayFacts.Array_sort_Permutation|].
  rewrite map_map. cbn [Ranked.podcast scoreCandidate].
  rewrite map_id. apply Permutation_refl.
Qed.

(** The favorite named for a ranked candidate is one of the favorites. *)
Lemma rankCandidates_mostSimilar favoritePodcasts candidatePodcasts r :
  In r (rank favoritePodcasts candidatePodcasts) ->
  In (Ranked.mostSimilarPodcast r) favoritePodcasts
  /\ Ranked.mostSimilarPodcastId r = id (Ranked.mostSimilarPodcast r).
Proof.
  intros H. apply RankingFacts.rankCandidates_In in H.
  destruct H as (f0 & fs & candidate & -> & _ & ->).
  unfold scoreCandidate. cbn [Ranked.mostSimilarPodcast Ranked.mostSimilarPodcastId].
  match goal with
  | |- context [mostSimilarOf ?sims ?first] =>
      assert (Hin : In (mostSimilarOf sims first) sims)
  end.
  { rewrite RankFacts.mostSimilarOf_fold.
    match goal with
    | |- In (fold_left _ ?l ?cur) _ =>
        destruct (proj1 (RankFacts.keepBest_max l cur)) as [E | Hin]
    end.
    - rewrite E. left. reflexivity.
    - exact Hin. }
  apply in_map_iff in Hin. destruct Hin as (fav & E & Hfav). rewrite <- E.
  cbn [similarityTo Item.favoritePodcast Item.favoriteId]. split; [|reflexivity].
  destruct Hfav as [<- | Hfav]; [now left|].
  unfold favoriteEmbeddingsOf in Hfav. apply in_map_iff in Hfav.
  destruct Hfav as (p & <- & Hp). right. exact Hp.
Qed.

Variable best_podcasts : Z -> option (list Podcast).
Variable search : SearchUtil.Query -> option (list Podcast).

(** The handler, for a list of favorites without null entries. *)
Lemma postRecommendations_present (favorites : list Podcast) :
  favorites <> [] ->
  Routes.postRecommendations stopwords tokenize listTerms featureExtraction
    best_podcasts search c (Some (map Some favorites))
  = match getCandidatePodcasts stopwords tokenize listTerms best_podcasts search
            (map standardize favorites) with
    | [] =>
        Routes.Json 404
          (Some "No potential recommendations found. Try adding more diverse podcasts to your favorites."%string)
          []
    | candidates =>
        match firstn 10
                (recommendationsOf stopwords
                   (rank (map standardize favorites) candidates)) with
        | [] =>
            Routes.Json 404
              (Some "Could not generate meaningful recommendations. Try adding different podcasts to your favorites."%string)
              []
        | recommendations => Routes.Json 200 None recommendations
        end
    end.
Proof.
  intros Hne. unfold Routes.postRecommendations.
  destruct favorites as [|f0 fs]; [congruence|].
  cbn [map]. rewrite <- map_cons.
  rewrite standardizeFavorites_present. cbv beta iota.
  destruct (getCandidatePodcasts _ _ _ _ _ _) as [|c0 cs]; [reflexivity|].
  cbv beta iota.
  change (Some c0 :: map Some cs) with (map Some (c0 :: cs)).
  rewrite RankingFacts.generateRecommendations_present.
  now destruct (firstn 10 _).
Qed.

End Services.

End ServiceFacts.

(** X13.  [standardizeFavorites] returns one podcast per favorite, in order,
    with the same id, genres and original fields; the title, description
    and publisher of each are texts that are not empty, a text that was
    there is kept, and standardizing the result again changes nothing. *)
Theorem standardizeFavorites_fills_text_fields :
  forall favorites : list Podcast,
    exists standardized : list Podcast,
      Favorites.standardizeFavorites (Some (map Some favorites)) = Returned standardized
      /\ map id standardized = map id favorites
      /\ map genre_ids standardized = map genre_ids favorites
      /\ Forall (fun p => Fields.filled (title p)
                          /\ Fields.filled (description p)
                          /\ Fields.filled (publisher p)) standardized
      /\ Forall2 (fun f p =>
                    title_original p = title_original f
                    /\ description_original p = description_original f
                    /\ publisher_original p = publisher_original f
                    /\ (Fields.filled (title f) -> title p = title f)
                    /\ (Fields.filled (description f) -> description p = description f)
                    /\ (Fields.filled (publisher f) -> publisher p = publisher f))
                 favorites standardized
      /\ Favorites.standardizeFavorites (Some (map Some standardized))
         = Returned standardized.
Proof.
  intros favorites. exists (map Favorites.standardize favorites).
  split; [apply ServiceFacts.standardizeFavorites_present|].
  split; [now rewrite map_map|]. split; [now rewrite map_map|].
  split; [|split].
  - apply Forall_forall. intros p H. apply in_map_iff in H.
    destruct H as [f [<- _]]. apply ServiceFacts.standardize_filled.
  - induction favorites as [|f fs IH]; simpl; constructor; [|exact IH].
    repeat split; try reflexivity; intros (ch & r & E);
      unfold Favorites.standardize; simpl; now rewrite E.
  - rewrite ServiceFacts.standardizeFavorites_present, map_map. f_equal.
    apply map_ext. intros p. apply ServiceFacts.standardize_idempotent.
Qed.

(** X14.  The handler of [POST /api/recommendations] answers 400 when the
    favorites are missing or empty, and hands an error on when an entry of
    the list is null.  When the favorites are podcasts of the data model
    (texts or nothing in the text fields, an array of numbers or nothing as
    [genre_ids]) and the catalog answers with such podcasts, it answers 404
    exactly when no candidate was collected for the standardized favorites,
    and else 200 with as many recommendations as there are candidates, up
    to 10; for such requests its second 404, for an empty list of
    recommendations, is not sent.  What the handler does with other values
    in a request (a number as [genre_ids], say) is not stated here. *)
Theorem postRecommendations_answers :
  forall (stopwords : list string) (tokenize : string -> list string)
         (listTerms : string -> list (string * float))
         (featureExtraction : string -> option (list float))
         (best_podcasts : Z -> option (list Podcast))
         (search : SearchUtil.Query -> option (list Podcast))
         (c : Similarity.cache),
    let post :=
      Routes.postRecommendations stopwords tokenize listTerms featureExtraction
        best_podcasts search c in
    (exists message, post None = Routes.Json 400 (Some message) []
                     /\ post (Some []) = Routes.Json 400 (Some message) [])
    /\ (forall favorites : list (option Podcast),
           In None favorites -> post (Some favorites) = Routes.Next)
    /\ (forall favorites : list Podcast,
           favorites <> [] ->
           let candidates :=
             Recommendations.getCandidatePodcasts stopwords tokenize listTerms
               best_podcasts search (map Favorites.standardize favorites) in
           (candidates = [] ->
            exists message, post (Some (map Some favorites))
                            = Routes.Json 404 (Some message) [])
           /\ (candidates <> [] ->
               exists recommendations,
                 post (Some (map Some favorites)) = Routes.Json 200 None recommendations
                 /\ List.length recommendations
                    = Nat.min 10 (List.length candidates))).
Proof.
  intros stopwords tokenize listTerms featureExtraction best_podcasts search c post.
  split; [eexists; split; reflexivity|]. split.
  - intros favorites H. unfold post, Routes.postRecommendations.
    destruct favorites as [|f fs]; [contradiction|].
    unfold Favorites.standardizeFavorites.
    now rewrite (ServiceFacts.dereference_null _ H).
  - intros favorites Hne candidates.
    pose proof (ServiceFacts.postRecommendations_present stopwords tokenize
                  listTerms featureExtraction c best_podcasts search favorites Hne)
      as E.
    fold candidates in E. fold post in E.
    assert (Hlen : List.length
                     (firstn 10
                        (Recommendations.recommendationsOf stopwords
                           (Recommendations.rankCandidates stopwords tokenize
                              listTerms featureExtraction c
                              (map Favorites.standardize favorites) candidates)))
                   = Nat.min 10 (List.length candidates)).
    { rewrite length_firstn, RankingFacts.recommendationsOf_length,
        RankingFacts.rankCandidates_length.
      destruct favorites; [congruence | reflexivity]. }
    clearbody candidates. rewrite E. split.
    + intros ->. eauto.
    + intros Hc. destruct candidates as [|c0 cs]; [congruence|].
      destruct (firstn 10 _) as [|r rs].
      * simpl in Hlen. lia.
      * exists (r :: rs). split; [reflexivity | exact Hlen].
Qed.

(** X15.  When the handler answers 200, it sends between 1 and 10
    recommendations; no two recommend a podcast of the same id, no
    recommended podcast has the id of a favorite, each is one of the
    candidates collected for the standardized favorites, and each names as
    [most_similar_to] the id of one of the favorites. *)
Theorem postRecommendations_ok_recommendations :
  forall (stopwords : list string) (tokenize : string -> list string)
         (listTerms : string -> list (string * float))
         (featureExtraction : string -> option (list float))
         (best_podcasts : Z -> option (list Podcast))
         (search : SearchUtil.Query -> option (list Podcast))
         (c : Similarity.cache) (favorites : list Podcast)
         (recommendations : list Recommendation.t),
    Routes.postRecommendations stopwords tokenize listTerms featureExtraction
      best_podcasts search c (Some (map Some favorites))
    = Routes.Json 200 None recommendations ->
    1 <= List.length recommendations <= 10
    /\ NoDup (map (fun r => id (Recommendation.podcast r)) recommendations)
    /\ Forall (fun r =>
                 ~ In (id (Recommendation.podcast r)) (map id favorites)
                 /\ In (Recommendation.podcast r)
                       (Recommendations.getCandidatePodcasts stopwords tokenize
                          listTerms best_podcasts search
                          (map Favorites.standardize favorites))
                 /\ In (Recommendation.most_similar_to r) (map id favorites))
              recommendations.
Proof.
  intros stopwords tokenize listTerms featureExtraction best_podcasts search c
         favorites recommendations H.
  set (standardized := map Favorites.standardize favorites) in *.
  set (candidates := Recommendations.getCandidatePodcasts stopwords tokenize
                       listTerms best_podcasts search standardized) in *.
  set (ranked := Recommendations.rankCandidates stopwords tokenize listTerms
                   featureExtraction c standardized candidates).
  assert (Hids : map id standardized = map id favorites)
    by (unfold standardized; now rewrite map_map).
  assert (Hfav : favorites <> []) by (intros ->; discriminate H).
  rewrite (ServiceFacts.postRecommendations_present stopwords tokenize listTerms
             featureExtraction c best_podcasts search favorites Hfav) in H.
  fold standardized candidates in H.
  assert (E : recommendations = firstn 10 (Recommendations.recommendationsOf stopwords ranked)
              /\ recommendations <> []).
  { unfold ranked. clearbody candidates.
    destruct candidates as [|c0 cs]; [discriminate|].
    destruct (firstn 10 _) as [|r rs]; [discriminate|].
    inversion H; subst. split; [reflexivity | discriminate]. }
  destruct E as (E & Hne).

  assert (Hperm : Permutation (map Ranked.podcast ranked) candidates).
  { unfold ranked, standardized. destruct favorites as [|f0 fs]; [congruence|].
    apply ServiceFacts.rankCandidates_Permutation. }
  assert (Hcand : NoDup (map id candidates)
                  /\ forall p, In p candidates -> ~ In (id p) (map id standardized)).
  { unfold candidates, Recommendations.getCandidatePodcasts.
    destruct standardized as [|s0 ss]; [split; [constructor | intros p []]|].
    apply CollectFacts.uniqueCandidatesOf_spec. }
  destruct Hcand as [Hnd Hnot].
  assert (Hpod : map Recommendation.podcast recommendations
                 = firstn 10 (map Ranked.podcast ranked)).
  { rewrite E, firstn_map, RankingFacts.recommendationsOf_firstn.
    apply RankingFacts.recommendationsOf_map. }
  split; [|split].
  - split.
    + destruct recommendations; [congruence | simpl; lia].
    + rewrite E, length_firstn. lia.
  - rewrite <- (map_map Recommendation.podcast id), Hpod, <- firstn_map.
    apply ArrayFacts.NoDup_firstn.
    eapply Permutation_NoDup; [|exact Hnd].
    apply Permutation_map, Permutation_sym, Hperm.
  - apply Forall_forall. intros r Hr.
    assert (Hp : In (Recommendation.podcast r) candidates).
    { eapply Permutation_in; [exact Hperm|].
      apply (SortFacts.In_firstn 10). rewrite <- Hpod. now apply in_map. }
    split; [rewrite <- Hids; now apply Hnot|]. split; [exact Hp|].
    rewrite E, RankingFacts.recommendationsOf_firstn in Hr.
    unfold Recommendations.recommendationsOf in Hr. apply in_flat_map in Hr.
    destruct Hr as (rk & Hrk & Hr). simpl in Hr. destruct Hr as [<- | []].
    cbn [Recommendation.most_similar_to].
    apply SortFacts.In_firstn in Hrk.
    destruct (ServiceFacts.rankCandidates_mostSimilar _ _ _ _ _ _ _ _ Hrk) as [Hin Hid].
    rewrite Hid, <- Hids. now apply in_map.
Qed.

Lemma postRecommendations_ok_witness :
  exists recommendations : list Recommendation.t,
    Routes.postRecommendations Fixture.english Fixture.tokenize Fixture.listTerms
      Fixture.compass Scenario.best_podcasts Scenario.search []
      (Some (map Some Fixture.twoFavorites))
    = Routes.Json 200 None recommendations
    /\ 1 <= List.length recommendations <= 10
    /\ NoDup (map (fun r => id (Recommendation.podcast r)) recommendations).
Proof.
  eexists.
  assert (E : Routes.postRecommendations Fixture.english Fixture.tokenize
                Fixture.listTerms Fixture.compass Scenario.best_podcasts
                Scenario.search [] (Some (map Some Fixture.twoFavorites))
              = Routes.Json 200 None _) by (vm_compute; reflexivity).
  split; [exact E|].
  destruct (postRecommendations_ok_recommendations _ _ _ _ _ _ _ _ _ E)
    as (Hlen & Hnd & _).
  split; [exact Hlen | exact Hnd].
Defined.
(** X16.  When an entry of the favorites or of the candidates is null,
    [generateRecommendations] returns the empty array: the error of reading
    the entry is caught. *)
Theorem generateRecommendations_null_entry :
  forall (stopwords : list string) (tokenize : string -> list string)
         (listTerms : string -> list (string * float))
         (featureExtraction : string -> option (list float))
         (c : Similarity.cache) (favorites candidates : list (option Podcast)),
    In None favorites \/ In None candidates ->
    Recommendations.generateRecommendations stopwords tokenize listTerms
      featureExtraction c (Some favorites) (Some candidates)
    = Returned [].
Proof.
  intros stopwords tokenize listTerms featureExtraction c favorites candidates H.
  unfold Recommendations.generateRecommendations.
  destruct favorites as [|f fs]; [reflexivity|].
  destruct candidates as [|x xs]; [reflexivity|].
  destruct H as [H | H].
  - now rewrite (ServiceFacts.dereference_null _ H).
  - rewrite (ServiceFacts.dereference_null (x :: xs) H).
    now destruct (Recommendations.dereference (f :: fs)).
Qed.

Lemma generateRecommendations_null_witness :
  Recommendations.generateRecommendations Fixture.english Fixture.tokenize
    Fixture.listTerms Fixture.compass []
    (Some [Some (Fixture.podcastTitled "f1" "north"); None])
    (Some (map Some Fixture.twoCandidates))
  = Returned [].
Proof.
  apply generateRecommendations_null_entry. left. right. left. reflexivity.
Defined.

(* ===================================================================== *)
(** * Facts: the favorites a page holds, and starting the server *)
(* ===================================================================== *)

Module PagesFacts.

Import Pages Fields.

Lemma spread_kept {T : Type} (computed : T) (own : field T) :
  kept own (spread computed own).
Proof. destruct own; simpl; eauto. Qed.

Lemma spread_present {T : Type} (computed computed' : T) (own : field T) :
  spread computed' (spread computed own) = spread computed own.
Proof. now destruct own. Qed.

Lemma normalizePodcastData_idempotent (p : podcast) :
  normalizePodcastData (normalizePodcastData p) = normalizePodcastData p.
Proof.
  unfold normalizePodcastData at 1. cbn [id title title_original description
    description_original publisher publisher_original thumbnail image website
    listennotes_url genre_ids explicit_content normalizePodcastData].
  now rewrite !spread_present.
Qed.

Lemma findIndex_none {A : Type} (test : A -> bool) (l : list A) :
  findIndex test l = None <-> existsb test l = false.
Proof.
  induction l as [|x l IH]; simpl; [tauto|].
  destruct (test x); simpl; [split; discriminate|].
  destruct (findIndex test l); [|tauto].
  split; [discriminate|]. intros H. apply IH in H. discriminate.
Qed.

Lemma addToFavorites_state (favorites : list podcast) (p : podcast) :
  fst (addToFavorites favorites p)
  = if isFavorite favorites (id p) then favorites
    else favorites ++ [normalizePodcastData p].
Proof.
  unfold addToFavorites, isFavorite. cbn [id normalizePodcastData].
  destruct (findIndex _ favorites) eqn:E.
  - destruct (existsb _ favorites) eqn:E'; [reflexivity|].
    apply findIndex_none in E'. congruence.
  - apply findIndex_none in E. now rewrite E.
Qed.

Lemma isFavorite_In (favorites : list podcast) (x : string) :
  isFavorite favorites x = true <-> In x (map id favorites).
Proof.
  unfold isFavorite. rewrite existsb_exists, in_map_iff.
  split; intros [q [H1 H2]]; exists q.
  - apply String.eqb_eq in H2. tauto.
  - split; [tauto|]. now apply String.eqb_eq.
Qed.

Lemma isFavorite_app (l1 l2 : list podcast) (x : string) :
  isFavorite (l1 ++ l2) x = isFavorite l1 x || isFavorite l2 x.
Proof. apply existsb_app. Qed.

Lemma removeFromFavorites_absent (favorites : list podcast) (x : string) :
  isFavorite favorites x = false -> removeFromFavorites favorites x = favorites.
Proof.
  unfold isFavorite, removeFromFavorites.
  induction favorites as [|q l IH]; simpl; [reflexivity|].
  destruct (String.eqb (id q) x); simpl; [discriminate|].
  intros H. now rewrite IH.
Qed.

Lemma removeFromFavorites_ids (favorites : list podcast) (x : string) :
  map id (removeFromFavorites favorites x)
  = filter (fun i => negb (String.eqb i x)) (map id favorites).
Proof.
  unfold removeFromFavorites.
  induction favorites as [|q l IH]; simpl; [reflexivity|].
  destruct (String.eqb (id q) x); simpl; now rewrite IH.
Qed.

Lemma isFavorite_removed (favorites : list podcast) (x y : string) :
  isFavorite (removeFromFavorites favorites x) y
  = isFavorite favorites y && negb (String.eqb y x).
Proof.
  unfold isFavorite, removeFromFavorites.
  induction favorites as [|q l IH]; simpl; [reflexivity|].
  destruct (String.eqb (id q) x) eqn:E; simpl.
  - apply String.eqb_eq in E. rewrite IH.
    destruct (String.eqb (id q) y) eqn:E'; [|reflexivity].
    apply String.eqb_eq in E'. subst x y. rewrite String.eqb_refl. simpl.
    now rewrite andb_false_r.
  - rewrite IH. destruct (String.eqb (id q) y) eqn:E'; [|reflexivity].
    apply String.eqb_eq in E'. subst y. now rewrite E.
Qed.

End PagesFacts.

(** X17.  [normalizePodcastData] changes no property that the podcast has,
    not even one that is empty or null: it only adds the properties that
    are missing.  So a podcast that has a title which is empty stays
    without title, and normalizing twice is normalizing once. *)
Theorem normalizePodcastData_keeps_own_properties :
  forall p : Pages.podcast,
    let n := Pages.normalizePodcastData p in
    Pages.id n = Pages.id p
    /\ Pages.title_original n = Pages.title_original p
    /\ Pages.description_original n = Pages.description_original p
    /\ Pages.publisher_original n = Pages.publisher_original p
    /\ Pages.image n = Pages.image p
    /\ Fields.kept (Pages.title p) (Pages.title n)
    /\ Fields.kept (Pages.description p) (Pages.description n)
    /\ Fields.kept (Pages.publisher p) (Pages.publisher n)
    /\ Fields.kept (Pages.thumbnail p) (Pages.thumbnail n)
    /\ Fields.kept (Pages.website p) (Pages.website n)
    /\ Fields.kept (Pages.listennotes_url p) (Pages.listennotes_url n)
    /\ Fields.kept (Pages.genre_ids p) (Pages.genre_ids n)
    /\ Fields.kept (Pages.explicit_content p) (Pages.explicit_content n)
    /\ (Pages.title p <> Pages.Absent -> Pages.untitled n = Pages.untitled p)
    /\ Pages.normalizePodcastData n = n.
Proof.
  intros p n. unfold n.
  repeat (split; [first [reflexivity | apply PagesFacts.spread_kept]|]).
  split; [|apply PagesFacts.normalizePodcastData_idempotent].
  unfold Pages.untitled, Pages.normalizePodcastData. cbn [Pages.title].
  destruct (Pages.title p); [congruence | reflexivity].
Qed.

(** X18.  A list of favorites in which no id occurs twice stays so when a
    podcast is added from the search page or from the recommendations
    page, when a podcast is removed, and when the stored favorites are
    normalized. *)
Theorem favorites_never_hold_an_id_twice :
  forall (favorites : list Pages.podcast) (p : Pages.podcast) (podcastId : string),
    NoDup (map Pages.id favorites) ->
    NoDup (map Pages.id (fst (Pages.addToFavorites favorites p)))
    /\ NoDup (map Pages.id (fst (Pages.addRecommended favorites p)))
    /\ NoDup (map Pages.id (Pages.removeFromFavorites favorites podcastId))
    /\ NoDup (map Pages.id (Pages.fixExistingFavorites favorites)).
Proof.
  intros favorites p podcastId H.
  assert (Hadd : NoDup (map Pages.id (fst (Pages.addToFavorites favorites p)))).
  { rewrite PagesFacts.addToFavorites_state.
    destruct (Pages.isFavorite favorites (Pages.id p)) eqn:E; [exact H|].
    rewrite map_app. apply CollectFacts.NoDup_snoc; [exact H|].
    cbn [Pages.id Pages.normalizePodcastData]. intros Hin.
    apply PagesFacts.isFavorite_In in Hin. congruence. }
  split; [exact Hadd|]. split; [|split].
  - unfold Pages.addRecommended.
    destruct (Pages.untitled (Pages.normalizePodcastData p)); [exact H | exact Hadd].
  - rewrite PagesFacts.removeFromFavorites_ids. now apply NoDup_filter.
  - unfold Pages.fixExistingFavorites. rewrite map_map. exact H.
Qed.

Lemma favorites_never_hold_an_id_twice_witness :
  let p := Pages.normalizePodcastData
             {| Pages.id := "a"; Pages.title := Pages.Absent;
                Pages.title_original := Pages.Present (Some "Alpha"%string);
                Pages.description := Pages.Absent;
                Pages.description_original := Pages.Absent;
                Pages.publisher := Pages.Absent;
                Pages.publisher_original := Pages.Absent;
                Pages.thumbnail := Pages.Absent; Pages.image := Pages.Absent;
                Pages.website := Pages.Absent; Pages.listennotes_url := Pages.Absent;
                Pages.genre_ids := Pages.Absent;
                Pages.explicit_content := Pages.Absent |} in
  NoDup (map Pages.id (fst (Pages.addToFavorites [p] p))).
Proof.
  intros p.
  apply (favorites_never_hold_an_id_twice [p] p "a").
  simpl. constructor; [intros [] | constructor].
Defined.

(** X19.  After [addToFavorites] the podcast's id is a favorite and every
    other id is a favorite exactly if it was; the favorites held before
    stay as they were, also when the podcast added has the id of one of
    them; adding the same podcast again changes nothing, and removing an
    id that was just added to a list which did not have it gives that list
    back.  After [removeFromFavorites] the id is no favorite and every
    other id is one exactly if it was.  The recommendations page adds
    nothing when the podcast has no title. *)
Theorem favorites_add_remove_laws :
  forall (favorites : list Pages.podcast) (p : Pages.podcast) (x : string),
    let added := fst (Pages.addToFavorites favorites p) in
    Pages.isFavorite added x
    = Pages.isFavorite favorites x || String.eqb (Pages.id p) x
    /\ (exists tail, added = favorites ++ tail)
    /\ fst (Pages.addToFavorites added p) = added
    /\ (Pages.isFavorite favorites (Pages.id p) = false ->
        Pages.removeFromFavorites added (Pages.id p) = favorites)
    /\ Pages.isFavorite (Pages.removeFromFavorites favorites x) x = false
    /\ (forall y : string,
           y <> x ->
           Pages.isFavorite (Pages.removeFromFavorites favorites x) y
           = Pages.isFavorite favorites y)
    /\ (Pages.untitled (Pages.normalizePodcastData p) = true ->
        Pages.addRecommended favorites p = (favorites, None)).
Proof.
  intros favorites p x added.
  assert (Eadded : added = if Pages.isFavorite favorites (Pages.id p) then favorites
                           else favorites ++ [Pages.normalizePodcastData p])
    by apply PagesFacts.addToFavorites_state.
  assert (Hself : Pages.isFavorite added (Pages.id p) = true).
  { rewrite Eadded. destruct (Pages.isFavorite favorites (Pages.id p)) eqn:E;
      [exact E|].
    rewrite PagesFacts.isFavorite_app. unfold Pages.isFavorite at 2. simpl.
    now rewrite String.eqb_refl, orb_true_r. }
  split; [|split; [|split; [|split; [|split; [|split]]]]].
  - rewrite Eadded. destruct (Pages.isFavorite favorites (Pages.id p)) eqn:E.
    + destruct (String.eqb (Pages.id p) x) eqn:Ex; [|now rewrite orb_false_r].
      apply String.eqb_eq in Ex. subst x. now rewrite E.
    + rewrite PagesFacts.isFavorite_app. unfold Pages.isFavorite at 2. simpl.
      now rewrite orb_false_r.
  - rewrite Eadded. destruct (Pages.isFavorite favorites (Pages.id p)).
    + exists []. now rewrite app_nil_r.
    + eauto.
  - rewrite PagesFacts.addToFavorites_state. now rewrite Hself.
  - intros E. rewrite Eadded, E. unfold Pages.removeFromFavorites.
    rewrite filter_app. simpl. rewrite String.eqb_refl. simpl.
    rewrite app_nil_r. now apply PagesFacts.removeFromFavorites_absent.
  - rewrite PagesFacts.isFavorite_removed, String.eqb_refl. apply andb_false_r.
  - intros y Hy. rewrite PagesFacts.isFavorite_removed.
    apply String.eqb_neq in Hy. rewrite Hy. apply andb_true_r.
  - intros E. unfold Pages.addRecommended. now rewrite E.
Qed.

(** X20.  The server either exits with code 1, exactly when one of [PORT],
    [LISTEN_NOTES_API_KEY] and [HUGGING_FACE_API_KEY] is unset or empty, or
    it listens on the port that [PORT] names with the key that
    [LISTEN_NOTES_API_KEY] holds: the port 5000 written as default is never
    used, and the client's error for a missing key is never thrown. *)
Theorem start_never_uses_the_default_port :
  forall env : Server.environment,
    match Server.start env with
    | Server.Exit code =>
        code = 1%Z
        /\ exists v, In v Server.requiredVars /\ Server.unset env v = true
    | Server.Crash => False
    | Server.Listen on apiKey =>
        (forall v, In v Server.requiredVars -> Server.unset env v = false)
        /\ on = Server.FromEnvironment (Js.orEmpty (env "PORT"%string))
        /\ env "LISTEN_NOTES_API_KEY"%string = Some apiKey
    end.
Proof.
  intros env.
  assert (U : forall v, Server.unset env v = false ->
                        exists ch r, env v = Some (String ch r)).
  { intros v. unfold Server.unset. destruct (env v) as [[|ch r]|]; try discriminate.
    eauto. }
  unfold Server.start, Server.validateEnvironment, Server.requiredVars.
  cbn [filter].
  destruct (Server.unset env "PORT") eqn:U1;
    [cbn; split; [reflexivity|]; exists "PORT"%string; simpl; tauto|].
  destruct (Server.unset env "LISTEN_NOTES_API_KEY") eqn:U2;
    [cbn; split; [reflexivity|]; exists "LISTEN_NOTES_API_KEY"%string; simpl; tauto|].
  destruct (Server.unset env "HUGGING_FACE_API_KEY") eqn:U3;
    [cbn; split; [reflexivity|]; exists "HUGGING_FACE_API_KEY"%string; simpl; tauto|].
  cbn [List.length Nat.ltb Nat.leb negb]. unfold Server.createListenNotesClient.
  destruct (U _ U1) as (c1 & r1 & E1). destruct (U _ U2) as (c2 & r2 & E2).
  rewrite E1, E2. split; [|split; reflexivity].
  intros v [<- | [<- | [<- | []]]]; assumption.
Qed.
(* ===================================================================== *)
(** * Facts: operations that do not round *)
(* ===================================================================== *)

(** Rounding leaves a number that is already representable as it is.  From
    this: dividing by 1 and adding to 0 change nothing but the sign of a
    zero, and counting up from 1 by adding 1 is exact below 2^53. *)
Module FloatExact.

Import FloatOrder FloatOrderFacts FloatSubFacts Exact.
Local Open Scope Z_scope.

Lemma shifted_value (n : nat) (m : positive) :
  Zpos (shifted n m) = Zpos m * 2 ^ Z.of_nat n.
Proof.
  unfold shifted. induction n as [|n IH].
  - simpl. lia.
  - rewrite Nat2Z.inj_succ, Z.pow_succ_r by lia.
    change (Nat.iter (S n) xO m) with (xO (Nat.iter n xO m)).
    rewrite Pos2Z.inj_xO, IH. lia.
Qed.

Lemma shifted_digits (n : nat) (m : positive) :
  Zpos (digits2_pos (shifted n m)) = Zpos (digits2_pos m) + Z.of_nat n.
Proof.
  unfold shifted. induction n as [|n IH].
  - simpl. lia.
  - change (Nat.iter (S n) xO m) with (xO (Nat.iter n xO m)).
    cbn [digits2_pos]. rewrite Pos2Z.inj_succ, IH. lia.
Qed.

Lemma shifted_add (a b : nat) (m : positive) :
  shifted a (shifted b m) = shifted (a + b) m.
Proof. unfold shifted. now rewrite Nat.iter_add. Qed.

Lemma positive_of_value (p q : positive) : Zpos p = Zpos q -> p = q.
Proof. intros H. now inversion H. Qed.

Lemma shr_iter_shifted (n : nat) (m : positive) :
  Nat.iter n shr_1 {| shr_m := Zpos (shifted n m); shr_r := false; shr_s := false |}
  = {| shr_m := Zpos m; shr_r := false; shr_s := false |}.
Proof.
  induction n as [|n IH]; [reflexivity|].
  rewrite Nat.iter_succ_r.
  change (shifted (S n) m) with (xO (shifted n m)). exact IH.
Qed.

(** Rounding a representable number, given with [n] more bits than its
    canonical form has. *)
Lemma binary_round_aux_exact (s : bool) (m : positive) (e : Z) (n : nat) :
  bounded prec emax m e = true ->
  binary_round_aux prec emax s (Zpos (shifted n m)) (e - Z.of_nat n) loc_Exact
  = S754_finite s m e.
Proof.
  intros Hb. unfold bounded in Hb. apply andb_true_iff in Hb.
  destruct Hb as [Hc He]. unfold canonical_mantissa in Hc. apply Z.eqb_eq in Hc.
  unfold binary_round_aux, shr_fexp.
  cbn [Zdigits2 shr_record_of_loc]. rewrite shifted_digits.
  replace (Zpos (digits2_pos m) + Z.of_nat n + (e - Z.of_nat n))
    with (Zpos (digits2_pos m) + e) by lia.
  rewrite Hc.
  replace (e - (e - Z.of_nat n)) with (Z.of_nat n) by lia.
  assert (Hshr : shr {| shr_m := Zpos (shifted n m); shr_r := false; shr_s := false |}
                     (e - Z.of_nat n) (Z.of_nat n)
                 = ({| shr_m := Zpos m; shr_r := false; shr_s := false |}, e)).
  { unfold shr. destruct n as [|n].
    - simpl. f_equal. lia.
    - rewrite Nat2Z.inj_succ. rewrite <- Nat2Z.inj_succ.
      destruct (Z.of_nat (S n)) as [|p|p] eqn:Ep; try lia.
      rewrite iter_pos_nat.
      assert (Pos.to_nat p = S n) by lia.
      rewrite H, shr_iter_shifted. f_equal. lia. }
  rewrite Hshr. cbn [shr_m loc_of_shr_record round_nearest_even Zdigits2
                     shr_record_of_loc].
  rewrite Hc. replace (e - e) with 0 by lia. cbn [shr shr_m].
  now rewrite He.
Qed.

(** ** Division by 1 *)

Lemma Prim2SF_one : Prim2SF 1%float = S754_finite false 4503599627370496 (-52).
Proof. reflexivity. Qed.

Lemma SFdiv_one (f : spec_float) :
  valid_binary f = true ->
  SFdiv prec emax f (S754_finite false 4503599627370496 (-52)) = f.
Proof.
  intros Hv. destruct f as [s|s| |s m e]; try (destruct s; reflexivity);
    try reflexivity.
  pose proof (valid_finite s m e Hv) as (Hmin & Hdig & Hnorm).
  assert (Hb : bounded prec emax m e = true) by exact Hv.
  unfold SFdiv, SFdiv_core_binary.
  change (Zdigits2 (Zpos 4503599627370496)) with 53.
  cbn [Zdigits2].
  replace (xorb s false) with s by (now destruct s).
  unfold emin, prec, emax in Hmin, Hdig, Hnorm.
  destruct (Z.eq_dec e (-1074)) as [-> | Hne].
  - (* the smallest exponent: the quotient has the mantissa's digits *)
    assert (E' : Z.min (fexp prec emax (Zpos (digits2_pos m) + -1074 - (53 + -52)))
                       (-1074 - -52) = -1074).
    { unfold fexp, emin, prec, emax. lia. }
    rewrite E'. change (-1074 - -52 - -1074) with 52. cbv iota.
    rewrite Z.shiftl_mul_pow2 by lia.
    change (2 ^ 52) with 4503599627370496.
    assert (Ed : Z.div_eucl (Zpos m * 4503599627370496) 4503599627370496 = (Zpos m, 0)).
    { pose proof (Z.div_eucl_eq (Zpos m * 4503599627370496) 4503599627370496) as Hq.
      pose proof (Z.mod_pos_bound (Zpos m * 4503599627370496) 4503599627370496) as Hr.
      unfold Z.modulo in Hr.
      destruct (Z.div_eucl _ _) as [q r]. specialize (Hq ltac:(lia)).
      specialize (Hr ltac:(lia)). f_equal; lia. }
    rewrite Ed. change (new_location 4503599627370496 0) with loc_Exact.
    exact (binary_round_aux_exact s m (-1074) 0 Hb).
  - (* a normal number: the quotient has one more digit *)
    assert (Hd : Zpos (digits2_pos m) = 53) by (apply Hnorm; lia).
    rewrite Hd.
    assert (E' : Z.min (fexp prec emax (53 + e - (53 + -52))) (e - -52) = e - 1).
    { unfold fexp, emin, prec, emax. lia. }
    rewrite E'. replace (e - -52 - (e - 1)) with 53 by lia. cbv iota.
    rewrite Z.shiftl_mul_pow2 by lia.
    assert (Ed : Z.div_eucl (Zpos m * 2 ^ 53) 4503599627370496 = (Zpos (xO m), 0)).
    { pose proof (Z.div_eucl_eq (Zpos m * 2 ^ 53) 4503599627370496) as Hq.
      pose proof (Z.mod_pos_bound (Zpos m * 2 ^ 53) 4503599627370496) as Hr.
      unfold Z.modulo in Hr. change (2 ^ 53) with (2 * 4503599627370496) in *.
      destruct (Z.div_eucl _ _) as [q r]. specialize (Hq ltac:(lia)).
      specialize (Hr ltac:(lia)). rewrite Pos2Z.inj_xO. f_equal; lia. }
    rewrite Ed. change (new_location 4503599627370496 0) with loc_Exact.
    exact (binary_round_aux_exact s m e 1 Hb).
Qed.

Lemma div_one (x : float) : PrimFloat.div x 1 = x.
Proof.
  apply Prim2SF_inj. rewrite FloatAxioms.div_spec, Prim2SF_one.
  apply SFdiv_one, Prim2SF_valid.
Qed.

(** ** Addition to 0 *)

Lemma zero_add_key (x : float) : key (PrimFloat.add 0 x) = key x.
Proof.
  unfold key. rewrite FloatAxioms.add_spec.
  change (Prim2SF 0) with (S754_zero false).
  destruct (Prim2SF x) as [[|]|[|]| |s m e]; reflexivity.
Qed.

(** The mean of one number is that number, but for the sign of a zero. *)
Lemma mean_of_one_key (x : float) :
  key (PrimFloat.div (PrimFloat.add 0 x) 1) = key x.
Proof. rewrite div_one. apply zero_add_key. Qed.

(** ** Counting *)

Lemma counted_bounded (p : positive) :
  Zpos p < 2 ^ 53 ->
  Zpos (digits2_pos p) <= 53
  /\ bounded prec emax (shifted (Z.to_nat (53 - Zpos (digits2_pos p))) p)
       (Zpos (digits2_pos p) - 53) = true.
Proof.
  intros H. pose proof (digits2_bounds p) as [Hlo _].
  assert (Hd : Zpos (digits2_pos p) <= 53).
  { destruct (Z_le_gt_dec (Zpos (digits2_pos p)) 53) as [L | G]; [exact L|].
    assert (2 ^ 53 <= 2 ^ (Zpos (digits2_pos p) - 1))
      by (apply Z.pow_le_mono_r; lia).
    lia. }
  split; [exact Hd|].
  unfold bounded, canonical_mantissa, fexp, emin, prec, emax.
  rewrite shifted_digits, Z2Nat.id by lia.
  apply andb_true_iff. split; [apply Z.eqb_eq | apply Z.leb_le]; lia.
Qed.

Lemma counted_one : Prim2SF (PrimFloat.add 0 1) = counted 1.
Proof. reflexivity. Qed.

(** Adding 1 to a count gives the next count, exactly. *)
Lemma counted_succ (x : float) (p : positive) :
  Zpos p + 1 < 2 ^ 53 ->
  Prim2SF x = counted p ->
  Prim2SF (PrimFloat.add x 1) = counted (p + 1).
Proof.
  intros Hp Hx. rewrite FloatAxioms.add_spec, Hx, Prim2SF_one.
  destruct (counted_bounded p ltac:(lia)) as [Hd _].
  destruct (counted_bounded (p + 1) ltac:(lia)) as [Hd' Hb'].
  pose proof (Pos2Z.is_pos (digits2_pos p)) as Hpos.
  pose proof (Pos2Z.is_pos (digits2_pos (p + 1))) as Hpos'.
  unfold counted at 1. unfold SF64add, SFadd.
  replace (Z.min (Zpos (digits2_pos p) - 53) (-52)) with (-52) by lia.
  rewrite shl_align_value by lia.
  change (fst (shl_align 4503599627370496 (-52) (-52))) with 4503599627370496%positive.
  cbn [cond_Zopp].
  rewrite shifted_value, Z2Nat.id by lia.
  rewrite <- Z.mul_assoc, <- Z.pow_add_r by lia.
  replace (53 - Zpos (digits2_pos p) + (Zpos (digits2_pos p) - 53 - -52)) with 52 by lia.
  replace (Zpos p * 2 ^ 52 + 4503599627370496) with (Zpos (shifted 52 (p + 1)))
    by (rewrite shifted_value, Pos2Z.inj_add; change (2 ^ Z.of_nat 52) with 4503599627370496; lia).
  unfold binary_normalize, binary_round.
  assert (Hal : shl_align (shifted 52 (p + 1)) (-52)
                  (fexp prec emax (Zpos (digits2_pos (shifted 52 (p + 1))) + -52))
                = (shifted 52 (p + 1), -52)).
  { unfold shl_align. rewrite shifted_digits.
    unfold fexp, emin, prec, emax.
    destruct (Z.max (Zpos (digits2_pos (p + 1)) + Z.of_nat 52 + -52 - 53) (3 - 1024 - 53)
              - -52) eqn:E; try reflexivity. lia. }
  rewrite Hal. unfold counted.
  set (k := Z.to_nat (53 - Zpos (digits2_pos (p + 1)))).
  set (n := Z.to_nat (Zpos (digits2_pos (p + 1)) - 1)).
  replace (shifted 52 (p + 1)) with (shifted n (shifted k (p + 1)))
    by (rewrite shifted_add; f_equal; unfold n, k; lia).
  replace (-52) with (Zpos (digits2_pos (p + 1)) - 53 - Z.of_nat n)
    by (unfold n; lia).
  apply binary_round_aux_exact. exact Hb'.
Qed.

Lemma digits2_mono (p q : positive) :
  Zpos p <= Zpos q -> Zpos (digits2_pos p) <= Zpos (digits2_pos q).
Proof.
  intros H. pose proof (digits2_bounds p) as [Hlo _].
  pose proof (digits2_bounds q) as [_ Hhi].
  destruct (Z_le_gt_dec (Zpos (digits2_pos p)) (Zpos (digits2_pos q))) as [L | G];
    [exact L|].
  assert (2 ^ Zpos (digits2_pos q) <= 2 ^ (Zpos (digits2_pos p) - 1))
    by (apply Z.pow_le_mono_r; lia).
  lia.
Qed.

(** Counts compare as the integers they are. *)
Lemma counted_rank_lt (p q : positive) :
  Zpos p < 2 ^ 53 -> Zpos q < 2 ^ 53 -> Zpos p < Zpos q ->
  exists a b, rank (counted p) = Some a /\ rank (counted q) = Some b /\ lexLt a b.
Proof.
  intros Hp Hq Hlt. unfold counted. cbn [rank]. do 2 eexists.
  split; [reflexivity|]. split; [reflexivity|]. unfold lexLt.
  destruct (counted_bounded p Hp) as [Hd _].
  destruct (counted_bounded q Hq) as [Hd' _].
  pose proof (digits2_mono p q ltac:(lia)) as Hm.
  pose proof (Pos2Z.is_pos (digits2_pos p)).
  pose proof (Pos2Z.is_pos (digits2_pos q)).
  right. split; [reflexivity|].
  destruct (Z.eq_dec (Zpos (digits2_pos p)) (Zpos (digits2_pos q))) as [E | N].
  - right. split; [lia|]. rewrite !shifted_value, E.
    apply Z.mul_lt_mono_pos_r; [|exact Hlt]. apply Z.pow_pos_nonneg; lia.
  - left. lia.
Qed.

Lemma counted_not_nan (x : float) (p : positive) :
  Prim2SF x = counted p ->
  Js.isNaNf x = false /\ PrimFloat.eqb x 0 = false.
Proof.
  intros H. split.
  - apply isNaNf_key. unfold key. rewrite H. unfold counted. cbn [rank]. eauto.
  - destruct (PrimFloat.eqb x 0) eqn:E; [|reflexivity].
    apply eqb_key in E. destruct E as (a & Ea & Eb).
    unfold key in Ea, Eb. rewrite H in Ea. unfold counted in Ea. simpl in Ea, Eb.
    congruence.
Qed.

End FloatExact.
(* ===================================================================== *)
(** * Facts: the mean over the favorites and the reported pairing *)
(* ===================================================================== *)

Module MeanFacts.

Import FloatOrder FloatOrderFacts FloatSubFacts Exact FloatExact Recommendations
       Invariants.

(** A whole number below 2^53, converted to binary64, is that number. *)
Lemma binary_normalize_counted (p : positive) :
  (Zpos p < 2 ^ 53)%Z -> binary_normalize prec emax (Zpos p) 0 false = counted p.
Proof.
  intros Hp. destruct (counted_bounded p Hp) as [Hd Hb].
  pose proof (Pos2Z.is_pos (digits2_pos p)) as Hpos.
  unfold binary_normalize, binary_round.
  assert (Hal : shl_align p 0 (fexp prec emax (Zpos (digits2_pos p) + 0))
                = (shifted (Z.to_nat (53 - Zpos (digits2_pos p))) p,
                   (Zpos (digits2_pos p) - 53)%Z)).
  { unfold shl_align, fexp, emin, prec, emax.
    change (3 - 1024 - 53)%Z with (-1074)%Z.
    rewrite Z.max_l by lia. rewrite Z.add_0_r, Z.sub_0_r.
    destruct (Zpos (digits2_pos p) - 53)%Z as [|q|q] eqn:E.
    - replace (Z.to_nat (53 - Zpos (digits2_pos p))) with 0%nat by lia.
      reflexivity.
    - lia.
    - f_equal. unfold shifted.
      replace (Z.to_nat (53 - Zpos (digits2_pos p))) with (Pos.to_nat q) by lia.
      apply Pos2Nat.inj_iter. }
  rewrite Hal. unfold counted.
  pose proof (binary_round_aux_exact false _ _ 0 Hb) as H.
  cbn [Z.of_nat] in H. rewrite Z.sub_0_r in H. exact H.
Qed.

Lemma wholeNumber_counted (x : float) (p : positive) :
  (Zpos p < 2 ^ 53)%Z -> Prim2SF x = counted p -> wholeNumber x = Some (Zpos p).
Proof.
  intros Hp Hx. destruct (counted_bounded p Hp) as [Hd _].
  pose proof (Pos2Z.is_pos (digits2_pos p)) as Hpos.
  unfold wholeNumber. rewrite Hx. unfold counted.
  rewrite shifted_value, Z2Nat.id by lia.
  destruct (0 <=? Zpos (digits2_pos p) - 53)%Z eqn:E.
  - apply Z.leb_le in E.
    replace (Zpos (digits2_pos p) - 53)%Z with 0%Z by lia.
    replace (53 - Zpos (digits2_pos p))%Z with 0%Z by lia.
    f_equal. lia.
  - replace (- (Zpos (digits2_pos p) - 53))%Z with (53 - Zpos (digits2_pos p))%Z by lia.
    rewrite Z.mod_mul by (apply Z.pow_nonzero; lia).
    rewrite Z.div_mul by (apply Z.pow_nonzero; lia). reflexivity.
Qed.

(** [similarities.length], as a number, is the number of entries. *)
Lemma lengthOf_whole {A : Type} (l : list A) :
  l <> [] -> (Z.of_nat (List.length l) < 2 ^ 53)%Z ->
  wholeNumber (lengthOf l) = Some (Z.of_nat (List.length l)).
Proof.
  intros Hne Hlen.
  assert (Hp : exists p, Z.of_nat (List.length l) = Zpos p).
  { destruct l as [|a l]; [congruence|].
    exists (Pos.of_succ_nat (List.length l)). cbn [List.length]. lia. }
  destruct Hp as [p Hp]. rewrite Hp in Hlen |- *.
  apply wholeNumber_counted; [exact Hlen|].
  unfold lengthOf. rewrite Hp, FloatAxioms.of_uint63_spec, Uint63.of_Z_spec.
  rewrite Z.mod_small.
  - now apply binary_normalize_counted.
  - split; [lia|]. change wB with (2 ^ 63)%Z.
    assert (2 ^ 53 < 2 ^ 63)%Z by (apply Z.pow_lt_mono_r; lia). lia.
Qed.

(** ** The [reduce] that looks for the most similar favorite *)

Lemma nan_no_key (x : float) : Js.isNaNf x = true -> key x = None.
Proof.
  intros H. destruct (key x) as [a|] eqn:K; [|reflexivity].
  assert (N : Js.isNaNf x = false) by (apply isNaNf_key; eauto). congruence.
Qed.

Lemma keepBest_self (x : Item.t) : keepBest x x = x.
Proof. unfold keepBest. now rewrite ltb_irrefl. Qed.

(** A running best that is a number stays the earliest greatest number. *)
Lemma keepBest_number l :
  forall pre k cur,
    earliestBestNumber pre k cur ->
    exists k', earliestBestNumber (pre ++ l) k' (fold_left keepBest l cur).
Proof.
  induction l as [|y l IH]; intros pre k cur H; simpl.
  - exists k. now rewrite app_nil_r.
  - replace (pre ++ y :: l) with ((pre ++ [y]) ++ l)
      by (rewrite <- app_assoc; reflexivity).
    destruct H as (Hk & Hnum & Hbefore & Hall).
    pose proof Hnum as Hkey. apply isNaNf_key in Hkey. destruct Hkey as [kc Kc].
    assert (Hlt : (k < List.length pre)%nat) by (apply nth_error_Some; congruence).
    unfold keepBest at 2.
    destruct (PrimFloat.ltb (Item.score cur) (Item.score y)) eqn:E.
    + (* the element replaces the running best *)
      pose proof E as E'. apply ltb_key in E'.
      destruct E' as (a & ky & Ka & Ky & L).
      assert (a = kc) by congruence. subst a.
      apply (IH (pre ++ [y]) (List.length pre) y). repeat split.
      * rewrite nth_error_app2, Nat.sub_diag; [reflexivity | lia].
      * apply isNaNf_key. eauto.
      * intros j x Hj Hx. rewrite nth_error_app1 in Hx by exact Hj.
        destruct (Hall x (nth_error_In _ _ Hx)) as [N | Hle]; [now left | right].
        apply leb_key in Hle. destruct Hle as (kx & kc' & Kx & Kc' & Hle).
        assert (kc' = kc) by congruence. subst kc'.
        apply (ltb_known _ _ kx ky Kx Ky). eapply lexLe_lt_trans; eassumption.
      * intros x Hx. apply in_app_or in Hx. destruct Hx as [Hx | [<- | []]].
        -- destruct (Hall x Hx) as [N | Hle]; [now left | right].
           apply leb_key in Hle. destruct Hle as (kx & kc' & Kx & Kc' & Hle).
           assert (kc' = kc) by congruence. subst kc'.
           apply (leb_known _ _ kx ky Kx Ky). left.
           eapply lexLe_lt_trans; eassumption.
        -- right. apply (leb_known _ _ ky ky Ky Ky). apply lexLe_refl.
    + (* the running best stays *)
      apply (IH (pre ++ [y]) k cur). repeat split.
      * rewrite nth_error_app1; assumption.
      * exact Hnum.
      * intros j x Hj Hx. apply (Hbefore j x Hj).
        rewrite nth_error_app1 in Hx; [assumption | lia].
      * intros x Hx. apply in_app_or in Hx. destruct Hx as [Hx | [<- | []]].
        -- now apply Hall.
        -- destruct (Js.isNaNf (Item.score y)) eqn:Ny; [now left | right].
           apply isNaNf_key in Ny. destruct Ny as [ky Ky].
           apply (leb_known _ _ ky kc Ky Kc).
           now apply (ltb_known_false _ _ kc ky Kc Ky).
Qed.

(** When the first score is a number, the [reduce] returns the earliest
    element with the greatest score among the numbers. *)
Lemma mostSimilarOf_number first rest :
  Js.isNaNf (Item.score first) = false ->
  exists k, earliestBestNumber (first :: rest) k
              (mostSimilarOf (first :: rest) first).
Proof.
  intros Hnum. rewrite RankFacts.mostSimilarOf_fold. simpl fold_left.
  rewrite keepBest_self.
  apply (keepBest_number rest [first] 0 first). repeat split.
  - exact Hnum.
  - intros j x Hj. lia.
  - intros x [<- | []]. right.
    apply isNaNf_key in Hnum. destruct Hnum as [kf Kf].
    apply (leb_known _ _ kf kf Kf Kf). apply lexLe_refl.
Qed.

(** When the first score is NaN, the [reduce] returns the first element. *)
Lemma mostSimilarOf_nan first rest :
  Js.isNaNf (Item.score first) = true ->
  mostSimilarOf (first :: rest) first = first.
Proof.
  intros Hnan. rewrite RankFacts.mostSimilarOf_fold. simpl fold_left.
  rewrite keepBest_self. apply RankFacts.keepBest_nan. now apply nan_no_key.
Qed.

Section Services.

Variable stopwords : list string.
Variable tokenize : string -> list string.
Variable listTerms : string -> list (string * float).
Variable featureExtraction : string -> option (list float).
Variable c : Similarity.cache.

(** The [similarities] of a candidate have one entry per favorite, in the
    order of the favorites. *)
Lemma similaritiesOf_favorites favoritePodcasts candidate :
  map Item.favoritePodcast
      (similaritiesOf stopwords tokenize listTerms featureExtraction c
         favoritePodcasts candidate)
  = favoritePodcasts.
Proof.
  unfold similaritiesOf, favoriteEmbeddingsOf. rewrite !map_map.
  cbn [similarityTo Item.favoritePodcast favoriteEmbeddingOf podcast].
  apply map_id.
Qed.

End Services.

End MeanFacts.

(** C2 (as stated, refuted).  The favorites "huge" and "unit" and the
    candidate "large": the provider's vectors for "huge" and "large" have an
    entry whose square is too large for a number, so the combined score of
    the first pairing is NaN, while that of the second pairing is 0.  The
    record reports the first pairing, whose combined score is not the
    highest: it is not even at least the score of the second. *)
Lemma rankCandidates_reports_nan_pairing :
  exists (r : Ranked.t) (first second : Item.t),
    Recommendations.rankCandidates Fixture.english Fixture.tokenize
      Fixture.listTerms Fixture.vast [] Fixture.hugeAndUnit Fixture.largeCandidate
    = [r]
    /\ Recommendations.similaritiesOf Fixture.english Fixture.tokenize
         Fixture.listTerms Fixture.vast [] Fixture.hugeAndUnit (Ranked.podcast r)
       = [first; second]
    /\ Js.isNaNf (Item.score first) = true
    /\ Item.score second = 0%float
    /\ Ranked.mostSimilarPodcastId r = Item.favoriteId first
    /\ Ranked.semanticScore r = Item.semanticScore first
    /\ Ranked.topicScore r = Item.topicScore first
    /\ Js.isNaNf (Ranked.matchScore r) = true
    /\ PrimFloat.leb (Item.score second) (Ranked.matchScore r) = false.
Proof.
  do 3 eexists. split; [vm_compute; reflexivity|].
  split; [vm_compute; reflexivity|].
  repeat split; vm_compute; reflexivity.
Qed.

(** C2 (amended).  In [rankCandidates], for every favorite and candidate the
    combined score is [semanticScore * 0.7 + topicScore * 1.5 * 0.3], where
    the two scores are the cosine and the topic similarity of the pair.
    Every ranked record belongs to one candidate, every candidate is
    ranked, and the records come in descending order of [similarityScore]
    when none is NaN.  The [similarities] of the candidate have one entry per
    favorite, in order; the record's [similarityScore] is their combined
    scores, added up from 0 in that order, divided by a number that is the
    number of favorites (as long as there are fewer than 2^53, which an
    array always has).  Its [mostSimilarPodcastId], [mostSimilarPodcast],
    [semanticScore], [topicScore] and [matchScore] are those of one
    pairing, which no pairing exceeds in combined score: the first pairing
    when the combined score of the first pairing is NaN, and otherwise the
    earliest pairing with the highest combined score among those whose
    combined score is not NaN. *)
Theorem rankCandidates_combined_mean_and_best :
  forall (stopwords : list string) (tokenize : string -> list string)
         (listTerms : string -> list (string * float))
         (featureExtraction : string -> option (list float))
         (c : Similarity.cache) (favoritePodcasts candidatePodcasts : list Podcast),
    (forall (candidateEmbedding : list float) (candidateTopics : list Topic)
            (fav : Recommendations.FavoriteEmbedding),
        let item := Recommendations.similarityTo candidateEmbedding candidateTopics fav in
        Item.semanticScore item
        = Similarity.calculateCosineSimilarity
            (Recommendations.embedding fav) candidateEmbedding
        /\ Item.topicScore item
           = Similarity.calculateTopicSimilarity
               (Recommendations.topics fav) candidateTopics
        /\ Item.score item
           = (Item.semanticScore item * 0.7 + Item.topicScore item * 1.5 * 0.3)%float)
    /\ Forall
         (fun r : Ranked.t =>
            let similarities :=
              Recommendations.similaritiesOf stopwords tokenize listTerms
                featureExtraction c favoritePodcasts (Ranked.podcast r) in
            In (Ranked.podcast r) candidatePodcasts
            /\ map Item.favoritePodcast similarities = favoritePodcasts
            /\ (exists n : float,
                   Ranked.similarityScore r
                   = (fold_left (fun sum item => sum + Item.score item) similarities 0
                      / n)%float
                   /\ ((Z.of_nat (List.length favoritePodcasts) < 2 ^ 53)%Z ->
                       Exact.wholeNumber n
                       = Some (Z.of_nat (List.length favoritePodcasts))))
            /\ exists (k : nat) (first best : Item.t),
                nth_error similarities 0 = Some first
                /\ nth_error similarities k = Some best
                /\ Ranked.mostSimilarPodcastId r = Item.favoriteId best
                /\ Ranked.mostSimilarPodcast r = Item.favoritePodcast best
                /\ Ranked.semanticScore r = Item.semanticScore best
                /\ Ranked.topicScore r = Item.topicScore best
                /\ Ranked.matchScore r = Item.score best
                /\ Forall (fun item =>
                             PrimFloat.ltb (Item.score best) (Item.score item) = false)
                          similarities
                /\ (Js.isNaNf (Item.score first) = true -> k = 0%nat)
                /\ (Js.isNaNf (Item.score first) = false ->
                    Js.isNaNf (Item.score best) = false
                    /\ Forall (fun item =>
                                 Js.isNaNf (Item.score item) = true
                                 \/ PrimFloat.leb (Item.score item) (Item.score best)
                                    = true)
                              similarities
                    /\ forall (j : nat) (earlier : Item.t),
                        (j < k)%nat -> nth_error similarities j = Some earlier ->
                        Js.isNaNf (Item.score earlier) = true
                        \/ PrimFloat.ltb (Item.score earlier) (Item.score best) = true))
         (Recommendations.rankCandidates stopwords tokenize listTerms
            featureExtraction c favoritePodcasts candidatePodcasts)
    /\ List.length
         (Recommendations.rankCandidates stopwords tokenize listTerms
            featureExtraction c favoritePodcasts candidatePodcasts)
       = match favoritePodcasts with
         | [] => 0%nat
         | _ => List.length candidatePodcasts
         end
    /\ (Forall (fun r => Js.isNaNf (Ranked.similarityScore r) = false)
               (Recommendations.rankCandidates stopwords tokenize listTerms
                  featureExtraction c favoritePodcasts candidatePodcasts) ->
        Invariants.descending Ranked.similarityScore
          (Recommendations.rankCandidates stopwords tokenize listTerms
             featureExtraction c favoritePodcasts candidatePodcasts)).
Proof.
  intros stopwords tokenize listTerms featureExtraction c favoritePodcasts
         candidatePodcasts.
  split; [intros; repeat split|].
  split;
    [|split; [apply RankingFacts.rankCandidates_length
             |apply RankingFacts.rankCandidates_descending]].
  apply Forall_forall. intros r Hr.
  apply RankingFacts.rankCandidates_In in Hr.
  destruct Hr as (f0 & fs & candidate & -> & Hc & ->).
  cbv zeta.
  change (Ranked.podcast (Recommendations.scoreCandidate _ _ _ _ _ _ _ candidate))
    with candidate.
  split; [exact Hc|].
  split; [apply MeanFacts.similaritiesOf_favorites|].
  set (sims := Recommendations.similaritiesOf stopwords tokenize listTerms
                 featureExtraction c (f0 :: fs) candidate).
  assert (Hlen : List.length sims = List.length (f0 :: fs)).
  { rewrite <- (length_map Item.favoritePodcast sims). unfold sims.
    now rewrite MeanFacts.similaritiesOf_favorites. }
  split.
  { exists (Recommendations.lengthOf sims). split; [reflexivity|].
    intros Hbound. rewrite <- Hlen in Hbound |- *.
    apply MeanFacts.lengthOf_whole; [|exact Hbound].
    intros E. rewrite E in Hlen. discriminate Hlen. }
  set (first := Recommendations.similarityTo
                  (Recommendations.candidateEmbeddingOf featureExtraction
                     (Recommendations.cacheAfterFavorites featureExtraction c (f0 :: fs))
                     candidate)
                  (Recommendations.topicsOf stopwords tokenize listTerms candidate)
                  (Recommendations.favoriteEmbeddingOf stopwords tokenize listTerms
                     featureExtraction c f0)).
  set (rest := map (Recommendations.similarityTo
                      (Recommendations.candidateEmbeddingOf featureExtraction
                         (Recommendations.cacheAfterFavorites featureExtraction c
                            (f0 :: fs)) candidate)
                      (Recommendations.topicsOf stopwords tokenize listTerms candidate))
                   (Recommendations.favoriteEmbeddingsOf stopwords tokenize listTerms
                      featureExtraction c fs)).
  assert (Es : sims = first :: rest) by reflexivity.
  set (best := Recommendations.mostSimilarOf sims first).
  assert (Hmax : Forall (fun item =>
                           PrimFloat.ltb (Item.score best) (Item.score item) = false)
                        sims).
  { apply Forall_forall. intros item Hitem.
    destruct (RankFacts.keepBest_max sims first) as [_ Hmax].
    rewrite <- RankFacts.mostSimilarOf_fold in Hmax. apply Hmax. now right. }
  destruct (Js.isNaNf (Item.score first)) eqn:Nf.
  - (* the first score is NaN: the first pairing is reported *)
    assert (Eb : best = first).
    { unfold best. rewrite Es. now apply MeanFacts.mostSimilarOf_nan. }
    exists 0%nat, first, best.
    split; [rewrite Es; reflexivity|].
    split; [rewrite Es, Eb; reflexivity|].
    repeat (split; [reflexivity|]).
    split; [exact Hmax|]. split; [reflexivity | rewrite Nf; discriminate].
  - (* the first score is a number *)
    destruct (MeanFacts.mostSimilarOf_number first rest Nf)
      as (k & Hk & Hnum & Hbefore & Hall).
    rewrite <- Es in Hk, Hbefore, Hall. fold best in Hk, Hnum, Hbefore, Hall.
    exists k, first, best.
    split; [rewrite Es; reflexivity|].
    split; [exact Hk|].
    repeat (split; [reflexivity|]).
    split; [exact Hmax|]. split; [rewrite Nf; discriminate|].
    intros _. split; [exact Hnum|]. split; [|exact Hbefore].
    apply Forall_forall. exact Hall.
Qed.

(** C2 (amended), at a concrete input: for the candidate "diagonal" and the
    favorites "north" and "east" the mean is the sum divided by 2, no
    combined score is NaN, and the reported match score is the greatest of
    the two. *)
Lemma rankCandidates_scores_witness :
  (Z.of_nat (List.length Fixture.twoFavorites) < 2 ^ 53)%Z
  /\ exists (n : float) (k : nat) (first best : Item.t),
      Exact.wholeNumber n = Some 2%Z
      /\ Ranked.similarityScore Fixture.diagonalRanked
         = (fold_left (fun sum item => sum + Item.score item)
              (Recommendations.similaritiesOf Fixture.english Fixture.tokenize
                 Fixture.listTerms Fixture.compass [] Fixture.twoFavorites
                 (Ranked.podcast Fixture.diagonalRanked)) 0
            / n)%float
      /\ nth_error
           (Recommendations.similaritiesOf Fixture.english Fixture.tokenize
              Fixture.listTerms Fixture.compass [] Fixture.twoFavorites
              (Ranked.podcast Fixture.diagonalRanked)) 0 = Some first
      /\ Js.isNaNf (Item.score first) = false
      /\ nth_error
           (Recommendations.similaritiesOf Fixture.english Fixture.tokenize
              Fixture.listTerms Fixture.compass [] Fixture.twoFavorites
              (Ranked.podcast Fixture.diagonalRanked)) k = Some best
      /\ Ranked.matchScore Fixture.diagonalRanked = Item.score best
      /\ Forall (fun item =>
                   Js.isNaNf (Item.score item) = true
                   \/ PrimFloat.leb (Item.score item) (Item.score best) = true)
                (Recommendations.similaritiesOf Fixture.english Fixture.tokenize
                   Fixture.listTerms Fixture.compass [] Fixture.twoFavorites
                   (Ranked.podcast Fixture.diagonalRanked)).
Proof.
  assert (Hbound : (Z.of_nat (List.length Fixture.twoFavorites) < 2 ^ 53)%Z)
    by (vm_compute; reflexivity).
  split; [exact Hbound|].
  assert (Hin : In Fixture.diagonalRanked
                   (Recommendations.rankCandidates Fixture.english Fixture.tokenize
                      Fixture.listTerms Fixture.compass []
                      Fixture.twoFavorites Fixture.twoCandidates))
    by (vm_compute; left; reflexivity).
  assert (Hfirst : forall f,
             nth_error
               (Recommendations.similaritiesOf Fixture.english Fixture.tokenize
                  Fixture.listTerms Fixture.compass [] Fixture.twoFavorites
                  (Ranked.podcast Fixture.diagonalRanked)) 0 = Some f ->
             Js.isNaNf (Item.score f) = false)
    by (vm_compute; intros f E; injection E as <-; reflexivity).
  pose proof (proj1 (proj2 (rankCandidates_combined_mean_and_best
                              Fixture.english Fixture.tokenize Fixture.listTerms
                              Fixture.compass [] Fixture.twoFavorites
                              Fixture.twoCandidates))) as Hall.
  rewrite Forall_forall in Hall.
  destruct (Hall Fixture.diagonalRanked Hin)
    as (_ & _ & (n & Hmean & Hwhole)
        & k & first & best & H0 & Hk & _ & _ & _ & _ & Hmatch & _ & _ & Hnumber).
  destruct (Hnumber (Hfirst first H0)) as (_ & Hle & _).
  exists n, k, first, best.
  split; [exact (Hwhole Hbound)|]. split; [exact Hmean|].
  split; [exact H0|]. split; [exact (Hfirst first H0)|].
  split; [exact Hk|]. split; [exact Hmatch | exact Hle].
Defined.
(* ===================================================================== *)
(** * Facts: the sort is stable, a counter lists names as they came *)
(* ===================================================================== *)

Module StableFacts.

Import FloatOrder FloatOrderFacts Orders Counter.

Lemma before_cons {A : Type} (x : A) (l : list A) (a b : A) :
  before l a b -> before (x :: l) a b.
Proof.
  intros (l1 & l2 & -> & H). exists (x :: l1), l2. split; [reflexivity | exact H].
Qed.

Lemma before_head {A : Type} (x : A) (l : list A) (b : A) :
  In b l -> before (x :: l) x b.
Proof. intros H. exists [], l. split; [reflexivity | exact H]. Qed.

Lemma before_map {A B : Type} (f : A -> B) (l : list A) (a b : A) :
  before l a b -> before (map f l) (f a) (f b).
Proof.
  intros (l1 & l2 & -> & H). exists (map f l1), (map f l2).
  split; [now rewrite map_app | now apply in_map].
Qed.

Lemma StronglySorted_weaken {A : Type} (R R' : A -> A -> Prop) (l : list A) :
  (forall a b, R a b -> R' a b) ->
  Sorted.StronglySorted R l -> Sorted.StronglySorted R' l.
Proof.
  intros H Hs. induction Hs as [|x l Hl IH Hx]; constructor; [exact IH|].
  apply Forall_forall. intros y Hy. apply H.
  exact (proj1 (Forall_forall _ _) Hx y Hy).
Qed.

Section ByScore.

Context {A : Type} (scoreOf : A -> float).

Local Abbreviation comparefn := (fun a b : A => PrimFloat.sub (scoreOf b) (scoreOf a)).

Lemma stableDescending_cons (x : A) (l : list A) (a b : A) :
  stableDescending scoreOf l a b -> stableDescending scoreOf (x :: l) a b.
Proof.
  intros [H1 [H2 | H2]]; split; try assumption; [now left|].
  right. now apply before_cons.
Qed.

Lemma sortInsert_stable (x : A) (l out : list A) :
  Js.isNaNf (scoreOf x) = false ->
  Forall (fun y => Js.isNaNf (scoreOf y) = false) out ->
  (forall y, In y out -> In y l) ->
  Sorted.StronglySorted (stableDescending scoreOf l) out ->
  Sorted.StronglySorted (stableDescending scoreOf (x :: l))
    (Js.sortInsert comparefn x out).
Proof.
  intros Nx. pose proof Nx as Nx'. apply isNaNf_key in Nx'. destruct Nx' as [kx Kx].
  induction out as [|y out IH]; intros Hnan Hsub Hsorted; simpl.
  - constructor; constructor.
  - inversion Hnan as [|? ? Ny Hnan']; subst.
    inversion Hsorted as [|? ? Hs Hall]; subst.
    pose proof Ny as Ny'. apply isNaNf_key in Ny'. destruct Ny' as [ky Ky].
    rewrite FloatSubFacts.ltb_zero_sub by assumption.
    destruct (PrimFloat.ltb (scoreOf x) (scoreOf y)) eqn:E.
    + constructor.
      * apply IH; [assumption | intros z Hz; apply Hsub; now right | assumption].
      * apply Forall_forall. intros z Hz. apply SortFacts.sortInsert_In in Hz.
        destruct Hz as [-> | Hz].
        -- split; [|now left].
           apply (leb_known _ _ kx ky Kx Ky). left.
           now apply (ltb_known _ _ kx ky Kx Ky).
        -- apply stableDescending_cons.
           exact (proj1 (Forall_forall _ _) Hall z Hz).
    + apply (ltb_known_false _ _ kx ky Kx Ky) in E.
      constructor.
      * apply (StronglySorted_weaken (stableDescending scoreOf l)); [|exact Hsorted].
        intros a b. apply stableDescending_cons.
      * apply Forall_forall. intros z Hz.
        assert (Hzl : In z l) by (now apply Hsub).
        split; [|right; now apply before_head].
        destruct Hz as [<- | Hz]; [now apply (leb_known _ _ ky kx Ky Kx)|].
        pose proof (proj1 (Forall_forall _ _) Hnan' z Hz) as Nz.
        apply isNaNf_key in Nz. destruct Nz as [kz Kz].
        apply (leb_known _ _ kz kx Kz Kx).
        eapply lexLe_trans; [|exact E].
        apply (leb_known _ _ kz ky Kz Ky).
        exact (proj1 (proj1 (Forall_forall _ _) Hall z Hz)).
Qed.

(** Sorting by [(a, b) => score(b) - score(a)] is stable: of two elements,
    the one with the greater score comes first, and of two with the same
    score the one that stood first. *)
Lemma Array_sort_stable (l : list A) :
  Forall (fun y => Js.isNaNf (scoreOf y) = false) l ->
  Sorted.StronglySorted (stableDescending scoreOf l) (Js.Array_sort comparefn l).
Proof.
  unfold Js.Array_sort. induction l as [|x l IH]; intros Hnan; simpl.
  - constructor.
  - inversion Hnan as [|? ? Nx Hnan']; subst.
    apply sortInsert_stable; [assumption| | |now apply IH].
    + apply Forall_forall. intros y Hy.
      apply (SortFacts.Array_sort_In comparefn y l) in Hy.
      exact (proj1 (Forall_forall _ _) Hnan' y Hy).
    + intros y Hy. now apply (SortFacts.Array_sort_In comparefn y l).
Qed.

End ByScore.

(** ** First occurrences *)

Lemma uniqueBy_seen (seen seen' l : list string) :
  (forall x, In x seen <-> In x seen') ->
  Js.uniqueBy String.eqb seen l = Js.uniqueBy String.eqb seen' l.
Proof.
  revert seen seen'. induction l as [|y l IH]; intros seen seen' H; simpl;
    [reflexivity|].
  change (existsb (String.eqb y) seen) with (JsString.includes y seen).
  change (existsb (String.eqb y) seen') with (JsString.includes y seen').
  assert (E : JsString.includes y seen = JsString.includes y seen').
  { destruct (JsString.includes y seen) eqn:E1, (JsString.includes y seen') eqn:E2;
      try reflexivity.
    - apply CollectFacts.includes_In in E1. apply CollectFacts.includes_not_In in E2.
      exfalso. apply E2. now apply H.
    - apply CollectFacts.includes_In in E2. apply CollectFacts.includes_not_In in E1.
      exfalso. apply E1. now apply H. }
  rewrite E. destruct (JsString.includes y seen').
  - now apply IH.
  - f_equal. apply IH. intros x. simpl. rewrite H. tauto.
Qed.

Lemma uniqueBy_firstBefore (seen l : list string) (a b : string) :
  before (Js.uniqueBy String.eqb seen l) a b -> firstBefore l a b.
Proof.
  revert seen. induction l as [|x l IH]; intros seen H.
  - destruct H as (l1 & l2 & E & _). destruct l1; discriminate E.
  - simpl in H. destruct (existsb (String.eqb x) seen) eqn:Ex.
    + assert (Hx : In x seen).
      { apply existsb_exists in Ex. destruct Ex as (z & Hz & E).
        apply String.eqb_eq in E. now subst. }
      pose proof H as (l1 & l2 & E & Hb).
      assert (Ha' : In a (Js.uniqueBy String.eqb seen l))
        by (rewrite E; apply in_app_iff; right; now left).
      assert (Hb' : In b (Js.uniqueBy String.eqb seen l))
        by (rewrite E; apply in_app_iff; right; now right).
      apply (GatherFacts.uniqueBy_fresh String.eqb String.eqb_eq) in Ha', Hb'.
      destruct (IH seen H) as (pre & post & -> & H1 & H2 & H3 & H4).
      exists (x :: pre), post. simpl. repeat split; try assumption.
      * intros [-> | G]; tauto.
      * intros [-> | G]; tauto.
    + destruct H as (l1 & l2 & E & Hb). destruct l1 as [|y l1].
      * simpl in E. inversion E; subst.
        pose proof Hb as Hb'.
        apply (GatherFacts.uniqueBy_fresh String.eqb String.eqb_eq) in Hb'.
        apply GatherFacts.uniqueBy_In in Hb.
        exists [], l. simpl. repeat split; try tauto.
        intros ->. apply Hb'. now left.
      * simpl in E. inversion E as [[Ey E']]; subst y.
        assert (Hbef : before (Js.uniqueBy String.eqb (x :: seen) l) a b)
          by (exists l1, l2; tauto).
        assert (Ha' : In a (Js.uniqueBy String.eqb (x :: seen) l))
          by (rewrite E'; apply in_app_iff; right; now left).
        assert (Hb' : In b (Js.uniqueBy String.eqb (x :: seen) l))
          by (rewrite E'; apply in_app_iff; right; now right).
        apply (GatherFacts.uniqueBy_fresh String.eqb String.eqb_eq) in Ha', Hb'.
        destruct (IH (x :: seen) Hbef) as (pre & post & -> & H1 & H2 & H3 & H4).
        exists (x :: pre), post. simpl. repeat split; try assumption.
        -- intros [-> | G]; [apply Ha'; now left | tauto].
        -- intros [-> | G]; [apply Hb'; now left | tauto].
Qed.

Lemma firstBefore_filter (p : string -> bool) (l : list string) (a b : string) :
  firstBefore (filter p l) a b -> firstBefore l a b.
Proof.
  induction l as [|x l IH]; intros H.
  - destruct H as (pre & post & E & _). destruct pre; discriminate E.
  - simpl in H. destruct (p x) eqn:Ex.
    + destruct H as (pre & post & E & H1 & H2 & H3 & H4).
      destruct pre as [|y pre].
      * simpl in E. inversion E; subst.
        exists [], l. simpl. repeat split; try tauto.
        apply filter_In in H4. tauto.
      * simpl in E. inversion E as [[Ey E']]; subst y.
        destruct IH as (pre' & post' & -> & G1 & G2 & G3 & G4).
        { exists pre, post. simpl in H1, H2. repeat split; try tauto. }
        exists (x :: pre'), post'. simpl in *. repeat split; try tauto.
    + pose proof H as (pre & post & E & H1 & H2 & H3 & H4).
      assert (Ha : In a (filter p l)) by (rewrite E; apply in_app_iff; right; now left).
      assert (Hb : In b (filter p l))
        by (rewrite E; apply in_app_iff; right; now right).
      apply filter_In in Ha, Hb.
      destruct (IH H) as (pre' & post' & -> & G1 & G2 & G3 & G4).
      exists (x :: pre'), post'. simpl. repeat split; try tauto.
      * intros [-> | G]; [destruct Ha; congruence | tauto].
      * intros [-> | G]; [destruct Hb; congruence | tauto].
Qed.

(** ** The names of a counter, in the order they were created *)

Lemma keys_created (l : list string) (o : Js.object) :
  Counter.keys (fold_left Js.bump l o)
  = Counter.keys o
    ++ Js.uniqueBy String.eqb (Counter.keys o) (filter notProto l).
Proof.
  revert o. induction l as [|x l IH]; intros o; simpl.
  - now rewrite app_nil_r.
  - rewrite IH. destruct (ObjectFacts.bump_cases o x) as [[-> ->] | [Hx [v ->]]].
    + reflexivity.
    + unfold notProto at 2. apply String.eqb_neq in Hx. rewrite Hx. cbn [negb].
      rewrite ObjectFacts.setOwn_keys. cbn [Js.uniqueBy].
      change (existsb (String.eqb x) (Counter.keys o))
        with (JsString.includes x (Counter.keys o)).
      destruct (JsString.includes x (Counter.keys o)); [reflexivity|].
      rewrite <- app_assoc. cbn [app]. do 2 f_equal.
      apply uniqueBy_seen. intros y. rewrite in_app_iff. simpl. tauto.
Qed.

(** ** Names that are array indices read as numbers *)

Lemma digit_facts (c : ascii) :
  JsString.isDigit c = true ->
  JsString.isWhiteSpace c = false
  /\ (JsString.code c =? 43) = false /\ (JsString.code c =? 45) = false
  /\ Ascii.eqb c "." = false.
Proof.
  destruct c as [[|] [|] [|] [|] [|] [|] [|] [|]]; vm_compute; intros H;
    try discriminate H; repeat split; reflexivity.
Qed.

Lemma digits_endsInWord (s : string) :
  JsString.allChars JsString.isDigit s = true -> TextShape.endsInWord s = true.
Proof.
  induction s as [|c r IH]; [reflexivity|]. cbn [JsString.allChars].
  intros H. apply andb_true_iff in H. destruct H as [Hc Hr].
  destruct r as [|c' r'].
  - simpl. now rewrite (proj1 (digit_facts c Hc)).
  - exact (IH Hr).
Qed.

Lemma digits_skipped (s : string) :
  JsString.allChars JsString.isDigit s = true -> JsString.skipDigits s = EmptyString.
Proof.
  induction s as [|c r IH]; [reflexivity|]. cbn [JsString.allChars JsString.skipDigits].
  intros H. apply andb_true_iff in H. destruct H as [Hc Hr]. rewrite Hc. now apply IH.
Qed.

Lemma arrayIndex_numeric (k : string) (i : N) :
  Js.arrayIndex k = Some i -> JsString.isNumeric k = true.
Proof.
  unfold Js.arrayIndex. destruct k as [|c r]; [discriminate|].
  destruct (JsString.allChars JsString.isDigit (String c r)) eqn:Hd;
    [|discriminate].
  intros _. pose proof Hd as Hd'. cbn [JsString.allChars] in Hd'.
  apply andb_true_iff in Hd'. destruct Hd' as [Hc Hr].
  destruct (digit_facts c Hc) as (Hw & Hplus & Hminus & _).
  unfold JsString.isNumeric, JsString.trim.
  assert (Et : JsString.trimEnd (JsString.trimStart (String c r)) = String c r).
  { cbn [JsString.trimStart]. rewrite Hw.
    apply PreprocessFacts.trimEnd_endsInWord. now apply digits_endsInWord. }
  rewrite Et.
  assert (Es : JsString.stripSign (String c r) = String c r).
  { unfold JsString.stripSign. now rewrite Hplus, Hminus. }
  rewrite Es. unfold JsString.isDecimalLiteral.
  rewrite (digits_skipped _ Hd). cbn [JsString.startsWithDigit JsString.exponentPart].
  rewrite Hc. now rewrite !orb_true_r.
Qed.

Lemma Object_entries_plain (o : Js.object) :
  (forall kv, In kv o -> Js.arrayIndex (fst kv) = None) -> Js.Object_entries o = o.
Proof.
  intros H. unfold Js.Object_entries.
  assert (E1 : fold_right
                 (fun (kv : string * Js.propval) acc =>
                    match Js.arrayIndex (fst kv) with
                    | Some i => Js.insertIndexed i kv acc
                    | None => acc
                    end) [] o = []).
  { induction o as [|kv o IH]; simpl; [reflexivity|].
    rewrite (H kv (or_introl eq_refl)). apply IH. intros kv' Hkv'. apply H. now right. }
  rewrite E1. simpl. apply WordFacts.filter_fixed.
  intros kv Hkv. now rewrite (H kv Hkv).
Qed.

End StableFacts.
(* ===================================================================== *)
(** * Facts: counters hold exact counts; one favorite *)
(* ===================================================================== *)

Module CounterFacts.

Import FloatOrder FloatOrderFacts Counter Exact.

Lemma bump_holds (o : Js.object) (k : string) (n : nat) :
  ordinary k -> holds (Js.getOwn k o) n -> (Z.of_nat (S n) < 2 ^ 53)%Z ->
  holds (Js.getOwn k (Js.bump o k)) (S n).
Proof.
  intros [Hp Hi] H Hn. unfold Js.bump.
  apply String.eqb_neq in Hp. rewrite Hp.
  destruct n as [|n]; cbn [holds] in H.
  - rewrite H, Hi, GatherFacts.getOwn_setOwn, String.eqb_refl.
    exists (PrimFloat.add 0 1). split; [reflexivity | exact FloatExact.counted_one].
  - destruct H as (x & Ex & Hx). rewrite Ex.
    rewrite GatherFacts.getOwn_setOwn, String.eqb_refl.
    destruct (FloatExact.counted_not_nan x _ Hx) as [Hnan Hzero].
    cbn [Js.orZeroPlusOne]. rewrite Hzero, Hnan. cbn [orb].
    exists (PrimFloat.add x 1). split; [reflexivity|].
    replace (Pos.of_nat (S (S n))) with (Pos.of_nat (S n) + 1)%positive
      by (rewrite Pos.add_1_r; symmetry; now apply Nat2Pos.inj_succ).
    apply FloatExact.counted_succ; [|exact Hx].
    rewrite Nat2Z.inj_succ in Hn.
    assert (Zpos (Pos.of_nat (S n)) = Z.of_nat (S n)) by (rewrite <- positive_nat_Z, Nat2Pos.id; lia).
    lia.
Qed.

Lemma fold_holds (l : list string) (o : Js.object) (k : string) (n : nat) :
  ordinary k -> holds (Js.getOwn k o) n ->
  (Z.of_nat (n + List.length l) < 2 ^ 53)%Z ->
  holds (Js.getOwn k (fold_left Js.bump l o)) (n + count_occ string_dec l k).
Proof.
  intros Hk. revert o n. induction l as [|x l IH]; intros o n H Hn.
  - simpl. now rewrite Nat.add_0_r.
  - cbn [fold_left count_occ]. cbn [List.length] in Hn.
    destruct (string_dec x k) as [-> | Hx].
    + replace (n + S (count_occ string_dec l k)) with (S n + count_occ string_dec l k)
        by lia.
      apply IH; [|lia]. apply bump_holds; [exact Hk | exact H | lia].
    + apply IH; [|lia]. rewrite GatherFacts.getOwn_bump_other; [exact H | exact Hx].
Qed.

Lemma StronglySorted_map_in {A B : Type} (R : A -> A -> Prop) (R' : B -> B -> Prop)
  (f : A -> B) (l : list A) :
  (forall a b, In a l -> In b l -> R a b -> R' (f a) (f b)) ->
  Sorted.StronglySorted R l -> Sorted.StronglySorted R' (map f l).
Proof.
  induction l as [|x l IH]; intros H Hs; simpl; [constructor|].
  inversion Hs as [|? ? Hl Hx]; subst. constructor.
  - apply IH; [|exact Hl]. intros a b Ha Hb. apply H; now right.
  - apply Forall_forall. intros y Hy. apply in_map_iff in Hy.
    destruct Hy as (b & <- & Hb). apply H; [now left | now right|].
    exact (proj1 (Forall_forall _ _) Hx b Hb).
Qed.

Lemma StronglySorted_firstn {A : Type} (R : A -> A -> Prop) (n : nat) (l : list A) :
  Sorted.StronglySorted R l -> Sorted.StronglySorted R (firstn n l).
Proof.
  revert n. induction l as [|x l IH]; intros n H.
  - rewrite firstn_nil. constructor.
  - destruct n as [|n]; simpl; [constructor|].
    inversion H as [|? ? Hl Hx]; subst. constructor; [now apply IH|].
    apply Forall_forall. intros y Hy. apply SortFacts.In_firstn in Hy.
    exact (proj1 (Forall_forall _ _) Hx y Hy).
Qed.

(** The entries of a counter, sorted by [(a, b) => b[1] - a[1]]: a name
    counted more often comes first, and of two names counted equally often
    the one that stood first. *)
Lemma counter_sorted_entries (l : list string) (p : string * Js.propval -> bool) :
  (forall k, In k l -> k <> "__proto__"%string ->
             JsString.includes k Js.inheritedNames = false) ->
  (Z.of_nat (List.length l) < 2 ^ 53)%Z ->
  Sorted.StronglySorted
    (fun a b =>
       count_occ string_dec l (fst b) < count_occ string_dec l (fst a)
       \/ (count_occ string_dec l (fst b) = count_occ string_dec l (fst a)
           /\ Orders.before (filter p (Js.Object_entries (fold_left Js.bump l []))) a b))
    (Js.Array_sort
       (fun a b => PrimFloat.sub (Js.toNumber (snd b)) (Js.toNumber (snd a)))
       (filter p (Js.Object_entries (fold_left Js.bump l [])))).
Proof.
  intros Hord Hlen.
  set (o := fold_left Js.bump l []).
  set (comparefn := fun a b : string * Js.propval =>
                      PrimFloat.sub (Js.toNumber (snd b)) (Js.toNumber (snd a))).
  destruct (ObjectFacts.fold_bump_keys l [] (NoDup_nil _)) as [Hnd Hkeys].
  fold o in Hnd, Hkeys.
  destruct (ObjectFacts.sorted_entries_keys comparefn p o Hnd) as [_ Hin].
  assert (Hval : forall kv, In kv (Js.Array_sort comparefn (filter p (Js.Object_entries o))) ->
                   exists x, snd kv = Js.Num x
                             /\ Prim2SF x
                                = Exact.counted
                                    (Pos.of_nat (count_occ string_dec l (fst kv)))
                             /\ 0 < count_occ string_dec l (fst kv)).
  { intros [k v] Hkv. apply Hin in Hkv. destruct Hkv as [Hkv _].
    assert (Hk : In k (Counter.keys o))
      by (unfold Counter.keys; apply in_map_iff; now exists (k, v)).
    apply Hkeys in Hk. destruct Hk as [[] | [Hk Hp]].
    pose proof (fold_holds l [] k 0 (conj Hp (Hord k Hk Hp)) eq_refl Hlen) as H.
    fold o in H. rewrite (GatherFacts.getOwn_In k v o Hnd Hkv) in H.
    assert (Hc : 0 < count_occ string_dec l k) by (now apply count_occ_In).
    cbn [fst snd]. simpl in H.
    destruct (count_occ string_dec l k) as [|n]; [lia|].
    destruct H as (x & Ex & Hx). inversion Ex; subst. eauto. }
  rewrite <- (map_id (Js.Array_sort comparefn (filter p (Js.Object_entries o)))).
  apply (StronglySorted_map_in
           (Orders.stableDescending (fun kv => Js.toNumber (snd kv))
              (filter p (Js.Object_entries o)))).
  - intros a b Ha Hb [Hle Hstable].
    destruct (Hval a Ha) as (x & Ea & Hx & Hca).
    destruct (Hval b Hb) as (y & Eb & Hy & Hcb).
    rewrite Ea, Eb in Hle, Hstable. cbn [Js.toNumber] in Hle, Hstable.
    assert (Kx : key x = rank (Exact.counted
                                 (Pos.of_nat (count_occ string_dec l (fst a)))))
      by (unfold key; now rewrite Hx).
    assert (Ky : key y = rank (Exact.counted
                                 (Pos.of_nat (count_occ string_dec l (fst b)))))
      by (unfold key; now rewrite Hy).
    assert (Hz : forall n, 0 < n -> Zpos (Pos.of_nat n) = Z.of_nat n)
      by (intros n Hn; rewrite <- positive_nat_Z, Nat2Pos.id; lia).
    pose proof (count_occ_bound string_dec (fst a) l) as Ba.
    pose proof (count_occ_bound string_dec (fst b) l) as Bb.
    destruct (lt_eq_lt_dec (count_occ string_dec l (fst b))
                (count_occ string_dec l (fst a))) as [[L | E] | G].
    + now left.
    + right. split; [exact E|]. destruct Hstable as [Hlt | Hbefore]; [|exact Hbefore].
      exfalso. rewrite E in Ky. apply ltb_key in Hlt.
      destruct Hlt as (ky & kx & Ky' & Kx' & Hlt).
      rewrite Ky in Ky'. rewrite Kx in Kx'. rewrite Ky' in Kx'.
      inversion Kx'; subst. now apply lexLt_irrefl in Hlt.
    + exfalso.
      destruct (FloatExact.counted_rank_lt
                  (Pos.of_nat (count_occ string_dec l (fst a)))
                  (Pos.of_nat (count_occ string_dec l (fst b))))
        as (ka & kb & Ka & Kb & Hlt); try (rewrite Hz by lia; lia).
      rewrite Ka in Kx. rewrite Kb in Ky.
      apply (leb_known y x kb ka Ky Kx) in Hle.
      apply lexLe_cases in Hle. contradiction.
  - apply StableFacts.Array_sort_stable.
    apply Forall_forall. intros kv Hkv.
    assert (Hkv' : In kv (Js.Array_sort comparefn (filter p (Js.Object_entries o))))
      by (now apply SortFacts.Array_sort_In).
    destruct (Hval kv Hkv') as (x & E & Hx & _). rewrite E. cbn [Js.toNumber].
    exact (proj1 (FloatExact.counted_not_nan x _ Hx)).
Qed.

Lemma counter_sorted (l : list string) (p : string * Js.propval -> bool) :
  (forall k, In k l -> k <> "__proto__"%string ->
             JsString.includes k Js.inheritedNames = false) ->
  (Z.of_nat (List.length l) < 2 ^ 53)%Z ->
  Sorted.StronglySorted
    (fun a b => count_occ string_dec l b <= count_occ string_dec l a)
    (map fst
         (Js.Array_sort
            (fun a b => PrimFloat.sub (Js.toNumber (snd b)) (Js.toNumber (snd a)))
            (filter p (Js.Object_entries (fold_left Js.bump l []))))).
Proof.
  intros Hord Hlen.
  eapply StronglySorted_map_in; [|exact (counter_sorted_entries l p Hord Hlen)].
  intros a b _ _ H. cbv beta in H. lia.
Qed.

Lemma count_occ_filter (p : string -> bool) (l : list string) (w : string) :
  p w = true -> count_occ string_dec (filter p l) w = count_occ string_dec l w.
Proof.
  intros H. induction l as [|x l IH]; simpl; [reflexivity|].
  destruct (p x) eqn:E; simpl; destruct (string_dec x w) as [-> | N];
    try congruence.
Qed.

Lemma filter_length {A : Type} (p : A -> bool) (l : list A) :
  List.length (filter p l) <= List.length l.
Proof. induction l as [|x l IH]; simpl; [lia|]. destruct (p x); simpl; lia. Qed.

(** Of the names that [Object.prototype] gives every object, only
    [constructor] is written in lowercase letters. *)
Lemma inherited_lowercase (w : string) :
  JsString.includes w Js.inheritedNames = true ->
  JsString.allChars TextShape.isLowerWord w = true ->
  w = "constructor"%string.
Proof.
  intros H Hl. apply CollectFacts.includes_In in H. unfold Js.inheritedNames in H.
  simpl in H.
  repeat (destruct H as [<- | H]; [first [reflexivity | discriminate Hl]|]).
  contradiction.
Qed.

End CounterFacts.

Module OneFavoriteFacts.

Import FloatOrder FloatOrderFacts Recommendations.

Lemma lengthOf_one {A : Type} (x : A) : lengthOf [x] = 1%float.
Proof. reflexivity. Qed.

Lemma descending_by_key {A : Type} (f g : A -> float) (l : list A) :
  (forall x, In x l -> key (f x) = key (g x)) ->
  Invariants.descending f l -> Invariants.descending g l.
Proof.
  unfold Invariants.descending. intros H Hs. rewrite <- (map_id l).
  apply (CounterFacts.StronglySorted_map_in
           (fun a b => PrimFloat.leb (f b) (f a) = true)); [|exact Hs].
  intros a b Ha Hb Hle. apply leb_key in Hle. apply leb_key.
  destruct Hle as (kb & ka & Kb & Ka & L). exists kb, ka.
  rewrite <- (H a Ha), <- (H b Hb). tauto.
Qed.

Section Services.

Variable stopwords : list string.
Variable tokenize : string -> list string.
Variable listTerms : string -> list (string * float).
Variable featureExtraction : string -> option (list float).
Variable c : Similarity.cache.

(** With one favorite, the mean of a candidate is its only combined score
    and that favorite is the one named. *)
Lemma rankCandidates_one favorite candidatePodcasts r :
  In r (rankCandidates stopwords tokenize listTerms featureExtraction c
          [favorite] candidatePodcasts) ->
  Ranked.similarityScore r
  = PrimFloat.div (PrimFloat.add 0 (Ranked.matchScore r)) 1
  /\ Ranked.mostSimilarPodcastId r = id favorite.
Proof.
  intros H. apply RankingFacts.rankCandidates_In in H.
  destruct H as (f0 & fs & candidate & E & _ & ->). inversion E; subst.
  unfold scoreCandidate, favoriteEmbeddingsOf.
  cbn [map Ranked.similarityScore Ranked.matchScore Ranked.mostSimilarPodcastId].
  unfold avgSimilarityOf, mostSimilarOf. cbn [fold_left].
  rewrite lengthOf_one.
  match goal with
  | |- context [if ?b then _ else _] => destruct b
  end; split; reflexivity.
Qed.

End Services.

Lemma recommendationsOf_descending (stopwords : list string) (l : list Ranked.t) :
  Invariants.descending Ranked.matchScore l ->
  Invariants.descending Recommendation.similarity_score
    (recommendationsOf stopwords l).
Proof.
  unfold Invariants.descending. intros H.
  assert (E : recommendationsOf stopwords l
              = map (fun r =>
                       {| Recommendation.podcast := Ranked.podcast r;
                          Recommendation.similarity_score := Ranked.matchScore r;
                          Recommendation.semantic_score := Ranked.semanticScore r;
                          Recommendation.topic_score := Ranked.topicScore r;
                          Recommendation.reason :=
                            TextProcessing.generateMatchReason stopwords
                              (Ranked.podcast r) (Ranked.mostSimilarPodcast r)
                              (Ranked.semanticScore r) (Ranked.topicScore r);
                          Recommendation.most_similar_to :=
                            Ranked.mostSimilarPodcastId r |}) l).
  { induction l as [|r l IH]; simpl; [reflexivity|].
    inversion H; subst. now rewrite <- IH. }
  rewrite E.
  apply (CounterFacts.StronglySorted_map_in
           (fun a b => PrimFloat.leb (Ranked.matchScore b) (Ranked.matchScore a) = true));
    [|exact H].
  intros a b _ _ Hle. exact Hle.
Qed.

End OneFavoriteFacts.

(** X21.  When there is one favorite and no combined score is NaN, the
    recommendations that [generateRecommendations] returns are in
    descending order of their [similarity_score], and each names that
    favorite as the most similar: the ranking by the mean over the favorites
    is then the ranking by the score shown. *)
Theorem generateRecommendations_one_favorite_sorted :
  forall (stopwords : list string) (tokenize : string -> list string)
         (listTerms : string -> list (string * float))
         (featureExtraction : string -> option (list float))
         (c : Similarity.cache) (favorite : Podcast) (candidates : list Podcast),
    Forall (fun r => Js.isNaNf (Ranked.matchScore r) = false)
           (Recommendations.rankCandidates stopwords tokenize listTerms
              featureExtraction c [favorite] candidates) ->
    exists out : list Recommendation.t,
      Recommendations.generateRecommendations stopwords tokenize listTerms
        featureExtraction c (Some [Some favorite]) (Some (map Some candidates))
      = Returned out
      /\ Invariants.descending Recommendation.similarity_score out
      /\ Forall (fun r => Recommendation.most_similar_to r = id favorite) out.
Proof.
  intros stopwords tokenize listTerms featureExtraction c favorite candidates Hnan.
  set (ranked := Recommendations.rankCandidates stopwords tokenize listTerms
                   featureExtraction c [favorite] candidates) in *.
  exists (firstn 10 (Recommendations.recommendationsOf stopwords ranked)).
  assert (Hone : forall r, In r ranked ->
                   Ranked.similarityScore r
                   = PrimFloat.div (PrimFloat.add 0 (Ranked.matchScore r)) 1
                   /\ Ranked.mostSimilarPodcastId r = id favorite)
    by (intros r Hr; exact (OneFavoriteFacts.rankCandidates_one _ _ _ _ _ _ _ _ Hr)).
  assert (Hkey : forall r, In r ranked ->
                   FloatOrder.key (Ranked.similarityScore r)
                   = FloatOrder.key (Ranked.matchScore r)).
  { intros r Hr. rewrite (proj1 (Hone r Hr)). apply FloatExact.mean_of_one_key. }
  split; [|split].
  - change [Some favorite] with (map Some [favorite]).
    apply RankingFacts.generateRecommendations_present.
  - rewrite RankingFacts.recommendationsOf_firstn.
    apply OneFavoriteFacts.recommendationsOf_descending.
    apply SortFacts.descending_firstn.
    apply (OneFavoriteFacts.descending_by_key Ranked.similarityScore); [exact Hkey|].
    apply RankingFacts.rankCandidates_descending. fold ranked.
    apply Forall_forall. intros r Hr.
    apply FloatOrderFacts.isNaNf_key. rewrite (Hkey r Hr).
    apply FloatOrderFacts.isNaNf_key.
    exact (proj1 (Forall_forall _ _) Hnan r Hr).
  - apply Forall_forall. intros x Hx. apply SortFacts.In_firstn in Hx.
    unfold Recommendations.recommendationsOf in Hx. apply in_flat_map in Hx.
    destruct Hx as (r & Hr & [<- | []]). cbn [Recommendation.most_similar_to].
    exact (proj2 (Hone r Hr)).
Qed.

Lemma generateRecommendations_one_favorite_witness :
  exists out : list Recommendation.t,
    Recommendations.generateRecommendations Fixture.english Fixture.tokenize
      Fixture.listTerms Fixture.compass []
      (Some [Some (Fixture.podcastTitled "f1" "north")])
      (Some (map Some Fixture.twoCandidates))
    = Returned out
    /\ Invariants.descending Recommendation.similarity_score out.
Proof.
  destruct (generateRecommendations_one_favorite_sorted Fixture.english
              Fixture.tokenize Fixture.listTerms Fixture.compass []
              (Fixture.podcastTitled "f1" "north") Fixture.twoCandidates)
    as (out & E & Hd & _).
  - vm_compute. repeat constructor.
  - exists out. split; [exact E | exact Hd].
Defined.

(** X22.  When the word "constructor" does not occur in the normalised
    text, [extractKeywords] lists the keywords by the number of times each
    occurs among the words of that text, the most frequent first; of two
    keywords that occur equally often, the one whose first occurrence in the
    text is earlier comes first.  (The words form a JavaScript array, which
    has fewer than 2^32 entries.) *)
Theorem extractKeywords_most_frequent_first :
  forall (stopwords : list string) (text : string) (limit : nat),
    ~ In "constructor"%string
         (JsString.split " " (TextProcessing.preprocessText text)) ->
    (Z.of_nat (List.length (JsString.split " " (TextProcessing.preprocessText text)))
     < 2 ^ 32)%Z ->
    let words := JsString.split " " (TextProcessing.preprocessText text) in
    Sorted.StronglySorted
      (fun a b =>
         count_occ string_dec words b < count_occ string_dec words a
         \/ (count_occ string_dec words b = count_occ string_dec words a
             /\ Orders.firstBefore words a b))
      (TextProcessing.extractKeywords stopwords text limit).
Proof.
  intros stopwords text limit Hcons Hlen words. fold words in Hcons, Hlen.
  unfold TextProcessing.extractKeywords.
  destruct (JsString.isEmpty text); [constructor|]. fold words.
  set (filtered := TextProcessing.filterTokens stopwords words).
  assert (Hlow : forall w, In w words ->
                           JsString.allChars TextShape.isLowerWord w = true).
  { apply Forall_forall. apply (WordFacts.split_lowerWords true).
    pose proof (PreprocessFacts.preprocessText_normal text) as Hn.
    unfold TextShape.normal in Hn. now apply andb_true_iff in Hn. }
  assert (Hsub : forall w, In w filtered -> In w words).
  { intros w Hw. now apply WordFacts.filterTokens_In in Hw. }
  assert (Hcount : forall w, In w filtered ->
                     count_occ string_dec filtered w = count_occ string_dec words w).
  { intros w Hw. unfold filtered, TextProcessing.filterTokens in *.
    destruct words as [|w0 ws]; [reflexivity|].
    apply filter_In in Hw. destruct Hw as [Hw Hf].
    unfold TextProcessing.removeStopwords in *.
    apply filter_In in Hw. destruct Hw as [_ Hs].
    rewrite (CounterFacts.count_occ_filter _ _ w Hf).
    now rewrite (CounterFacts.count_occ_filter _ _ w Hs). }
  assert (Hfirst : forall a b, Orders.firstBefore filtered a b ->
                               Orders.firstBefore words a b).
  { intros a b H. unfold filtered, TextProcessing.filterTokens in H.
    destruct words as [|w0 ws].
    - destruct H as (pre & post & E & _). destruct pre; discriminate E.
    - unfold TextProcessing.removeStopwords in H.
      now apply StableFacts.firstBefore_filter, StableFacts.firstBefore_filter in H. }
  assert (Hflen : List.length filtered <= List.length words).
  { unfold filtered, TextProcessing.filterTokens, TextProcessing.removeStopwords.
    destruct words as [|w0 ws]; [simpl; lia|].
    eapply Nat.le_trans; apply CounterFacts.filter_length. }
  set (wordFreq := fold_left Js.bump filtered []).
  destruct (ObjectFacts.fold_bump_keys filtered [] (NoDup_nil _)) as [_ Hin].
  fold wordFreq in Hin.
  assert (Hkeys : forall kv, In kv wordFreq -> In (fst kv) filtered).
  { intros kv Hkv.
    assert (H : In (fst kv) (Counter.keys wordFreq))
      by (unfold Counter.keys; now apply in_map).
    apply Hin in H. destruct H as [[] | [H _]]. exact H. }
  assert (Hplain : Js.Object_entries wordFreq = wordFreq).
  { apply StableFacts.Object_entries_plain. intros kv Hkv.
    destruct (Js.arrayIndex (fst kv)) as [i|] eqn:E; [|reflexivity].
    apply StableFacts.arrayIndex_numeric in E.
    pose proof (Hkeys kv Hkv) as Hf. apply WordFacts.filterTokens_In in Hf.
    destruct Hf as (_ & _ & _ & Hnum & _). congruence. }
  unfold Js.slice0. rewrite <- firstn_map.
  apply CounterFacts.StronglySorted_firstn.
  pose proof (CounterFacts.counter_sorted_entries filtered (fun _ => true)) as Hs.
  rewrite WordFacts.filter_all in Hs. fold wordFreq in Hs. rewrite Hplain in Hs.
  rewrite Hplain.
  eapply CounterFacts.StronglySorted_map_in; [|apply Hs].
  - intros a b Ha Hb H. cbv beta in H.
    apply SortFacts.Array_sort_In in Ha, Hb.
    rewrite <- (Hcount _ (Hkeys a Ha)), <- (Hcount _ (Hkeys b Hb)).
    destruct H as [H | [H Hbefore]]; [now left|]. right. split; [exact H|].
    apply Hfirst.
    apply (StableFacts.firstBefore_filter Counter.notProto).
    apply (StableFacts.uniqueBy_firstBefore []).
    apply (StableFacts.before_map fst) in Hbefore.
    fold (Counter.keys wordFreq) in Hbefore.
    unfold wordFreq in Hbefore. rewrite StableFacts.keys_created in Hbefore.
    exact Hbefore.
  - intros k Hk _.
    destruct (JsString.includes k Js.inheritedNames) eqn:E; [|reflexivity].
    exfalso. apply Hcons.
    rewrite <- (CounterFacts.inherited_lowercase k E (Hlow k (Hsub k Hk))).
    now apply Hsub.
  - assert (2 ^ 32 < 2 ^ 53)%Z by (apply Z.pow_lt_mono_r; lia). lia.
Qed.

Lemma extractKeywords_most_frequent_witness :
  TextProcessing.extractKeywords Fixture.english
    "Rome rome history Rome history empire atlas" 3
  = ["rome"; "history"; "empire"]%string
  /\ Sorted.StronglySorted
       (fun a b =>
          count_occ string_dec
            (JsString.split " "
               (TextProcessing.preprocessText
                  "Rome rome history Rome history empire atlas")) b
          < count_occ string_dec
              (JsString.split " "
                 (TextProcessing.preprocessText
                    "Rome rome history Rome history empire atlas")) a
          \/ (count_occ string_dec
                (JsString.split " "
                   (TextProcessing.preprocessText
                      "Rome rome history Rome history empire atlas")) b
              = count_occ string_dec
                  (JsString.split " "
                     (TextProcessing.preprocessText
                        "Rome rome history Rome history empire atlas")) a
              /\ Orders.firstBefore
                   (JsString.split " "
                      (TextProcessing.preprocessText
                         "Rome rome history Rome history empire atlas")) a b))
       (TextProcessing.extractKeywords Fixture.english
          "Rome rome history Rome history empire atlas" 3).
Proof.
  split; [vm_compute; reflexivity|].
  apply extractKeywords_most_frequent_first.
  - vm_compute. intros H.
    repeat (destruct H as [H | H]; [discriminate H|]). exact H.
  - vm_compute. reflexivity.
Defined.

(** X23.  When none of the topic terms collected from the podcasts is a
    name that every object inherits, [extractThemesFromPodcasts] lists the
    themes by the number of times each occurs among those terms, the most
    frequent first.  (The terms form a JavaScript array, which has fewer
    than 2^32 entries.) *)
Theorem extractThemesFromPodcasts_most_frequent_first :
  forall (stopwords : list string) (tokenize : string -> list string)
         (listTerms : string -> list (string * float)) (podcasts : list Podcast),
    (forall t : string,
        In t (Collected.allTopics stopwords tokenize listTerms podcasts) ->
        ~ In t Js.inheritedNames) ->
    (Z.of_nat (List.length (Collected.allTopics stopwords tokenize listTerms podcasts))
     < 2 ^ 32)%Z ->
    Sorted.StronglySorted
      (fun a b =>
         count_occ string_dec
           (Collected.allTopics stopwords tokenize listTerms podcasts) b
         <= count_occ string_dec
              (Collected.allTopics stopwords tokenize listTerms podcasts) a)
      (SearchUtil.extractThemesFromPodcasts stopwords tokenize listTerms podcasts).
Proof.
  intros stopwords tokenize listTerms podcasts Hord Hlen.
  unfold SearchUtil.extractThemesFromPodcasts, Js.slice0.
  rewrite <- firstn_map. apply CounterFacts.StronglySorted_firstn.
  apply (CounterFacts.counter_sorted
           (Collected.allTopics stopwords tokenize listTerms podcasts)).
  - intros k Hk _. apply CollectFacts.includes_not_In. now apply Hord.
  - assert (2 ^ 32 < 2 ^ 53)%Z by (apply Z.pow_lt_mono_r; lia). lia.
Qed.

Lemma extractThemesFromPodcasts_most_frequent_witness :
  Sorted.StronglySorted
    (fun a b =>
       count_occ string_dec
         (Collected.allTopics Fixture.english Fixture.tokenize Fixture.listTerms
            [Fixture.dailyTimes; Fixture.dailyTimes]) b
       <= count_occ string_dec
            (Collected.allTopics Fixture.english Fixture.tokenize Fixture.listTerms
               [Fixture.dailyTimes; Fixture.dailyTimes]) a)
    (SearchUtil.extractThemesFromPodcasts Fixture.english Fixture.tokenize
       Fixture.listTerms [Fixture.dailyTimes; Fixture.dailyTimes]).
Proof.
  apply extractThemesFromPodcasts_most_frequent_first.
  - vm_compute. intros t H.
    repeat (destruct H as [<- | H];
            [intros G; repeat (destruct G as [G | G]; [discriminate G|]); exact G|]).
    contradiction.
  - vm_compute. reflexivity.
Defined.
(** X24.  When a text is not in the cache and the provider fails for it,
    [generateEmbedding] returns 384 zeros and writes nothing to the cache;
    the cosine similarity of that vector with any vector, on either side,
    is exactly 0. *)
Theorem generateEmbedding_failure_scores_zero :
  forall (featureExtraction : string -> option (list float))
         (c : Similarity.cache) (text : string) (vec : list float),
    Similarity.cacheGet (String.substring 0 100 text) c = None ->
    featureExtraction (String.substring 0 8000 text) = None ->
    Similarity.generateEmbedding featureExtraction c text
    = (Similarity.zeroVector 384, None)
    /\ List.length (fst (Similarity.generateEmbedding featureExtraction c text)) = 384
    /\ Similarity.calculateCosineSimilarity
         (fst (Similarity.generateEmbedding featureExtraction c text)) vec = 0%float
    /\ Similarity.calculateCosineSimilarity
         vec (fst (Similarity.generateEmbedding featureExtraction c text)) = 0%float.
Proof.
  intros featureExtraction c text vec Hc Hf.
  assert (E : Similarity.generateEmbedding featureExtraction c text
              = (Similarity.zeroVector 384, None)).
  { unfold Similarity.generateEmbedding.
    destruct (JsString.isEmpty text); [reflexivity|]. now rewrite Hc, Hf. }
  rewrite E. cbn [fst]. split; [reflexivity|].
  split; [apply repeat_length|]. split.
  - apply SimilarityMore.calculateCosineSimilarity_zeros.
  - apply SimilarityMore.calculateCosineSimilarity_zeros.
Qed.

Lemma generateEmbedding_failure_witness :
  Similarity.calculateCosineSimilarity
    (fst (Similarity.generateEmbedding Fixture.compass [] "south south    "))
    [1%float; 0%float]
  = 0%float.
Proof.
  apply (generateEmbedding_failure_scores_zero Fixture.compass [] "south south    "
           [1%float; 0%float]); reflexivity.
Defined.

Module CacheFacts.

Import Similarity CacheRound.

Lemma generateEmbedding_writes_missing (featureExtraction : string -> option (list float))
  (c : cache) (text : string) (k : string) (v : list float) :
  snd (generateEmbedding featureExtraction c text) = Some (k, v) ->
  cacheGet k c = None.
Proof.
  unfold generateEmbedding. destruct (JsString.isEmpty text); [discriminate|].
  destruct (cacheGet (String.substring 0 100 text) c) eqn:E; [discriminate|].
  destruct (featureExtraction _) as [[|x w]|]; try discriminate.
  simpl. intros H. inversion H; subst. exact E.
Qed.

(** A call that finds its key in the cache returns what is there. *)
Lemma generateEmbedding_hit (featureExtraction : string -> option (list float))
  (c : cache) (text : string) (v : list float) :
  text <> EmptyString -> cacheGet (keyOf text) c = Some v ->
  generateEmbedding featureExtraction c text = (v, None).
Proof.
  intros Hne H. unfold generateEmbedding.
  destruct text as [|ch r]; [congruence|]. cbn [JsString.isEmpty].
  unfold keyOf in H. now rewrite H.
Qed.

(** A call that does not, and gets an answer, returns and writes the answer. *)
Lemma generateEmbedding_answered (featureExtraction : string -> option (list float))
  (c : cache) (text : string) (x : float) (v : list float) :
  text <> EmptyString -> cacheGet (keyOf text) c = None ->
  featureExtraction (String.substring 0 8000 text) = Some (x :: v) ->
  generateEmbedding featureExtraction c text = (x :: v, Some (keyOf text, x :: v)).
Proof.
  intros Hne H Hf. unfold generateEmbedding.
  destruct text as [|ch r]; [congruence|]. cbn [JsString.isEmpty].
  unfold keyOf in *. now rewrite H, Hf.
Qed.

Lemma lastFor_from (key : string) (arrived : list (string * list float))
  (acc : option (list float)) :
  fold_left (fun acc w => if String.eqb key (fst w) then Some (snd w) else acc)
            arrived acc
  = match lastFor key arrived with
    | Some v => Some v
    | None => acc
    end.
Proof.
  unfold lastFor. revert acc. induction arrived as [|w arrived IH]; intros acc; simpl.
  - reflexivity.
  - rewrite IH. rewrite (IH (if String.eqb key (fst w) then Some (snd w) else None)).
    destruct (fold_left _ arrived None); [reflexivity|].
    now destruct (String.eqb key (fst w)).
Qed.

(** [Map.prototype.get] after a sequence of [set]: the last value set for
    the key, or what was there. *)
Lemma cacheGet_written (key : string) (arrived : list (string * list float)) (c : cache) :
  cacheGet key (written arrived c)
  = match lastFor key arrived with
    | Some v => Some v
    | None => cacheGet key c
    end.
Proof.
  unfold written. revert c. induction arrived as [|w arrived IH]; intros c; simpl.
  - reflexivity.
  - rewrite IH. unfold lastFor at 2. simpl. rewrite lastFor_from.
    destruct (lastFor key arrived); [reflexivity|].
    unfold cacheSet. cbn [cacheGet]. now destruct (String.eqb key (fst w)).
Qed.

Lemma lastFor_other (key : string) (arrived : list (string * list float)) :
  (forall w, In w arrived -> fst w <> key) -> lastFor key arrived = None.
Proof.
  unfold lastFor. induction arrived as [|w arrived IH]; intros H; simpl.
  - reflexivity.
  - destruct (String.eqb key (fst w)) eqn:E.
    + apply String.eqb_eq in E. exfalso. apply (H w); [now left | now symmetry].
    + apply IH. intros w' Hw'. apply H. now right.
Qed.

Lemma writesOf_missing (featureExtraction : string -> option (list float))
  (c : cache) (texts : list string) (w : string * list float) :
  In w (writesOf featureExtraction c texts) -> cacheGet (fst w) c = None.
Proof.
  unfold writesOf. intros H. apply in_flat_map in H. destruct H as (text & _ & H).
  unfold writeOf in H.
  destruct (snd (generateEmbedding featureExtraction c text)) as [[k v]|] eqn:E;
    [|contradiction].
  destruct H as [<- | []]. cbn [fst].
  exact (generateEmbedding_writes_missing _ _ _ _ _ E).
Qed.

(** The round of [generateEmbeddings] is the one whose writes arrive in the
    order of the calls. *)
Lemma generateEmbeddings_written (featureExtraction : string -> option (list float))
  (c : cache) (texts : list string) :
  snd (generateEmbeddings featureExtraction c texts)
  = written (writesOf featureExtraction c texts) c.
Proof.
  unfold generateEmbeddings, written, writesOf, writeOf. cbn [snd].
  assert (H : forall acc,
             fold_left (fun acc r => match snd r with
                                     | Some (k, v) => cacheSet k v acc
                                     | None => acc
                                     end)
                       (map (generateEmbedding featureExtraction c) texts) acc
             = fold_left (fun acc w => cacheSet (fst w) (snd w) acc)
                 (flat_map (fun text =>
                              match snd (generateEmbedding featureExtraction c text) with
                              | Some w => [w]
                              | None => []
                              end) texts) acc).
  { induction texts as [|text texts IH]; intros acc; simpl; [reflexivity|].
    destruct (snd (generateEmbedding featureExtraction c text)) as [[k v]|];
      simpl; apply IH. }
  apply H.
Qed.

End CacheFacts.

(** X9.  The embedding cache is keyed by the first 100 characters of the
    text, and it holds for a key the answer that was written last.  After
    any sequence of writes, a call for a text that is not empty gets the
    vector written last for its key, without the provider being asked, and
    when none was written, what it got before the writes.  So when two
    texts with the same first 100 characters are both missing from the
    cache in one round of calls, each gets the provider's answer for
    itself in that round, both answers are written under the one key, and
    afterwards every text with that key gets the answer that arrived last,
    whichever of the two texts it was for. *)
Theorem generateEmbedding_cache_keyed_by_prefix :
  (forall (featureExtraction : string -> option (list float))
          (c : Similarity.cache) (arrived : list (string * list float))
          (text : string),
      text <> EmptyString ->
      Similarity.generateEmbedding featureExtraction (CacheRound.written arrived c) text
      = match CacheRound.lastFor (CacheRound.keyOf text) arrived with
        | Some v => (v, None)
        | None => Similarity.generateEmbedding featureExtraction c text
        end)
  /\ (forall (featureExtraction later : string -> option (list float))
             (c : Similarity.cache) (textA textB : string)
             (a b : float) (vA vB : list float),
         textA <> EmptyString -> textB <> EmptyString ->
         CacheRound.keyOf textA = CacheRound.keyOf textB ->
         Similarity.cacheGet (CacheRound.keyOf textA) c = None ->
         featureExtraction (String.substring 0 8000 textA) = Some (a :: vA) ->
         featureExtraction (String.substring 0 8000 textB) = Some (b :: vB) ->
         let key := CacheRound.keyOf textA in
         fst (Similarity.generateEmbedding featureExtraction c textA) = a :: vA
         /\ fst (Similarity.generateEmbedding featureExtraction c textB) = b :: vB
         /\ CacheRound.writesOf featureExtraction c [textA; textB]
            = [(key, a :: vA); (key, b :: vB)]
         /\ forall text : string,
              text <> EmptyString -> CacheRound.keyOf text = key ->
              Similarity.generateEmbedding later
                (CacheRound.written [(key, a :: vA); (key, b :: vB)] c) text
              = (b :: vB, None)
              /\ Similarity.generateEmbedding later
                   (CacheRound.written [(key, b :: vB); (key, a :: vA)] c) text
                 = (a :: vA, None)).
Proof.
  split.
  - intros featureExtraction c arrived text Hne.
    destruct (CacheRound.lastFor (CacheRound.keyOf text) arrived) as [v|] eqn:E.
    + apply CacheFacts.generateEmbedding_hit; [exact Hne|].
      now rewrite CacheFacts.cacheGet_written, E.
    + unfold Similarity.generateEmbedding.
      fold (CacheRound.keyOf text).
      now rewrite CacheFacts.cacheGet_written, E.
  - intros featureExtraction later c textA textB a b vA vB HA HB Hkey Hc HfA HfB key.
    assert (Hc' : Similarity.cacheGet (CacheRound.keyOf textB) c = None)
      by (rewrite <- Hkey; exact Hc).
    pose proof (CacheFacts.generateEmbedding_answered featureExtraction c textA a vA
                  HA Hc HfA) as EA.
    pose proof (CacheFacts.generateEmbedding_answered featureExtraction c textB b vB
                  HB Hc' HfB) as EB.
    split; [now rewrite EA|]. split; [now rewrite EB|]. split.
    + unfold CacheRound.writesOf, CacheRound.writeOf. cbn [flat_map].
      rewrite EA, EB. cbn [snd app]. unfold key. now rewrite Hkey.
    + intros text Hne Hk. split.
      * apply CacheFacts.generateEmbedding_hit; [exact Hne|].
        rewrite CacheFacts.cacheGet_written, Hk.
        unfold CacheRound.lastFor. cbn [fold_left fst snd].
        now rewrite String.eqb_refl.
      * apply CacheFacts.generateEmbedding_hit; [exact Hne|].
        rewrite CacheFacts.cacheGet_written, Hk.
        unfold CacheRound.lastFor. cbn [fold_left fst snd].
        now rewrite String.eqb_refl.
Qed.

(** X9, at a concrete input: two texts that differ after their first 100
    characters, and a provider that answers [1, 0] for the first and
    [0, 1] for the second.  After a round in which both were missing and
    the answers arrived in the order of the calls, the first text gets
    [0, 1]. *)
Lemma generateEmbedding_cache_witness :
  Fixture.firstText <> Fixture.secondText
  /\ CacheRound.keyOf Fixture.firstText = CacheRound.keyOf Fixture.secondText
  /\ fst (Similarity.generateEmbedding Fixture.twins [] Fixture.firstText)
     = [1%float; 0%float]
  /\ Similarity.generateEmbedding Fixture.twins
       (CacheRound.written
          (CacheRound.writesOf Fixture.twins [] [Fixture.firstText; Fixture.secondText])
          [])
       Fixture.firstText
     = ([0%float; 1%float], None).
Proof.
  assert (Hdiff : Fixture.firstText <> Fixture.secondText)
    by (vm_compute; discriminate).
  assert (HA : Fixture.firstText <> EmptyString) by (vm_compute; discriminate).
  assert (HB : Fixture.secondText <> EmptyString) by (vm_compute; discriminate).
  assert (Hkey : CacheRound.keyOf Fixture.firstText = CacheRound.keyOf Fixture.secondText)
    by (vm_compute; reflexivity).
  assert (Hc : Similarity.cacheGet (CacheRound.keyOf Fixture.firstText) [] = None)
    by reflexivity.
  assert (HfA : Fixture.twins (String.substring 0 8000 Fixture.firstText)
                = Some [1%float; 0%float]) by (vm_compute; reflexivity).
  assert (HfB : Fixture.twins (String.substring 0 8000 Fixture.secondText)
                = Some [0%float; 1%float]) by (vm_compute; reflexivity).
  destruct (proj2 generateEmbedding_cache_keyed_by_prefix
              Fixture.twins Fixture.twins [] Fixture.firstText Fixture.secondText
              1%float 0%float [0%float] [1%float] HA HB Hkey Hc HfA HfB)
    as (EA & _ & Ew & Hlater).
  split; [exact Hdiff|]. split; [exact Hkey|]. split; [exact EA|].
  rewrite Ew. exact (proj1 (Hlater Fixture.firstText HA eq_refl)).
Defined.

(** X25.  A round of [generateEmbedding] calls writes only keys that the
    cache did not hold when the calls were made.  So in whatever order the
    answers of the round arrive, an entry that the cache held before the
    round is there with the same vector after it, and a later call for a
    text with that key, if it is not empty, gets this vector without the
    provider being asked.  The round of [generateEmbeddings] is the one in
    which the answers arrive in the order of the calls.  Only the writes
    of the round itself are considered: entries made during the round, and
    writes of other requests that were waiting for the provider, are
    outside this statement. *)
Theorem generateEmbeddings_keeps_cached_vectors :
  forall (featureExtraction later : string -> option (list float))
         (c : Similarity.cache) (texts : list string),
    (forall w : string * list float,
        In w (CacheRound.writesOf featureExtraction c texts) ->
        Similarity.cacheGet (fst w) c = None)
    /\ snd (Similarity.generateEmbeddings featureExtraction c texts)
       = CacheRound.written (CacheRound.writesOf featureExtraction c texts) c
    /\ forall (arrived : list (string * list float)) (key : string) (v : list float),
         (forall w, In w arrived ->
                    In w (CacheRound.writesOf featureExtraction c texts)) ->
         Similarity.cacheGet key c = Some v ->
         Similarity.cacheGet key (CacheRound.written arrived c) = Some v
         /\ forall text : string,
              text <> EmptyString -> CacheRound.keyOf text = key ->
              Similarity.generateEmbedding later (CacheRound.written arrived c) text
              = (v, None).
Proof.
  intros featureExtraction later c texts.
  split; [intros w; apply CacheFacts.writesOf_missing|].
  split; [apply CacheFacts.generateEmbeddings_written|].
  intros arrived key v Hsub Hc.
  assert (Hc' : Similarity.cacheGet key (CacheRound.written arrived c) = Some v).
  { rewrite CacheFacts.cacheGet_written, CacheFacts.lastFor_other; [exact Hc|].
    intros w Hw E. apply Hsub in Hw.
    apply CacheFacts.writesOf_missing in Hw. rewrite E in Hw. congruence. }
  split; [exact Hc'|]. intros text Hne Hk.
  apply CacheFacts.generateEmbedding_hit; [exact Hne|]. now rewrite Hk.
Qed.

(** X25, at a concrete input: the cache holds a vector for "east"; a round
    for "north" and "east" writes the answer for "north" only, and the
    entry of "east" is as it was. *)
Lemma generateEmbeddings_keeps_cached_witness :
  CacheRound.writesOf Fixture.compass
    [("east east    "%string, [0%float; 1%float])]
    ["north north    "; "east east    "]%string
  = [("north north    "%string, [1%float; 0%float])]
  /\ Similarity.cacheGet "east east    "
       (snd (Similarity.generateEmbeddings Fixture.compass
               [("east east    "%string, [0%float; 1%float])]
               ["north north    "; "east east    "]%string))
     = Some [0%float; 1%float].
Proof.
  split; [vm_compute; reflexivity|].
  destruct (generateEmbeddings_keeps_cached_vectors Fixture.compass Fixture.compass
              [("east east    "%string, [0%float; 1%float])]
              ["north north    "; "east east    "]%string)
    as (_ & Eround & Hkeep).
  rewrite Eround.
  apply (Hkeep _ "east east    "%string [0%float; 1%float]); [|reflexivity].
  intros w Hw. exact Hw.
Defined.

Module RouteFacts.

Import Express.

Lemma segmentsMatch_one (pattern segment : string) (segments : list string) :
  isParameter pattern = false ->
  pattern <> EmptyString ->
  segmentsMatch [pattern] segments = true ->
  segmentsMatch [":id"%string] segments = true.
Proof.
  intros Hp Hne H. destruct segments as [|s ss]; [discriminate|].
  cbn [segmentsMatch] in *. apply andb_true_iff in H. destruct H as [Hs Hss].
  rewrite Hss, andb_true_r. unfold segmentMatches in *. rewrite Hp in Hs.
  cbn [isParameter]. apply String.eqb_eq in Hs.
  destruct s as [|ch r]; [|reflexivity].
  destruct pattern; [congruence | discriminate Hs].
Qed.

Lemma matches_one (pattern path : string) :
  segmentsOf pattern = Some [String.substring 1 (String.length pattern) pattern] ->
  isParameter (String.substring 1 (String.length pattern) pattern) = false ->
  String.substring 1 (String.length pattern) pattern <> EmptyString ->
  matches pattern path = true -> matches "/:id" path = true.
Proof.
  intros Hs Hp Hne. unfold matches. rewrite Hs.
  change (segmentsOf "/:id") with (Some [":id"%string]).
  destruct (segmentsOf path) as [segments|]; [|discriminate].
  now apply segmentsMatch_one.
Qed.

End RouteFacts.

(** X26.  In the podcast router the routes [/genres] and [/trending] are
    registered after [/:id], whose pattern matches every path that they
    match: no request reaches their handlers.  A request for [/genres] or
    [/trending] is answered as a request for the details of a podcast with
    that id. *)
Theorem podcast_routes_genres_and_trending_unreachable :
  forall path : string,
    PodcastRoutes.get path <> Some PodcastRoutes.Genres
    /\ PodcastRoutes.get path <> Some PodcastRoutes.Trending
    /\ PodcastRoutes.get "/genres" = Some (PodcastRoutes.Details "genres")
    /\ PodcastRoutes.get "/trending" = Some (PodcastRoutes.Details "trending")
    /\ PodcastRoutes.get "/search" = Some PodcastRoutes.Search.
Proof.
  intros path.
  assert (H : forall h, PodcastRoutes.get path = Some h ->
                        h = PodcastRoutes.Search
                        \/ h = PodcastRoutes.Details (Express.parameter path)).
  { intros h. unfold PodcastRoutes.get, PodcastRoutes.routes.
    cbn [PodcastRoutes.dispatch].
    destruct (Express.matches "/search" path); [intros E; inversion E; now left|].
    destruct (Express.matches "/:id" path) eqn:Eid;
      [intros E; inversion E; now right|].
    destruct (Express.matches "/genres" path) eqn:Eg.
    - apply (RouteFacts.matches_one "/genres" path) in Eg;
        [congruence | reflexivity | reflexivity | discriminate].
    - destruct (Express.matches "/trending" path) eqn:Et; [|discriminate].
      apply (RouteFacts.matches_one "/trending" path) in Et;
        [congruence | reflexivity | reflexivity | discriminate]. }
  split; [|split; [|split; [|split]]]; try reflexivity.
  - intros E. destruct (H _ E); discriminate.
  - intros E. destruct (H _ E); discriminate.
Qed.
(* ===================================================================== *)
(** * Facts: favorites without a description *)
(* ===================================================================== *)

Module PlaceholderFacts.

Import Placeholder.
Local Open Scope string_scope.

Lemma join_repeat (copy : string) (n : nat) :
  JsString.join " " (repeat copy (S n)) = joined copy n.
Proof.
  unfold JsString.join. induction n as [|n IH]; [reflexivity|].
  change (repeat copy (S (S n))) with (copy :: repeat copy (S n)).
  cbn [String.concat]. change (repeat copy (S n)) with (copy :: repeat copy n) at 1.
  cbv iota. now rewrite IH.
Qed.

Lemma joined_starts (n : nat) : exists r, joined normalised n = String "n" r.
Proof. destruct n; eexists; reflexivity. Qed.

Lemma toLowerCase_joined (n : nat) :
  JsString.toLowerCase (joined text n) = joined normalised n.
Proof.
  induction n as [|n IH]; [reflexivity|].
  cbn [joined]. unfold text at 1, normalised at 1. cbn. now rewrite IH.
Qed.

Lemma joined_normal (n : nat) : TextShape.normal (joined normalised n) = true.
Proof.
  unfold TextShape.normal. induction n as [|n IH]; [reflexivity|].
  apply andb_true_iff in IH. destruct IH as [Hs He].
  destruct (joined_starts n) as [r Er].
  cbn [joined]. unfold normalised at 1 3. apply andb_true_iff. split.
  - cbn. exact Hs.
  - rewrite Er in *. cbn. exact He.
Qed.

Lemma preprocessText_joined (n : nat) :
  TextProcessing.preprocessText (joined text n) = joined normalised n.
Proof.
  pose proof (PreprocessFacts.normal_fixed _ (joined_normal n)) as H.
  unfold TextProcessing.preprocessText in *.
  rewrite toLowerCase_joined.
  assert (El : JsString.toLowerCase (joined normalised n) = joined normalised n).
  { pose proof (joined_normal n) as Hn. unfold TextShape.normal in Hn.
    apply andb_true_iff in Hn. destruct Hn as [Hs _].
    exact (PreprocessFacts.toLowerCase_spaced true _ Hs). }
  rewrite El in H.
  destruct (joined_starts n) as [r Er].
  assert (Et : JsString.isEmpty (joined text n) = false) by (now destruct n).
  rewrite Et. rewrite Er in H at 1. cbn [JsString.isEmpty] in H. exact H.
Qed.

Lemma split_joined (n : nat) :
  JsString.split " " (joined normalised n)
  = (words ++ List.concat (repeat words n))%list.
Proof.
  induction n as [|n IH]; [reflexivity|].
  cbn [joined repeat List.concat]. rewrite <- IH.
  unfold normalised at 1. cbn. reflexivity.
Qed.

(** The words that [filterTokens] keeps of one copy. *)
Lemma filterTokens_copies (stopwords : list string) (n : nat) :
  ~ In "description" stopwords ->
  exists kept,
    (kept = ["description"; "available"] \/ kept = ["description"])
    /\ TextProcessing.filterTokens stopwords (words ++ List.concat (repeat words n))%list
       = (kept ++ List.concat (repeat kept n))%list.
Proof.
  intros Hd. apply CollectFacts.includes_not_In in Hd.
  set (keep := fun token : string =>
                 Nat.ltb 3 (String.length token)
                 && negb (JsString.includes token TextProcessing.commonWords)
                 && JsString.isNaN token).
  set (unstopped := fun t : string =>
                      negb (JsString.includes (JsString.toLowerCase t) stopwords)).
  assert (E : forall l, TextProcessing.filterTokens stopwords l
                        = filter keep (filter unstopped l)).
  { intros [|x l]; reflexivity. }
  exists (filter keep (filter unstopped words)). split.
  - unfold words, unstopped. cbn [filter].
    change (JsString.toLowerCase "no") with "no".
    change (JsString.toLowerCase "description") with "description".
    change (JsString.toLowerCase "available") with "available".
    rewrite Hd. cbn [negb].
    destruct (JsString.includes "no" stopwords),
      (JsString.includes "available" stopwords); cbn; tauto.
  - rewrite E, !filter_app. f_equal.
    induction n as [|n IH]; [reflexivity|].
    cbn [repeat List.concat]. now rewrite !filter_app, IH.
Qed.

Lemma recounted_two (n : nat) (v : Js.propval) :
  fold_left Js.bump (List.concat (repeat ["description"; "available"] n))
    [("description", v); ("available", v)]
  = [("description", recounted n v); ("available", recounted n v)].
Proof.
  revert v. induction n as [|n IH]; intros v; [reflexivity|].
  cbn [repeat List.concat app fold_left].
  replace (Js.bump (Js.bump [("description", v); ("available", v)] "description")
                   "available")
    with [("description", Js.orZeroPlusOne (Some v));
          ("available", Js.orZeroPlusOne (Some v))]
    by reflexivity.
  apply IH.
Qed.

Lemma recounted_one (n : nat) (v : Js.propval) :
  fold_left Js.bump (List.concat (repeat ["description"] n)) [("description", v)]
  = [("description", recounted n v)].
Proof.
  revert v. induction n as [|n IH]; intros v; [reflexivity|].
  cbn [repeat List.concat app fold_left].
  replace (Js.bump [("description", v)] "description")
    with [("description", Js.orZeroPlusOne (Some v))] by reflexivity.
  apply IH.
Qed.

(** A number minus itself is not above zero. *)
Lemma sub_self_not_positive (x : float) :
  PrimFloat.ltb 0 (PrimFloat.sub x x) = false.
Proof.
  destruct (Js.isNaNf x) eqn:E.
  - rewrite FloatAxioms.ltb_spec, FloatAxioms.sub_spec.
    assert (Hx : Prim2SF x = S754_nan).
    { destruct (FloatOrder.key x) as [k|] eqn:K.
      - assert (Js.isNaNf x = false) by (apply FloatOrderFacts.isNaNf_key; eauto).
        congruence.
      - unfold FloatOrder.key in K.
        destruct (Prim2SF x) as [[|]|[|]| |[|] m e]; try discriminate. reflexivity. }
    rewrite Hx. reflexivity.
  - rewrite FloatSubFacts.ltb_zero_sub by assumption.
    apply FloatOrderFacts.ltb_irrefl.
Qed.

(** The keywords of the placeholder, however often it is repeated. *)
Lemma extractKeywords_joined (stopwords : list string) (n : nat) :
  ~ In "description" stopwords ->
  exists rest,
    TextProcessing.extractKeywords stopwords (joined text n) 10
    = "description" :: rest.
Proof.
  intros Hd. unfold TextProcessing.extractKeywords.
  assert (Et : JsString.isEmpty (joined text n) = false) by (now destruct n).
  rewrite Et, preprocessText_joined, split_joined.
  destruct (filterTokens_copies stopwords n Hd) as (kept & [-> | ->] & ->).
  - cbn [app fold_left].
    replace (Js.bump (Js.bump [] "description") "available")
      with [("description", Js.Num (0 + 1)); ("available", Js.Num (0 + 1))]
      by reflexivity.
    rewrite recounted_two.
    set (v := recounted n (Js.Num (0 + 1))).
    replace (Js.Object_entries [("description", v); ("available", v)])
      with [("description", v); ("available", v)] by reflexivity.
    unfold Js.Array_sort. cbn [fold_right Js.sortInsert snd].
    rewrite sub_self_not_positive. eexists. reflexivity.
  - cbn [app fold_left].
    replace (Js.bump [] "description")
      with [("description", Js.Num (0 + 1))] by reflexivity.
    rewrite recounted_one.
    set (v := recounted n (Js.Num (0 + 1))).
    replace (Js.Object_entries [("description", v)])
      with [("description", v)] by reflexivity.
    eexists. reflexivity.
Qed.

Lemma standardize_placeholder (f : Podcast) :
  SearchUtil.descriptionOf f = EmptyString ->
  SearchUtil.descriptionOf (Favorites.standardize f) = text.
Proof.
  unfold SearchUtil.descriptionOf, Favorites.standardize. cbn [description description_original].
  destruct (Js.orElse (description f) (description_original f)) as [[|c r]|];
    try reflexivity. discriminate.
Qed.

End PlaceholderFacts.

(** X27.  When no favorite has a description, [standardizeFavorites] gives
    each the description 'No description available', and the words of that
    placeholder become the keywords: unless "description" is a stop word or
    a word of a favorite's publisher name, one of the queries generated for
    the standardized favorites searches the catalog for "description". *)
Theorem generateDiverseQueries_searches_for_the_placeholder :
  forall (stopwords : list string) (tokenize : string -> list string)
         (listTerms : string -> list (string * float)) (favorites : list Podcast),
    favorites <> [] ->
    (forall f : Podcast, In f favorites -> SearchUtil.descriptionOf f = EmptyString) ->
    ~ In "description"%string stopwords ->
    ~ In "description"%string
         (SearchUtil.publishersToFilter (map Favorites.standardize favorites)) ->
    Forall (fun f => description f = Some "No description available"%string)
           (map Favorites.standardize favorites)
    /\ In (SearchUtil.mkQuery "description")
          (SearchUtil.generateDiverseQueries stopwords tokenize listTerms
             (map Favorites.standardize favorites)).
Proof.
  intros stopwords tokenize listTerms favorites Hne Hnone Hstop Hpub.
  split.
  - apply Forall_forall. intros p Hp. apply in_map_iff in Hp.
    destruct Hp as (f & <- & Hf). specialize (Hnone f Hf).
    unfold SearchUtil.descriptionOf in Hnone. unfold Favorites.standardize.
    cbn [description].
    destruct (Js.orElse (description f) (description_original f)) as [[|c r]|];
      try reflexivity. discriminate.
  - assert (Etexts : map SearchUtil.descriptionOf (map Favorites.standardize favorites)
                     = repeat Placeholder.text (List.length favorites)).
    { clear Hne Hpub. induction favorites as [|f fs IH]; [reflexivity|].
      cbn [map List.length repeat].
      rewrite (PlaceholderFacts.standardize_placeholder f (Hnone f (or_introl eq_refl))).
      f_equal. apply IH. intros g Hg. apply Hnone. now right. }
    destruct favorites as [|f0 fs]; [congruence|].
    destruct (PlaceholderFacts.extractKeywords_joined stopwords (List.length fs) Hstop)
      as [rest Ekw].
    assert (Ek : exists more,
               SearchUtil.keywordsOf stopwords (map Favorites.standardize (f0 :: fs))
               = "description"%string :: more).
    { unfold SearchUtil.keywordsOf. rewrite Etexts.
      cbn [List.length]. rewrite PlaceholderFacts.join_repeat, Ekw.
      cbn [filter JsString.isEmpty negb String.length Nat.ltb Nat.leb andb].
      change (JsString.toLowerCase "description") with "description"%string.
      apply CollectFacts.includes_not_In in Hpub. rewrite Hpub. cbn [negb].
      eexists. reflexivity. }
    destruct Ek as [more Ek].
    unfold SearchUtil.generateDiverseQueries. cbn [map]. cbv iota.
    change (Favorites.standardize f0 :: map Favorites.standardize fs)
      with (map Favorites.standardize (f0 :: fs)).
    rewrite Ek. apply QueryFacts.removeDuplicateQueries_keeps.
    apply in_app_iff. right. apply in_app_iff. left. now left.
Qed.

Lemma generateDiverseQueries_placeholder_witness :
  In (SearchUtil.mkQuery "description")
     (SearchUtil.generateDiverseQueries Fixture.english Fixture.tokenize
        Fixture.listTerms (map Favorites.standardize Fixture.twoFavorites)).
Proof.
  apply (generateDiverseQueries_searches_for_the_placeholder Fixture.english
           Fixture.tokenize Fixture.listTerms Fixture.twoFavorites).
  - discriminate.
  - intros f [<- | [<- | []]]; reflexivity.
  - vm_compute. intros H.
    repeat (destruct H as [H | H]; [discriminate H|]). exact H.
  - vm_compute. intros H.
    repeat (destruct H as [H | H]; [discriminate H|]). exact H.
Defined.
